(** * FinTrack: the Norisbank statement parser

    A shallow embedding of [src/FinTrack/parser/file_handling.py]
    ([NorisbankPDFParser]) and proofs about the transaction reconstruction
    it performs on the positioned text boxes of a statement; with it,
    [FileHandler] and the loop of [main] in [src/FinTrack/main.py].

    Conventions of the embedding.
    - The data frame [df] of text boxes is a list of [Fragment] records in
      row order; a boolean-mask selection is [filter], [iterrows] is the
      list order.
    - Text is a [string] of 8-bit characters; [strip] and the character
      classes of the patterns are the ASCII ones. [str.lower()] is a
      parameter, the class [Lower]: statements hold for every function
      in its place, and the examples, whose texts are ASCII, are
      evaluated with the ASCII one.
    - Coordinates and amounts (binary64 in Python) are the rationals they
      denote, with exact arithmetic ([Q]); [==] on them is [Qeq_bool].
      The test of the end balance against the tolerance is made on the
      binary64 numbers themselves ([float64], [exceeds_tolerance]).
    - [print] is a writer of [Message]s, an exception is the left summand
      of the result: see [M].
    - pandas' [sort_values] is a parameter of [extract_data]: the source
      calls it with the default [kind], for which the library promises an
      ascending permutation and nothing about equal keys.
      [sort_values_quicksort] is the sort the library runs for that
      [kind]. *)

From Stdlib Require Import List Bool Arith ZArith QArith Qround Qabs Qminmax Lia.
From Stdlib Require Import Ascii String.
From Stdlib Require Import Permutation Sorted.
From Stdlib Require Import Floats.SpecFloat.
Import ListNotations.

Open Scope string_scope.
Open Scope list_scope.

(* ================================================================= *)
(** ** Strings *)

Module Str.

Definition is_upper (c : ascii) : bool :=
  let n := nat_of_ascii c in (65 <=? n)%nat && (n <=? 90)%nat.

Definition lower_char (c : ascii) : ascii :=
  if is_upper c then ascii_of_nat (nat_of_ascii c + 32) else c.

(** [str.lower()] on ASCII text: the letters A to Z *)
Fixpoint lower (s : string) : string :=
  match s with
  | EmptyString => EmptyString
  | String c s' => String (lower_char c) (lower s')
  end.

(** [needle in hay] *)
Fixpoint contains (needle hay : string) : bool :=
  if prefix needle hay then true
  else match hay with
       | EmptyString => false
       | String _ hay' => contains needle hay'
       end.

(** [s.replace(c, '')] for a one-character [c] *)
Fixpoint remove_char (c : ascii) (s : string) : string :=
  match s with
  | EmptyString => EmptyString
  | String d s' =>
      if Ascii.eqb d c then remove_char c s' else String d (remove_char c s')
  end.

(** [s.replace(c, d)] for one-character [c] and [d] *)
Fixpoint replace_char (c d : ascii) (s : string) : string :=
  match s with
  | EmptyString => EmptyString
  | String e s' =>
      String (if Ascii.eqb e c then d else e) (replace_char c d s')
  end.

(** White space as [str.strip()] and [\s] see it, within ASCII:
    TAB, LF, VT, FF, CR, FS, GS, RS, US and the space. *)
Definition is_space (c : ascii) : bool :=
  let n := nat_of_ascii c in
  ((9 <=? n)%nat && (n <=? 13)%nat) || ((28 <=? n)%nat && (n <=? 32)%nat).

Definition is_digit (c : ascii) : bool :=
  let n := nat_of_ascii c in (48 <=? n)%nat && (n <=? 57)%nat.

Fixpoint lstrip (s : string) : string :=
  match s with
  | EmptyString => EmptyString
  | String c s' => if is_space c then lstrip s' else s
  end.

Fixpoint rstrip (s : string) : string :=
  match s with
  | EmptyString => EmptyString
  | String c s' =>
      match rstrip s' with
      | EmptyString => if is_space c then EmptyString else String c EmptyString
      | t => String c t
      end
  end.

(** [s.strip()] *)
Definition strip (s : string) : string := rstrip (lstrip s).

(** The first [n] characters of [s]. *)
Fixpoint take (n : nat) (s : string) : string :=
  match n, s with
  | S n', String c s' => String c (take n' s')
  | _, _ => EmptyString
  end.

End Str.

(* ================================================================= *)
(** ** Regular expressions

    The patterns of the parser, run by a backtracking matcher in the
    order of Python's [re]: the list of outcomes of [run] is in the
    order in which [re] would try them, its head is the match [re]
    reports. *)

Module Re.

Inductive regex : Type :=
| Eps : regex
| Chr : (ascii -> bool) -> regex
| Cat : regex -> regex -> regex
| Alt : regex -> regex -> regex
| Star : regex -> regex
| Grp : nat -> regex -> regex
| Eol : regex
| Eos : regex.

Definition captures := list (nat * string).
Definition state := (captures * string)%type.

Definition progress (st st' : state) : bool :=
  (String.length (snd st') <? String.length (snd st))%nat.

Definition capture (i : nat) (st st' : state) : state :=
  ((i, Str.take (String.length (snd st) - String.length (snd st')) (snd st))
     :: fst st', snd st').

Definition at_eol (s : string) : bool :=
  match s with
  | EmptyString => true
  | String c EmptyString => Ascii.eqb c "010"%char
  | _ => false
  end.

(** A greedy loop: as many rounds of [step] as possible first, each
    round consuming input, then fewer, and none at last. *)
Fixpoint star_iter (step : state -> list state) (fuel : nat) (st : state)
  : list state :=
  match fuel with
  | O => [st]
  | S fuel' =>
      flat_map (star_iter step fuel') (filter (progress st) (step st)) ++ [st]
  end.

Fixpoint run (r : regex) (st : state) : list state :=
  match r with
  | Eps => [st]
  | Chr p =>
      match snd st with
      | String c s' => if p c then [(fst st, s')] else []
      | EmptyString => []
      end
  | Cat r1 r2 => flat_map (run r2) (run r1 st)
  | Alt r1 r2 => run r1 st ++ run r2 st
  | Star r1 => star_iter (run r1) (String.length (snd st)) st
  | Grp i r1 => map (capture i st) (run r1 st)
  | Eol => if at_eol (snd st) then [st] else []
  | Eos => match snd st with EmptyString => [st] | _ => [] end
  end.

(** [re.match(r, s)]: the pattern at offset 0. *)
Definition re_match (r : regex) (s : string) : option captures :=
  match run r ([], s) with
  | (c, _) :: _ => Some c
  | [] => None
  end.

(** [re.search(r, s)]: the first offset at which the pattern matches. *)
Fixpoint search (r : regex) (s : string) : option captures :=
  match re_match r s with
  | Some c => Some c
  | None =>
      match s with
      | EmptyString => None
      | String _ s' => search r s'
      end
  end.

(** [Series.str.contains(r, regex=True)] on one cell *)
Definition str_contains (r : regex) (s : string) : bool :=
  match search r s with Some _ => true | None => false end.

(** [m.group(i)] *)
Fixpoint group (i : nat) (c : captures) : string :=
  match c with
  | [] => EmptyString
  | (j, w) :: c' => if Nat.eqb i j then w else group i c'
  end.

(** Pattern combinators. *)
Definition Opt (r : regex) : regex := Alt r Eps.

Fixpoint Lit (s : string) : regex :=
  match s with
  | EmptyString => Eps
  | String c s' => Cat (Chr (Ascii.eqb c)) (Lit s')
  end.

(** A literal under [re.IGNORECASE]. *)
Fixpoint LitI (s : string) : regex :=
  match s with
  | EmptyString => Eps
  | String c s' =>
      Cat (Chr (fun d => Ascii.eqb (Str.lower_char d) (Str.lower_char c)))
          (LitI s')
  end.

Definition digit : regex := Chr Str.is_digit.
Definition space : regex := Chr Str.is_space.
Definition dot : regex := Chr (Ascii.eqb "."%char).
Definition comma : regex := Chr (Ascii.eqb ","%char).

(** [\d{2}] and the greedy [\d{1,3}] *)
Definition digit2 : regex := Cat digit digit.
Definition digit1_3 : regex := Cat digit (Opt (Cat digit (Opt digit))).

(** The words a pattern can consume (an assertion consumes nothing). *)
Inductive Matches : regex -> string -> Prop :=
| MEps : Matches Eps EmptyString
| MChr p c : p c = true -> Matches (Chr p) (String c EmptyString)
| MCat r1 r2 w1 w2 :
    Matches r1 w1 -> Matches r2 w2 -> Matches (Cat r1 r2) (w1 ++ w2)%string
| MAltL r1 r2 w : Matches r1 w -> Matches (Alt r1 r2) w
| MAltR r1 r2 w : Matches r2 w -> Matches (Alt r1 r2) w
| MStar0 r : Matches (Star r) EmptyString
| MStarS r w1 w2 :
    Matches r w1 -> Matches (Star r) w2 -> Matches (Star r) (w1 ++ w2)%string
| MGrp i r w : Matches r w -> Matches (Grp i r) w
| MEol : Matches Eol EmptyString
| MEos : Matches Eos EmptyString.

(** Patterns without a group. *)
Fixpoint groupless (r : regex) : bool :=
  match r with
  | Cat r1 r2 | Alt r1 r2 => groupless r1 && groupless r2
  | Star r1 => groupless r1
  | Grp _ _ => false
  | _ => true
  end.

End Re.

(* ================================================================= *)
(** ** The patterns of the parser (class attributes) *)

Import Re.

(** [DATE_PATTERN = r'\d{2}\.\d{2}\.\s*2024'] *)
Definition DATE_PATTERN : regex :=
  Cat digit2 (Cat dot (Cat digit2 (Cat dot (Cat (Star space) (Lit "2024"))))).

(** [(?:\d{1,3}\.)*\d{1,3},\d{2}], the number of the amount patterns *)
Definition AMOUNT_NUMBER : regex :=
  Cat (Star (Cat digit1_3 dot)) (Cat digit1_3 (Cat comma digit2)).

Definition amount_pattern (sign : ascii -> bool) : regex :=
  Cat (Star space)
      (Cat (Grp 1 (Chr sign)) (Cat (Star space) (Grp 2 AMOUNT_NUMBER))).

Definition is_plus (c : ascii) : bool := Ascii.eqb c "+"%char.
Definition is_minus (c : ascii) : bool := Ascii.eqb c "-"%char.

(** [AMOUNT_PATTERN = r'\s*([+-])\s*((?:\d{1,3}\.)*\d{1,3},\d{2})'] *)
Definition AMOUNT_PATTERN : regex :=
  amount_pattern (fun c => is_plus c || is_minus c).
(** [AMOUNT_PATTERN_CREDIT], with [[+]] for the sign *)
Definition AMOUNT_PATTERN_CREDIT : regex := amount_pattern is_plus.
(** [AMOUNT_PATTERN_DEBIT], with [[-]] for the sign *)
Definition AMOUNT_PATTERN_DEBIT : regex := amount_pattern is_minus.

(* ================================================================= *)
(** ** Numbers and dates *)

Definition digit_val (c : ascii) : Z := Z.of_nat (nat_of_ascii c - 48).

(** The leading digits of [s]: their value on top of [acc], how many
    they are on top of [n], and what follows them. *)
Fixpoint read_digits (s : string) (acc : Z) (n : nat) : Z * nat * string :=
  match s with
  | String c s' =>
      if Str.is_digit c then read_digits s' (10 * acc + digit_val c) (S n)
      else (acc, n, s)
  | EmptyString => (acc, n, EmptyString)
  end.

Definition unsigned_of_string (s : string) : option Q :=
  let '(i, ni, rest) := read_digits s 0 0 in
  match rest with
  | EmptyString => if (ni =? 0)%nat then None else Some (inject_Z i)
  | String c frac =>
      if Ascii.eqb c "."%char then
        let '(f, nf, rest') := read_digits frac 0 0 in
        match rest' with
        | EmptyString =>
            if (ni + nf =? 0)%nat then None
            else Some (Qmake (i * 10 ^ Z.of_nat nf + f) (Z.to_pos (10 ^ Z.of_nat nf)))
        | _ => None
        end
      else None
  end.

(** [float(s)] and [pd.to_numeric] on one cell, for the decimal literals
    the parser builds (an optional sign, digits, an optional fraction);
    [None] is the [ValueError] of anything else. *)
Definition float_of_string (s : string) : option Q :=
  match s with
  | String c s' =>
      if is_minus c then option_map Qopp (unsigned_of_string s')
      else if is_plus c then unsigned_of_string s'
      else unsigned_of_string s
  | EmptyString => None
  end.

(** Rounding to the nearest integer, ties to the even one. *)
Definition rint (q : Q) : Z :=
  let f := Qfloor q in
  match (q - inject_Z f ?= 1 # 2)%Q with
  | Lt => f
  | Gt => (f + 1)%Z
  | Eq => if Z.even f then f else (f + 1)%Z
  end.

(** [round(q, 2)] *)
Definition round2 (q : Q) : Q := Qmake (rint (q * 100)) 100.

Definition Qltb (a b : Q) : bool := negb (Qle_bool b a).

Record Date : Type := mkDate { d_year : Z; d_month : Z; d_day : Z }.

Definition date_compare (a b : Date) : comparison :=
  match (d_year a ?= d_year b)%Z with
  | Eq => match (d_month a ?= d_month b)%Z with
          | Eq => (d_day a ?= d_day b)%Z
          | c => c
          end
  | c => c
  end.

Definition date_leb (a b : Date) : bool :=
  match date_compare a b with Gt => false | _ => true end.

Definition date_eqb (a b : Date) : bool :=
  match date_compare a b with Eq => true | _ => false end.

Definition is_leap (y : Z) : bool :=
  ((y mod 4 =? 0) && negb (y mod 100 =? 0) || (y mod 400 =? 0))%Z.

Definition days_in_month (y m : Z) : Z :=
  if (m =? 2)%Z then (if is_leap y then 29 else 28)
  else if ((m =? 4) || (m =? 6) || (m =? 9) || (m =? 11))%Z then 30 else 31.

Definition char_in (lo hi : nat) (c : ascii) : bool :=
  let n := nat_of_ascii c in (lo <=? n)%nat && (n <=? hi)%nat.

(** The directives of [strptime], as the library's own patterns:
    [%d] is [3[0-1]|[1-2]\d|0[1-9]|[1-9]| [1-9]],
    [%m] is [1[0-2]|0[1-9]|[1-9]] and [%Y] is [\d\d\d\d]. *)
Definition STRP_d : regex :=
  Alt (Cat (Lit "3") (Chr (char_in 48 49)))
  (Alt (Cat (Chr (char_in 49 50)) digit)
  (Alt (Cat (Lit "0") (Chr (char_in 49 57)))
  (Alt (Chr (char_in 49 57))
       (Cat (Lit " ") (Chr (char_in 49 57)))))).

Definition STRP_m : regex :=
  Alt (Cat (Lit "1") (Chr (char_in 48 50)))
  (Alt (Cat (Lit "0") (Chr (char_in 49 57)))
       (Chr (char_in 49 57))).

Definition STRP_Y : regex := Cat digit2 digit2.

(** [format='%d.%m.%Y'], the whole cell *)
Definition STRP_dmY : regex :=
  Cat (Grp 1 STRP_d) (Cat dot (Cat (Grp 2 STRP_m) (Cat dot (Cat (Grp 3 STRP_Y) Eos)))).

Definition int_of_string (s : string) : Z :=
  fst (fst (read_digits (Str.lstrip s) 0 0)).

(** [pd.to_datetime(s, format='%d.%m.%Y')] on one cell; [None] is its
    [ValueError]. The bounds of pandas' timestamps (the years 1677 to
    2262) are not modelled. *)
Definition to_datetime (s : string) : option Date :=
  match re_match STRP_dmY s with
  | Some c =>
      let d := int_of_string (group 1 c) in
      let m := int_of_string (group 2 c) in
      let y := int_of_string (group 3 c) in
      if ((1 <=? y) && (d <=? days_in_month y m))%Z then Some (mkDate y m d)
      else None
  | None => None
  end.

(* ================================================================= *)
(** ** Data model *)

(** A row of [df]: one text box of the statement. *)
Record Fragment : Type := mkFragment {
  page : Z;
  x0 : Q;
  y0 : Q;
  x1 : Q;
  y1 : Q;
  text : string
}.

(** A value of the [categories] mapping. *)
Record Category : Type := mkCategory {
  name : string;
  keywords : list string
}.

(** The [categories] dict, in its insertion order. *)
Definition Categories := list (string * Category).

(** The [transaction] dict built per booking date. *)
Record Row : Type := mkRow {
  booking_date : string;
  purpose : option string;
  debit : option string;
  credit : option string;
  currency : string
}.

(** A row of [df_transactions] before the balance column exists. *)
Record Dated : Type := mkDated {
  dt_row : Row;
  dt_date : Date;
  dt_amount : Q
}.

(** A row of the returned frame ([booking_date] dropped). *)
Record Transaction : Type := mkTransaction {
  t_purpose : option string;
  t_debit : option string;
  t_credit : option string;
  t_currency : string;
  t_date : Date;
  t_year : Z;
  t_month : Z;
  t_quarter : Z;
  t_amount : Q;
  t_balance : Q
}.

(** What the parser prints. *)
Inductive Message : Type :=
| NoStartBalance : Message
| BalanceMismatch (calculated_end end_balance : Q) : Message.

(** What the parser raises. *)
Inductive Exn : Type :=
| KeyError (key : string) : Exn
| ValueError (what : string) : Exn
| IndexError : Exn.

(** A computation prints messages, then raises or returns. *)
Definition M (A : Type) : Type := (list Message * (Exn + A))%type.

Definition ret {A} (a : A) : M A := ([], inr a).
Definition raise {A} (e : Exn) : M A := ([], inl e).
Definition print (m : Message) : M unit := ([m], inr tt).
Definition bind {A B} (c : M A) (k : A -> M B) : M B :=
  match c with
  | (out, inl e) => (out, inl e)
  | (out, inr a) => let '(out', r) := k a in (out ++ out', r)
  end.
Definition lift {A} (e : Exn) (o : option A) : M A :=
  match o with Some a => ret a | None => raise e end.

Notation "x <- c ;; k" := (bind c (fun x => k))
  (at level 61, c at next level, right associativity).
Notation "c ;;; k" := (bind c (fun _ => k))
  (at level 61, right associativity).

Definition printed {A} (c : M A) : list Message := fst c.
Definition outcome {A} (c : M A) : Exn + A := snd c.

Fixpoint mapM {A B} (f : A -> M B) (l : list A) : M (list B) :=
  match l with
  | [] => ret []
  | a :: l' => b <- f a ;; bs <- mapM f l' ;; ret (b :: bs)
  end.

(* ================================================================= *)
(** ** The pandas operations the parser uses *)

Module Pd.

(** [Series.unique()]: the distinct values, in order of appearance. *)
Fixpoint unique {A} (eqb : A -> A -> bool) (l : list A) : list A :=
  match l with
  | [] => []
  | v :: l' => v :: filter (fun w => negb (eqb w v)) (unique eqb l')
  end.

Definition count (v : Q) (l : list Q) : nat :=
  List.length (filter (fun w => Qeq_bool w v) l).

(** Insertion of a count into a series of counts that decreases. *)
Fixpoint insert_desc (e : Q * nat) (s : list (Q * nat)) : list (Q * nat) :=
  match s with
  | [] => [e]
  | e' :: s' =>
      if (snd e <? snd e')%nat then e' :: insert_desc e s' else e :: s
  end.

(** [Series.value_counts()]: each distinct value with the number of its
    occurrences, the most frequent first. The library leaves the order
    of equally frequent values open; here it is their order of
    appearance, and no statement below depends on it. *)
Definition value_counts (l : list Q) : list (Q * nat) :=
  fold_right insert_desc [] (map (fun v => (v, count v l)) (unique Qeq_bool l)).

(** The first entry of the largest count, and the series without it. *)
Fixpoint pop_largest (s : list (Q * nat)) : option ((Q * nat) * list (Q * nat)) :=
  match s with
  | [] => None
  | e :: s' =>
      match pop_largest s' with
      | None => Some (e, [])
      | Some (m, rest) =>
          if (snd e <? snd m)%nat then Some (m, e :: rest) else Some (e, s')
      end
  end.

(** [Series.nlargest(n)] with the default [keep='first']. *)
Fixpoint nlargest (n : nat) (s : list (Q * nat)) : list (Q * nat) :=
  match n with
  | O => []
  | S n' =>
      match pop_largest s with
      | None => []
      | Some (m, rest) => m :: nlargest n' rest
      end
  end.

(** [Series.index] *)
Definition index (s : list (Q * nat)) : list Q := map fst s.

(** [Series.cumsum()] *)
Fixpoint cumsum_from (acc : Q) (l : list Q) : list Q :=
  match l with
  | [] => []
  | a :: l' => (acc + a) :: cumsum_from (acc + a) l'
  end.

Definition cumsum (l : list Q) : list Q :=
  match l with
  | [] => []
  | a :: l' => a :: cumsum_from a l'
  end.

End Pd.

(** The builtins [max] and [min] on a sequence; [None] is the
    [ValueError] of an empty one. *)
Definition py_max (l : list Q) : option Q :=
  match l with
  | [] => None
  | v :: l' => Some (fold_left (fun m w => if Qltb m w then w else m) l' v)
  end.

Definition py_min (l : list Q) : option Q :=
  match l with
  | [] => None
  | v :: l' => Some (fold_left (fun m w => if Qltb w m then w else m) l' v)
  end.

(* ================================================================= *)
(** ** The sort behind [sort_values]

    [DataFrame.sort_values] with the default [kind='quicksort'] sorts
    by the permutation [argsort] returns for the key column; for a
    column of dates that is numpy's [aquicksort] on 64-bit integers, in
    its generic form: an introsort, which partitions ranges of more
    than 17 places around the median of three, sorts the others by
    insertion, and falls back on [aheapsort] when it has partitioned
    too often. *)

Module Np.

Local Open Scope nat_scope.

(** The array [tosort] of indices, read and written by position. *)
Definition get (a : list nat) (i : nat) : nat := nth i a 0%nat.

Fixpoint set (a : list nat) (i x : nat) : list nat :=
  match a, i with
  | [], _ => []
  | _ :: a', O => x :: a'
  | y :: a', S i' => y :: set a' i' x
  end.

Definition swap (a : list nat) (i j : nat) : list nat :=
  set (set a i (get a j)) j (get a i).

Section Argsort.

(** The keys [v], compared by [<]. *)
Variable v : list Z.

Definition key (a : list nat) (i : nat) : Z := nth (get a i) v 0%Z.
Definition less (x y : Z) : bool := Z.ltb x y.

(** [do { ++pi; } while (less(v[*pi], vp));] *)
Fixpoint scan_up (fuel : nat) (a : list nat) (vp : Z) (pi : nat) : nat :=
  let pi := S pi in
  match fuel with
  | O => pi
  | S fuel' => if less (key a pi) vp then scan_up fuel' a vp pi else pi
  end.

(** [do { --pj; } while (less(vp, v[*pj]));] *)
Fixpoint scan_down (fuel : nat) (a : list nat) (vp : Z) (pj : nat) : nat :=
  let pj := Nat.pred pj in
  match fuel with
  | O => pj
  | S fuel' => if less vp (key a pj) then scan_down fuel' a vp pj else pj
  end.

(** The loop [for (;;)] of the partition. *)
Fixpoint partition_loop (fuel : nat) (a : list nat) (vp : Z) (pi pj : nat)
  : list nat * nat :=
  let pi := scan_up (List.length a) a vp pi in
  let pj := scan_down (List.length a) a vp pj in
  if pj <=? pi then (a, pi)
  else
    match fuel with
    | O => (a, pi)
    | S fuel' => partition_loop fuel' (swap a pi pj) vp pi pj
    end.

(** One partition of [pl .. pr]: the array after it and the place of
    the pivot. *)
Definition partition (a : list nat) (pl pr : nat) : list nat * nat :=
  let pm := pl + Nat.div2 (pr - pl) in
  let a := if less (key a pm) (key a pl) then swap a pm pl else a in
  let a := if less (key a pr) (key a pm) then swap a pr pm else a in
  let a := if less (key a pm) (key a pl) then swap a pm pl else a in
  let vp := key a pm in
  let pj := pr - 1 in
  let a := swap a pm pj in
  let '(a, pi) := partition_loop (List.length a) a vp pl pj in
  let pk := pr - 1 in
  (swap a pi pk, pi).

(** The inner loop of the insertion sort: the place of [vi]. *)
Fixpoint shift_down (fuel : nat) (a : list nat) (pl : nat) (vp : Z) (pj : nat)
  : list nat * nat :=
  match fuel with
  | O => (a, pj)
  | S fuel' =>
      if (pl <? pj) && less vp (key a (pj - 1))
      then shift_down fuel' (set a pj (get a (pj - 1))) pl vp (pj - 1)
      else (a, pj)
  end.

Fixpoint insertion_from (count : nat) (a : list nat) (pl pi : nat) : list nat :=
  match count with
  | O => a
  | S count' =>
      let vi := get a pi in
      let vp := nth vi v 0%Z in
      let '(a, pj) := shift_down (List.length a) a pl vp pi in
      insertion_from count' (set a pj vi) pl (S pi)
  end.

(** [for (pi = pl + 1; pi <= pr; ++pi)] *)
Definition insertion_sort (a : list nat) (pl pr : nat) : list nat :=
  insertion_from (pr - pl) a pl (S pl).

(** [aheapsort] on the [n] places from [pl] on, which it counts from 1. *)
Definition hget (a : list nat) (pl k : nat) : nat := get a (pl + k - 1).
Definition hset (a : list nat) (pl k x : nat) : list nat := set a (pl + k - 1) x.

Fixpoint sift (fuel : nat) (a : list nat) (pl n tmp i j : nat) : list nat * nat :=
  match fuel with
  | O => (a, i)
  | S fuel' =>
      if j <=? n then
        let j := if (j <? n) && less (nth (hget a pl j) v 0%Z) (nth (hget a pl (j + 1)) v 0%Z)
                 then j + 1 else j in
        if less (nth tmp v 0%Z) (nth (hget a pl j) v 0%Z)
        then sift fuel' (hset a pl i (hget a pl j)) pl n tmp j (j + j)
        else (a, i)
      else (a, i)
  end.

Fixpoint heapify (l : nat) (a : list nat) (pl n : nat) : list nat :=
  match l with
  | O => a
  | S l' =>
      let tmp := hget a pl l in
      let '(a, i) := sift n a pl n tmp l (l + l) in
      heapify l' (hset a pl i tmp) pl n
  end.

Fixpoint sort_down (n : nat) (a : list nat) (pl : nat) : list nat :=
  match n with
  | O => a
  | S O => a
  | S n' =>
      let tmp := hget a pl n in
      let a := hset a pl n (hget a pl 1) in
      let '(a, i) := sift n a pl n' tmp 1 2 in
      sort_down n' (hset a pl i tmp) pl
  end.

Definition heapsort (a : list nat) (pl n : nat) : list nat :=
  sort_down n (heapify (Nat.div2 n) a pl n) pl.

Definition SMALL_QUICKSORT : nat := 16.

(** The loop [while (1)] of [aquicksort] with its stack of pending
    ranges; [partitioning] is true inside the loop that partitions,
    which does not look at the depth again. *)
Fixpoint quicksort_loop (fuel : nat) (a : list nat) (pl pr : nat) (cdepth : Z)
    (stack : list (nat * nat * Z)) (partitioning : bool) : list nat :=
  match fuel with
  | O => a
  | S fuel' =>
      let pop a :=
        match stack with
        | [] => a
        | (pl', pr', cdepth') :: stack' =>
            quicksort_loop fuel' a pl' pr' cdepth' stack' false
        end in
      if negb partitioning && (cdepth <? 0)%Z then pop (heapsort a pl (pr - pl + 1))
      else if SMALL_QUICKSORT <? pr - pl then
        let '(a, pi) := partition a pl pr in
        let cdepth := (cdepth - 1)%Z in
        if pi - pl <? pr - pi
        then quicksort_loop fuel' a pl (pi - 1) cdepth ((pi + 1, pr, cdepth) :: stack) true
        else quicksort_loop fuel' a (pi + 1) pr cdepth ((pl, pi - 1, cdepth) :: stack) true
      else pop (insertion_sort a pl pr)
  end.

(** [npy_get_msb] *)
Definition get_msb (n : nat) : Z := Z.log2 (Z.of_nat n).

(** [v.argsort(kind='quicksort')] *)
Definition argsort : list nat :=
  let num := List.length v in
  match num with
  | O => []
  | _ => quicksort_loop (2 * num + 2) (seq 0 num) 0 (num - 1) (get_msb num * 2) [] false
  end.

End Argsort.
End Np.

(** A date as the key of the sort: the order of the keys is the order
    of the days. *)
Definition date_key (d : Date) : Z :=
  (d_year d * 10000 + d_month d * 100 + d_day d)%Z.

(** [df_transactions.sort_values('date')] with numpy's quicksort: the
    rows taken in the order of [argsort]. *)
Definition sort_values_quicksort (l : list Dated) : list Dated :=
  match l with
  | [] => []
  | d0 :: _ =>
      map (fun i => nth i l d0) (Np.argsort (map (fun t => date_key (dt_date t)) l))
  end.

(* ================================================================= *)
(** ** Lower case

    [str.lower()] follows the tables of Unicode. The parser and [main]
    are modelled over any function in its place, and what is proved of
    them holds for each. *)

Class Lower : Type := str_lower : string -> string.

(** On ASCII text [str.lower()] is [Str.lower]. The examples, all of
    whose texts are ASCII, are evaluated with it. *)
#[global] Instance ascii_lower : Lower := Str.lower.

(* ================================================================= *)
(** ** [NorisbankPDFParser] *)

Definition BALANCE_TOLERANCE : Q := 5.
Definition Y_COORDINATE_TOLERANCE : Q := 20.
Definition X_COORDINATE_TOLERANCE : Q := 10.

(** [categorize_transaction] *)
Definition matches_category (text_lower : string) (category : Category) : bool :=
  existsb (fun keyword => Str.contains keyword text_lower) (keywords category).

Definition categorize_transaction {lowercase : Lower} (categories : Categories) (text : string) : string :=
  let text_lower := str_lower text in
  match find (matches_category text_lower) (map snd categories) with
  | Some category => name category
  | None => "Personal"
  end.

(** [amount.replace('.', '').replace(',', '.')] *)
Definition point_decimal (amount : string) : string :=
  Str.replace_char "," "." (Str.remove_char "." amount).

(** ['^EUR$'] *)
Definition is_eur (s : string) : bool :=
  match re_match (Cat (Lit "EUR") Eol) s with Some _ => true | None => false end.

Definition nearby (eur_row f : Fragment) : bool :=
  Qle_bool (y0 eur_row - Y_COORDINATE_TOLERANCE) (y0 f)
  && Qle_bool (y0 f) (y0 eur_row + Y_COORDINATE_TOLERANCE).

Definition mentions (phrase : string) (df : list Fragment) : bool :=
  existsb (fun f => str_contains (LitI phrase) (text f)) df.

Definition aligned_amount (eur_row f : Fragment) : bool :=
  Qeq_bool (y0 f) (y0 eur_row) && Qeq_bool (y1 f) (y1 eur_row)
  && str_contains AMOUNT_PATTERN (text f).

(** The body of the loop of [extract_balance] over the [EUR] rows. *)
Fixpoint balance_loop (df eur_rows : list Fragment)
    (start_balance end_balance : option Q) : M (option Q * option Q) :=
  match eur_rows with
  | [] => ret (start_balance, end_balance)
  | eur_row :: eur_rows' =>
      let nearby_texts := filter (nearby eur_row) df in
      let is_start := mentions "Alter Saldo" nearby_texts in
      let is_end := mentions "Neuer Saldo" nearby_texts in
      let potential_amounts := filter (aligned_amount eur_row) df in
      match potential_amounts with
      | [] => balance_loop df eur_rows' start_balance end_balance
      | first :: _ =>
          match search AMOUNT_PATTERN (text first) with
          | None => balance_loop df eur_rows' start_balance end_balance
          | Some m =>
              let sign := group 1 m in
              let amount := group 2 m in
              balance <- lift (ValueError "float") (float_of_string (point_decimal amount)) ;;
              let balance := if String.eqb sign "-" then - balance else balance in
              if is_start then balance_loop df eur_rows' (Some balance) end_balance
              else if is_end then balance_loop df eur_rows' start_balance (Some balance)
              else balance_loop df eur_rows' start_balance end_balance
          end
      end
  end.

(** [extract_balance]. A frame built from no text box has no column:
    selecting [df['text']] raises. *)
Definition extract_balance (df : list Fragment) : M (option Q * option Q) :=
  match df with
  | [] => raise (KeyError "text")
  | _ => balance_loop df (filter (fun f => is_eur (text f)) df) None None
  end.

(** [s.value_counts().nlargest(2).index] *)
Definition two_most_frequent (s : list Q) : list Q :=
  Pd.index (Pd.nlargest 2 (Pd.value_counts s)).

Definition is_date (f : Fragment) : bool := str_contains DATE_PATTERN (text f).

(** The column coordinates [extract_data] derives from the whole frame. *)
Record Layout : Type := mkLayout {
  amount_x1_credit : Q;
  amount_x1_debit : Q;
  booking_x0 : Q;
  valuta_x0 : Q
}.

Definition empty_sequence : Exn := ValueError "arg is an empty sequence".

Definition date_entries (df : list Fragment) : list Fragment := filter is_date df.
Definition amount_entries_credit (df : list Fragment) : list Fragment :=
  filter (fun f => str_contains AMOUNT_PATTERN_CREDIT (text f)) df.
Definition amount_entries_debit (df : list Fragment) : list Fragment :=
  filter (fun f => str_contains AMOUNT_PATTERN_DEBIT (text f)) df.

(** The four coordinates, in the order in which [extract_data] computes
    them. *)
Definition locate_columns (df : list Fragment) : M Layout :=
  c <- lift empty_sequence (py_max (two_most_frequent (map x1 (amount_entries_credit df)))) ;;
  d <- lift empty_sequence (py_max (two_most_frequent (map x1 (amount_entries_debit df)))) ;;
  b <- lift empty_sequence (py_min (two_most_frequent (map x0 (date_entries df)))) ;;
  v <- lift empty_sequence (py_max (two_most_frequent (map x0 (date_entries df)))) ;;
  ret (mkLayout (round2 c) (round2 d) b v).

Definition set_credit (t : Row) (v : string) : Row :=
  mkRow (booking_date t) (purpose t) (debit t) (Some v) (currency t).
Definition set_debit (t : Row) (v : string) : Row :=
  mkRow (booking_date t) (purpose t) (Some v) (credit t) (currency t).
Definition set_purpose (t : Row) (v : string) : Row :=
  mkRow (booking_date t) (Some v) (debit t) (credit t) (currency t).

(** The test of the [elif] on an entry's right edge. *)
Definition in_amount_column (lay : Layout) (entry : Fragment) : bool :=
  let x_tolerance : Q := 10 in
  Qltb (x1 entry - amount_x1_credit lay) x_tolerance
  || Qltb (x1 entry - amount_x1_debit lay) x_tolerance.

(** The body of the loop over [same_y1_entries]: the value-date column
    is skipped; an entry that reads as an amount and passes the column
    test sets the credit or the debit; every other entry sets the
    purpose. *)
Definition assign_entry {lowercase : Lower} (categories : Categories) (lay : Layout)
    (transaction : Row) (entry : Fragment) : Row :=
  let amount_match := search AMOUNT_PATTERN (text entry) in
  if Qeq_bool (x0 entry) (valuta_x0 lay) then transaction
  else
    match amount_match with
    | Some m =>
        if in_amount_column lay entry then
          let sign := group 1 m in
          let amount := group 2 m in
          if String.eqb sign "+" then set_credit transaction (point_decimal amount)
          else if String.eqb sign "-" then
            set_debit transaction (sign ++ point_decimal amount)
          else transaction
        else
          set_purpose transaction (categorize_transaction categories (text entry))
    | None =>
        set_purpose transaction (categorize_transaction categories (text entry))
    end.

(** [date_row['text'].replace('\n', '').strip()] *)
Definition clean_date (date_row : Fragment) : string :=
  Str.strip (Str.remove_char "010" (text date_row)).

Definition new_transaction (date_row : Fragment) : Row :=
  mkRow (clean_date date_row) None None None "EUR".

Definition same_y1_entries (page_df : list Fragment) (date_row : Fragment)
  : list Fragment :=
  filter (fun f => Qeq_bool (y1 f) (y1 date_row)) page_df.

(** The transaction of one booking date. *)
Definition build_transaction {lowercase : Lower} (categories : Categories) (lay : Layout)
    (page_df : list Fragment) (date_row : Fragment) : Row :=
  fold_left (assign_entry categories lay) (same_y1_entries page_df date_row)
            (new_transaction date_row).

Definition booking_dates (lay : Layout) (page_df : list Fragment) : list Fragment :=
  filter (fun f => Qeq_bool (x0 f) (booking_x0 lay) && is_date f) page_df.

Definition page_frame (df : list Fragment) (p : Z) : list Fragment :=
  filter (fun f => Z.eqb (page f) p) df.

Definition pages (df : list Fragment) : list Z := Pd.unique Z.eqb (map page df).

(** The loop over the pages: the list [transactions]. *)
Definition extract_transactions {lowercase : Lower} (categories : Categories) (lay : Layout)
    (df : list Fragment) : list Row :=
  flat_map
    (fun p =>
       let page_df := page_frame df p in
       map (build_transaction categories lay page_df) (booking_dates lay page_df))
    (pages df).

(** [pd.to_numeric(column.fillna('0'))] on one cell *)
Definition cell_value (cell : option string) : option Q :=
  float_of_string (match cell with Some s => s | None => "0" end).

Definition numeric_cell (cell : option string) : M Q :=
  lift (ValueError "to_numeric") (cell_value cell).

Definition quarter (month : Z) : Z := ((month - 1) / 3 + 1)%Z.

Definition add_date (r : Row) : M (Row * Date) :=
  d <- lift (ValueError "to_datetime") (to_datetime (booking_date r)) ;;
  ret (r, d).

Definition add_amount (rd : Row * Date) : M Dated :=
  c <- numeric_cell (credit (fst rd)) ;;
  d <- numeric_cell (debit (fst rd)) ;;
  ret (mkDated (fst rd) (snd rd) (round2 (c + d))).

Definition with_balance (start_balance : Q) (t : Dated) (running : Q) : Transaction :=
  let r := dt_row t in
  mkTransaction (purpose r) (debit r) (credit r) (currency r)
    (dt_date t) (d_year (dt_date t)) (d_month (dt_date t))
    (quarter (d_month (dt_date t))) (dt_amount t) (round2 (start_balance + running)).

(** The [balance] column over the sorted frame. *)
Definition add_balance (start_balance : Q) (sorted : list Dated) : list Transaction :=
  map (fun tc => with_balance start_balance (fst tc) (snd tc))
      (combine sorted (Pd.cumsum (map dt_amount sorted))).

(** The binary64 number nearest to a rational, ties to even: the
    quotient, rounded once, of numerator and denominator, which are
    binary64 numbers themselves below 2^53. It is what [float] makes of
    a decimal numeral and what [round(x, 2)] makes of a number of
    hundredths (the integer divided by [100.0]). *)
Definition float64_of_Z (z : Z) : spec_float := binary_normalize 53 1024 z 0 false.

Definition float64 (q : Q) : spec_float :=
  SFdiv 53 1024 (float64_of_Z (Qnum q)) (float64_of_Z (Zpos (Qden q))).

(** [abs(calculated_end - end_balance) > self.BALANCE_TOLERANCE], on
    the binary64 numbers the three stand for: the difference is rounded
    before it is compared. *)
Definition exceeds_tolerance (calculated_end end_balance : Q) : bool :=
  SFltb (float64 BALANCE_TOLERANCE)
        (SFabs (SFsub 53 1024 (float64 calculated_end) (float64 end_balance))).

(** The validation of the end balance. *)
Definition validate_end (end_balance : option Q) (txs : list Transaction) : M unit :=
  match end_balance with
  | None => ret tt
  | Some e =>
      match rev txs with
      | [] => raise IndexError
      | last :: _ =>
          let calculated_end := t_balance last in
          if exceeds_tolerance calculated_end e
          then print (BalanceMismatch calculated_end e)
          else ret tt
      end
  end.

Section Extract.

Context {lowercase : Lower}.

(** [DataFrame.sort_values('date')] *)
Variable sort_values : list Dated -> list Dated.

Variable categories : Categories.

(** From the list [transactions] to the returned frame. *)
Definition reconcile (start_balance : Q) (end_balance : option Q)
    (transactions : list Row) : M (list Transaction) :=
  match transactions with
  | [] => raise (KeyError "booking_date")
  | _ =>
      dated <- mapM add_date transactions ;;
      df_transactions <- mapM add_amount dated ;;
      let df_transactions := sort_values df_transactions in
      let df_transactions := add_balance start_balance df_transactions in
      validate_end end_balance df_transactions ;;;
      ret df_transactions
  end.

(** [extract_data], from the frame [df] of the text boxes on. *)
Definition extract_data (df : list Fragment) : M (list Transaction) :=
  balances <- extract_balance df ;;
  let end_balance := snd balances in
  start_balance <-
    match fst balances with
    | None => print NoStartBalance ;;; ret 0
    | Some b => ret b
    end ;;
  lay <- locate_columns df ;;
  let transactions := extract_transactions categories lay df in
  reconcile start_balance end_balance transactions.

End Extract.

(** ** [FileHandler] *)

(** The attributes of a [FileHandler]; the frame [all_transactions] is
    the list of its rows. *)
Record FileHandler : Type := mkFileHandler {
  all_transactions : list Transaction;
  filepaths : list string;
  output_paths : list string
}.

(** [FileHandler(filepaths)]: [filepaths if filepaths else []]. *)
Definition new_FileHandler (paths : option (list string)) : FileHandler :=
  mkFileHandler []
    (match paths with
     | Some (p :: l) => p :: l
     | _ => []
     end) [].

(** [filepath in self.filepaths] *)
Definition path_in (filepath : string) (l : list string) : bool :=
  existsb (String.eqb filepath) l.

(** The loop of [check_filepaths], on the two lists it appends to. *)
Fixpoint check_loop (paths stored output : list string)
  : list string * list string :=
  match paths with
  | [] => (stored, output)
  | filepath :: paths' =>
      if path_in filepath stored then check_loop paths' stored output
      else check_loop paths' (stored ++ [filepath]) (output ++ [filepath])
  end.

(** [check_filepaths]: the handler after the call, and the list
    returned. *)
Definition check_filepaths (h : FileHandler) (paths : list string)
  : FileHandler * list string :=
  let '(stored, output) := check_loop paths (filepaths h) [] in
  (mkFileHandler (all_transactions h) stored output, output).

(** [get_all_filepaths] *)
Definition get_all_filepaths (h : FileHandler) : list string := filepaths h.

(** [DataFrame.empty] *)
Definition frame_empty {A} (frame : list A) : bool :=
  match frame with [] => true | _ => false end.

(** [concatenate_transactions]; [pd.concat(..., ignore_index=True)]
    puts the rows of the second frame behind those of the first. *)
Definition concatenate_transactions (h : FileHandler)
    (new_transactions : list Transaction) : FileHandler :=
  if frame_empty (all_transactions h)
  then mkFileHandler new_transactions (filepaths h) (output_paths h)
  else mkFileHandler (all_transactions h ++ new_transactions)
                     (filepaths h) (output_paths h).

(** ** The text boxes of a document *)

(** An element of a page of [extract_pages]: a text box with its box
    and [get_text()], or anything else. *)
Inductive Element : Type :=
| LTTextBox (x0 y0 x1 y1 : Q) (get_text : string) : Element
| LTOther : Element.

Definition page_boxes (current_page : Z) (page : list Element) : list Fragment :=
  flat_map
    (fun element =>
       match element with
       | LTTextBox a b c d t => [mkFragment current_page a b c d (Str.strip t)]
       | LTOther => []
       end) page.

(** The loop over the pages that fills [text_boxes]. *)
Fixpoint text_boxes_from (current_page : Z) (pages : list (list Element))
  : list Fragment :=
  match pages with
  | [] => []
  | page :: pages' =>
      page_boxes current_page page ++ text_boxes_from (current_page + 1)%Z pages'
  end.

Definition text_boxes (pages : list (list Element)) : list Fragment :=
  text_boxes_from 1 pages.

(** [extract_data] of a document, from the pages [extract_pages] yields. *)
Definition extract_document {lowercase : Lower} (sort_values : list Dated -> list Dated)
    (categories : Categories) (pages : list (list Element))
  : M (list Transaction) :=
  extract_data sort_values categories (text_boxes pages).

(** ** [main] *)

(** What [main] finds at a path: nothing, or a document. *)
Inductive FileContent : Type :=
| Missing : FileContent
| Document (pages : list (list Element)) : FileContent.

(** The exceptions of the loop of [main]. *)
Inductive PyExn : Type :=
| FileNotFoundError : PyExn
| AttributeError : PyExn
| Raised (e : Exn) : PyExn.

(** The lines [main] and the parser print. *)
Inductive Output : Type :=
| Warning (m : Message) : Output
| UnsupportedFileType (filetype : string) : Output
| FileNotFoundSkipping (file_path : string) : Output
| InvalidFileSkipping (file_path : string) : Output
| ErrorProcessingSkipping (file_path : string) : Output
| ErrorDetails (e : PyExn) : Output
| NoTransactionsFound : Output
| AllSaved (output_path : string) : Output.

(** [parser.extract_data()] followed by the test of [transactions.empty]
    for one file: what is printed, and the exception or the frame to
    concatenate ([None]: an empty frame, nothing to do). The constructor
    of both parsers raises on a missing file; [CSVParser.extract_data]
    returns [None], whose attribute [empty] does not exist. *)
Definition process_pdf {lowercase : Lower} (sort_values : list Dated -> list Dated)
    (categories : Categories) (content : FileContent)
  : list Output * (PyExn + option (list Transaction)) :=
  match content with
  | Missing => ([], inl FileNotFoundError)
  | Document pages =>
      match extract_document sort_values categories pages with
      | (out, inl e) => (map Warning out, inl (Raised e))
      | (out, inr transactions) =>
          (map Warning out,
           inr (if frame_empty transactions then None else Some transactions))
      end
  end.

Definition process_csv (content : FileContent)
  : list Output * (PyExn + option (list Transaction)) :=
  match content with
  | Missing => ([], inl FileNotFoundError)
  | Document _ => ([], inl AttributeError)
  end.

(** The [except] clauses of the loop. *)
Definition handler (file_path : string) (e : PyExn) : list Output :=
  match e with
  | FileNotFoundError => [FileNotFoundSkipping file_path]
  | Raised (ValueError _) => [InvalidFileSkipping file_path]
  | _ => [ErrorProcessingSkipping file_path; ErrorDetails e]
  end.

(** The loop of [main] over [input_files]. *)
Fixpoint process_files {lowercase : Lower} (filetype : string)
    (sort_values : list Dated -> list Dated) (categories : Categories)
    (input_files : list (string * FileContent)) (file_handler : FileHandler)
  : list Output * FileHandler :=
  match input_files with
  | [] => ([], file_handler)
  | (file_path, content) :: input_files' =>
      let '(out, file_handler') :=
        if String.eqb filetype "pdf" then
          match process_pdf sort_values categories content with
          | (out, inr (Some transactions)) =>
              (out, concatenate_transactions file_handler transactions)
          | (out, inr None) => (out, file_handler)
          | (out, inl e) => (out ++ handler file_path e, file_handler)
          end
        else if String.eqb filetype "csv" then
          match process_csv content with
          | (out, inr (Some transactions)) =>
              (out, concatenate_transactions file_handler transactions)
          | (out, inr None) => (out, file_handler)
          | (out, inl e) => (out ++ handler file_path e, file_handler)
          end
        else ([UnsupportedFileType filetype], file_handler) in
      let '(out', file_handler'') :=
        process_files filetype sort_values categories input_files' file_handler' in
      (out ++ out', file_handler'')
  end.

(** [main] once the configuration is loaded and the input files are
    listed: what it prints and what [save_transactions] writes, if it is
    called. Writing is taken to succeed. *)
Definition main {lowercase : Lower} (config_filetype output_path : string)
    (sort_values : list Dated -> list Dated) (categories : Categories)
    (input_files : list (string * FileContent))
  : list Output * option (string * list Transaction) :=
  let filetype := str_lower config_filetype in
  let '(out, file_handler) :=
    process_files filetype sort_values categories input_files (new_FileHandler None) in
  if frame_empty (all_transactions file_handler)
  then (out ++ [NoTransactionsFound], None)
  else (out ++ [AllSaved output_path],
        Some (output_path, all_transactions file_handler)).

(* ================================================================= *)
(** ** Vocabulary of the statements *)

Open Scope Q_scope.

Fixpoint all_chars (p : ascii -> bool) (s : string) : bool :=
  match s with
  | EmptyString => true
  | String c s' => p c && all_chars p s'
  end.

(** A word of [DATE_PATTERN]: two digits, a dot, two digits, a dot,
    white space and the year 2024. *)
Definition date_2024 (w : string) : Prop :=
  exists d1 d2 m1 m2 ws,
    w = String d1 (String d2 (String "." (String m1 (String m2 (String "." (ws ++ "2024"))))))
    /\ Str.is_digit d1 = true /\ Str.is_digit d2 = true
    /\ Str.is_digit m1 = true /\ Str.is_digit m2 = true
    /\ all_chars Str.is_space ws = true.

(** A date written [dd.mm.yyyy] of a year other than 2024. *)
Definition other_year_date (s : string) : Prop :=
  exists d1 d2 m1 m2 y,
    s = String d1 (String d2 (String "." (String m1 (String m2 (String "." y)))))
    /\ Str.is_digit d1 = true /\ Str.is_digit d2 = true
    /\ Str.is_digit m1 = true /\ Str.is_digit m2 = true
    /\ String.length y = 4%nat /\ all_chars Str.is_digit y = true /\ y <> "2024".

Definition no_leading_digit (s : string) : Prop :=
  match s with
  | EmptyString => True
  | String c _ => Str.is_digit c = false
  end.

Definition numeric_row (r : Row) : Prop :=
  (exists c, cell_value (credit r) = Some c) /\ (exists d, cell_value (debit r) = Some d).

(** The sum of a sequence of amounts. *)
Definition Qsum (l : list Q) : Q := fold_right Qplus 0 l.

(** A dated row: a row of [transactions] with its parsed date and its
    amount. *)
Definition dated_from (r : Row) (t : Dated) : Prop :=
  exists dt c d,
    to_datetime (booking_date r) = Some dt
    /\ cell_value (credit r) = Some c /\ cell_value (debit r) = Some d
    /\ t = mkDated r dt (round2 (c + d)).

(** [a] and [b] are two most frequent values of [l]: no value occurs
    more often than [a], and none but [a] more often than [b]. *)
Definition top_two (l : list Q) (a b : Q) : Prop :=
  In a l /\ In b l /\ ~ a == b
  /\ (forall v, In v l -> (Pd.count v l <= Pd.count a l)%nat)
  /\ (forall v, In v l -> ~ v == a -> (Pd.count v l <= Pd.count b l)%nat).

Definition two_distinct (l : list Q) : Prop :=
  exists a b, In a l /\ In b l /\ ~ a == b.

Inductive distinct_keys : list (Q * nat) -> Prop :=
| dk_nil : distinct_keys []
| dk_cons e s :
    (forall e', In e' s -> ~ fst e' == fst e) ->
    distinct_keys s -> distinct_keys (e :: s).

Definition date_le (a b : Date) : Prop := date_leb a b = true.

(** What pandas promises of [sort_values('date')]: the rows of the
    frame, by ascending date. *)
Record sort_contract (sort : list Dated -> list Dated) : Prop := {
  sort_perm : forall l, Permutation (sort l) l;
  sort_sorted : forall l, Sorted date_le (map dt_date (sort l))
}.

(** A row with the old-balance label near it and an amount on its
    line; on an [EUR] cell, the anchor of the start balance. *)
Definition old_balance_row (df : list Fragment) (e : Fragment) : bool :=
  mentions "Alter Saldo" (filter (nearby e) df) && existsb (aligned_amount e) df.

Definition start_anchor (df : list Fragment) (e : Fragment) : bool :=
  is_eur (text e) && old_balance_row df e.

Definition no_start_anchor (df : list Fragment) : Prop :=
  forall e, In e df -> start_anchor df e = false.

Definition start_or_zero (sb : option Q) : Q :=
  match sb with Some b => b | None => 0 end.

Definition start_warning (sb : option Q) : list Message :=
  match sb with Some _ => [] | None => [NoStartBalance] end.

(** The amount of a transaction: its credit plus its debit, an empty
    cell counting for zero, rounded to two places. *)
Definition amount_rule (t : Transaction) : Prop :=
  exists c d,
    cell_value (t_credit t) = Some c /\ cell_value (t_debit t) = Some d
    /\ t_amount t = round2 (c + d).

(** A stable sort by date, and one that reverses the rows of a date. *)
Fixpoint insert_date (t : Dated) (l : list Dated) : list Dated :=
  match l with
  | [] => [t]
  | u :: l' =>
      if date_leb (dt_date t) (dt_date u) then t :: l else u :: insert_date t l'
  end.

Definition stable_sort (l : list Dated) : list Dated := fold_right insert_date [] l.

Definition is_mismatch (m : Message) : Prop :=
  match m with BalanceMismatch _ _ => True | NoStartBalance => False end.

(** What a transaction holds besides its balance. *)
Definition content (t : Transaction) :=
  (t_purpose t, t_debit t, t_credit t, t_currency t, t_date t, t_amount t).

Definition dated_content (t : Dated) :=
  (purpose (dt_row t), debit (dt_row t), credit (dt_row t), currency (dt_row t),
   dt_date t, dt_amount t).

Definition shopping : Categories := [("shopping", mkCategory "Shopping" ["amazon"])].

(** A statement of two bookings between its old balance and the new
    balance it declares. *)
Definition statement_ending (new_balance : string) : list Fragment :=
  [ mkFragment 1 50 750 120 760 "Alter Saldo";
    mkFragment 1 520 750 540 760 "EUR";
    mkFragment 1 450 750 500 760 "+ 1.000,00";
    mkFragment 1 50 700 95 710 "01.01.2024";
    mkFragment 1 100 700 145 710 "01.01.2024";
    mkFragment 1 150 700 300 710 "Amazon Marketplace";
    mkFragment 1 350 700 400 710 "- 123,45";
    mkFragment 1 50 680 95 690 "02.01.2024";
    mkFragment 1 100 680 145 690 "02.01.2024";
    mkFragment 1 150 680 300 690 "Gehalt";
    mkFragment 1 450 680 500 690 "+ 2.000,00";
    mkFragment 1 50 600 120 610 "Neuer Saldo";
    mkFragment 1 520 600 540 610 "EUR";
    mkFragment 1 450 600 500 610 new_balance ].

Definition statement : list Fragment := statement_ending "+ 2.876,55".

(** A statement whose new balance is 5.00 below the one its bookings
    add up to. *)
Definition boundary_statement : list Fragment :=
  [ mkFragment 1 50 750 120 760 "Alter Saldo";
    mkFragment 1 520 750 540 760 "EUR";
    mkFragment 1 450 750 500 760 "+ 8,00";
    mkFragment 1 50 700 95 710 "01.01.2024";
    mkFragment 1 100 700 145 710 "01.01.2024";
    mkFragment 1 150 700 300 710 "Zinsen";
    mkFragment 1 450 700 500 710 "+ 0,10";
    mkFragment 1 50 680 95 690 "02.01.2024";
    mkFragment 1 100 680 145 690 "02.01.2024";
    mkFragment 1 150 680 300 690 "Porto";
    mkFragment 1 350 680 400 690 "- 0,05";
    mkFragment 1 50 600 120 610 "Neuer Saldo";
    mkFragment 1 520 600 540 610 "EUR";
    mkFragment 1 450 600 500 610 "+ 3,05" ].

(** The same bookings on a page that states no balance. *)
Definition no_balances : list Fragment :=
  [ mkFragment 1 50 700 95 710 "01.01.2024";
    mkFragment 1 100 700 145 710 "01.01.2024";
    mkFragment 1 150 700 300 710 "Amazon Marketplace";
    mkFragment 1 350 700 400 710 "- 123,45";
    mkFragment 1 50 680 95 690 "02.01.2024";
    mkFragment 1 100 680 145 690 "02.01.2024";
    mkFragment 1 150 680 300 690 "Gehalt";
    mkFragment 1 450 680 500 690 "+ 2.000,00" ].

(** A purpose box that quotes an amount, far left of both amount columns. *)
Definition quoted_amount : list Fragment :=
  [ mkFragment 1 50 700 95 710 "01.01.2024";
    mkFragment 1 100 700 145 710 "01.01.2024";
    mkFragment 1 350 700 400 710 "- 123,45";
    mkFragment 1 150 700 250 710 "Rabatt";
    mkFragment 1 260 700 300 710 "- 5,00";
    mkFragment 1 50 680 95 690 "02.01.2024";
    mkFragment 1 100 680 145 690 "02.01.2024";
    mkFragment 1 150 680 300 690 "Gehalt";
    mkFragment 1 450 680 500 690 "+ 2.000,00" ].

(** The purpose box of the first booking comes before its date. *)
Definition purpose_first : list Fragment :=
  [ mkFragment 1 150 700 300 710 "Amazon Marketplace";
    mkFragment 1 50 700 95 710 "01.01.2024";
    mkFragment 1 100 700 145 710 "01.01.2024";
    mkFragment 1 350 700 400 710 "- 123,45";
    mkFragment 1 50 680 95 690 "02.01.2024";
    mkFragment 1 100 680 145 690 "02.01.2024";
    mkFragment 1 450 680 500 690 "+ 2.000,00" ].

(** Amounts, but no date. *)
Definition no_dates : list Fragment :=
  [ mkFragment 1 150 700 300 710 "Amazon Marketplace";
    mkFragment 1 350 700 400 710 "- 123,45";
    mkFragment 1 450 680 500 690 "+ 2.000,00" ].

Definition cover_page : list Fragment :=
  [ mkFragment 1 50 700 200 710 "Kontoauszug" ].

(** Two bookings of one day. *)
Definition same_day : list Fragment :=
  [ mkFragment 1 50 700 95 710 "01.01.2024";
    mkFragment 1 100 700 145 710 "01.01.2024";
    mkFragment 1 150 700 300 710 "Amazon Marketplace";
    mkFragment 1 350 700 400 710 "- 123,45";
    mkFragment 1 50 680 95 690 "01.01.2024";
    mkFragment 1 100 680 145 690 "01.01.2024";
    mkFragment 1 150 680 300 690 "Gehalt";
    mkFragment 1 450 680 500 690 "+ 2.000,00" ].

(** The boxes of one booking of the first of January, [i] rows down
    the page. *)
Definition booking_row (i : Z) (amount : string) (amount_x1 : Q) : list Fragment :=
  [ mkFragment 1 50 (inject_Z (780 - 20 * i)) 95 (inject_Z (790 - 20 * i)) "01.01.2024";
    mkFragment 1 100 (inject_Z (780 - 20 * i)) 145 (inject_Z (790 - 20 * i)) "01.01.2024";
    mkFragment 1 (amount_x1 - 50) (inject_Z (780 - 20 * i)) amount_x1
               (inject_Z (790 - 20 * i)) amount ].

(** Eighteen bookings of one day, told apart by their amounts. *)
Definition busy_day : list Fragment :=
  booking_row 0 "+ 1,00" 500 ++ booking_row 1 "+ 2,00" 500
  ++ booking_row 2 "+ 3,00" 500 ++ booking_row 3 "+ 4,00" 500
  ++ booking_row 4 "+ 5,00" 500 ++ booking_row 5 "+ 6,00" 500
  ++ booking_row 6 "+ 7,00" 500 ++ booking_row 7 "+ 8,00" 500
  ++ booking_row 8 "+ 9,00" 500 ++ booking_row 9 "+ 10,00" 500
  ++ booking_row 10 "+ 11,00" 500 ++ booking_row 11 "+ 12,00" 500
  ++ booking_row 12 "+ 13,00" 500 ++ booking_row 13 "+ 14,00" 500
  ++ booking_row 14 "+ 15,00" 500 ++ booking_row 15 "+ 16,00" 500
  ++ booking_row 16 "+ 17,00" 500 ++ booking_row 17 "- 18,00" 400.

(** Right edges with more than two decimal places. *)
Definition fine_edges : list Fragment :=
  [ mkFragment 1 50 700 95 710 "01.01.2024";
    mkFragment 1 100 700 145 710 "01.01.2024";
    mkFragment 1 350 700 (400456 # 1000) 710 "- 123,45";
    mkFragment 1 50 680 95 690 "02.01.2024";
    mkFragment 1 100 680 145 690 "02.01.2024";
    mkFragment 1 450 680 (500123 # 1000) 690 "+ 2.000,00";
    mkFragment 1 50 660 95 670 "03.01.2024";
    mkFragment 1 100 660 145 670 "03.01.2024";
    mkFragment 1 450 660 (500123 # 1000) 670 "+ 10,00";
    mkFragment 1 350 660 (400456 # 1000) 670 "- 1,00";
    mkFragment 1 440 640 490 650 "+ 1,00";
    mkFragment 1 340 640 390 650 "- 2,00" ].

(** A rule has a keyword that occurs in the lower-cased text. *)
Definition keyword_hit (text_lower : string) (rule : Category) : Prop :=
  exists keyword pre post,
    In keyword (keywords rule) /\ text_lower = (pre ++ keyword ++ post)%string.

Definition eur_transaction (p d c : option string) (day : Z) (amount balance : Q)
  : Transaction :=
  mkTransaction p d c "EUR" (mkDate 2024 1 day) 2024 1 1 amount balance.

Definition statement_transactions : list Transaction :=
  [ eur_transaction (Some "Shopping") (Some "-123.45") None 1 (-123.45) 876.55;
    eur_transaction (Some "Personal") None (Some "2000.00") 2 2000.00 2876.55 ].

Definition no_balances_transactions : list Transaction :=
  [ eur_transaction (Some "Shopping") (Some "-123.45") None 1 (-123.45) (-123.45);
    eur_transaction (Some "Personal") None (Some "2000.00") 2 2000.00 1876.55 ].

(** Equal dates come out in the order in which their rows were met. *)
Definition ties_keep_order {lowercase : Lower} (sort : list Dated -> list Dated)
    (cats : Categories) (df : list Fragment) : Prop :=
  forall out txs out0 txs0,
    extract_data sort cats df = (out, inr txs) ->
    extract_data (fun l => l) cats df = (out0, inr txs0) ->
    forall d,
      map content (filter (fun t => date_eqb (t_date t) d) txs)
      = map content (filter (fun t => date_eqb (t_date t) d) txs0).

(** The frame a file contributes to the collection of [main]: the one
    its extraction returns, and nothing when the file is missing or the
    extraction raises. *)
Definition frame_of {lowercase : Lower} (sort : list Dated -> list Dated) (cats : Categories)
    (file : string * FileContent) : list Transaction :=
  match snd file with
  | Missing => []
  | Document pages =>
      match outcome (extract_document sort cats pages) with
      | inr transactions => transactions
      | inl _ => []
      end
  end.

Definition handler_paths : FileHandler :=
  mkFileHandler [] ["a.pdf"; "b.pdf"] [].

(** One page holding the boxes of a frame, texts as they are. *)
Definition page_of (df : list Fragment) : list Element :=
  map (fun f => LTTextBox (x0 f) (y0 f) (x1 f) (y1 f) (text f)) df.

(** [s] without its prefix [p], if it has it. *)
Fixpoint drop_prefix (p s : string) : option string :=
  match p, s with
  | EmptyString, _ => Some s
  | String a p', String b s' => if Ascii.eqb a b then drop_prefix p' s' else None
  | String _ _, EmptyString => None
  end.

(** A keyword with one of the capital letters A to Z. *)
Definition has_upper (keyword : string) : Prop :=
  exists pre c post,
    keyword = (pre ++ String c post)%string /\ Str.is_upper c = true.

(** Lower-casing leaves none of the letters A to Z, as [str.lower()]
    does. *)
Definition lowers_capitals {lowercase : Lower} (lowercase : Lower) : Prop :=
  forall text pre c post,
    str_lower text = (pre ++ String c post)%string -> Str.is_upper c = false.

(** The balance an [EUR] row stands for: the signed value of the first
    amount on its line. *)
Definition anchor_value (df : list Fragment) (eur_row : Fragment) : option Q :=
  match filter (aligned_amount eur_row) df with
  | [] => None
  | first :: _ =>
      match search AMOUNT_PATTERN (text first) with
      | None => None
      | Some m =>
          option_map (fun b => if String.eqb (group 1 m) "-" then - b else b)
                     (float_of_string (point_decimal (group 2 m)))
      end
  end.

(** A row that sets the end balance: an amount on its line, the
    new-balance label near it and the old-balance label not. *)
Definition new_balance_row (df : list Fragment) (e : Fragment) : bool :=
  negb (mentions "Alter Saldo" (filter (nearby e) df))
  && mentions "Neuer Saldo" (filter (nearby e) df)
  && existsb (aligned_amount e) df.

(** The same box on another page. *)
Definition on_page (p : Z) (f : Fragment) : Fragment :=
  mkFragment p (x0 f) (y0 f) (x1 f) (y1 f) (text f).

(** The digits of a text, and the number they write. *)
Fixpoint digits_only (s : string) : string :=
  match s with
  | EmptyString => EmptyString
  | String c s' => if Str.is_digit c then String c (digits_only s') else digits_only s'
  end.

Fixpoint number (acc : Z) (s : string) : Z :=
  match s with
  | EmptyString => acc
  | String c s' => number (10 * acc + digit_val c) s'
  end.

(** An entry of a row that the loop takes for purpose text. *)
Definition purpose_entry (lay : Layout) (entry : Fragment) : bool :=
  negb (Qeq_bool (x0 entry) (valuta_x0 lay))
  && negb (str_contains AMOUNT_PATTERN (text entry) && in_amount_column lay entry).

(** An entry of a row that the loop takes for an amount of the sign. *)
Definition amount_entry (sign : string) (lay : Layout) (entry : Fragment) : bool :=
  negb (Qeq_bool (x0 entry) (valuta_x0 lay))
  && in_amount_column lay entry
  && match search AMOUNT_PATTERN (text entry) with
     | Some m => String.eqb (group 1 m) sign
     | None => false
     end.

(** The number of an amount entry, with a decimal point. *)
Definition amount_cell (entry : Fragment) : string :=
  match search AMOUNT_PATTERN (text entry) with
  | Some m => point_decimal (group 2 m)
  | None => EmptyString
  end.

Definition last_entry (l : list Fragment) : option Fragment := hd_error (rev l).

(** A frame without the boxes of the value-date column. *)
Definition without_value_dates (lay : Layout) (page_df : list Fragment) : list Fragment :=
  filter (fun f => negb (Qeq_bool (x0 f) (valuta_x0 lay))) page_df.

(** Three purpose boxes and two debit boxes on the row of one booking. *)
Definition crowded_row : list Fragment :=
  [ mkFragment 1 50 700 95 710 "01.01.2024";
    mkFragment 1 100 700 145 710 "01.01.2024";
    mkFragment 1 150 700 300 710 "Amazon Marketplace";
    mkFragment 1 150 700 300 710 "Miete";
    mkFragment 1 350 700 400 710 "- 123,45";
    mkFragment 1 350 700 400 710 "- 1,00";
    mkFragment 1 450 680 500 690 "+ 2.000,00" ].

Definition crowded_layout : Layout := mkLayout 500 400 50 100.

(** A box at the booking column that reads as a date. *)
Definition booking_box (lay : Layout) (f : Fragment) : Prop :=
  Qeq_bool (x0 f) (booking_x0 lay) = true /\ is_date f = true.

(** A booking whose date shares its box with the purpose. *)
Definition glued_date : list Fragment :=
  [ mkFragment 1 50 700 95 710 "01.01.2024 Amazon";
    mkFragment 1 100 700 145 710 "01.01.2024";
    mkFragment 1 350 700 400 710 "- 123,45";
    mkFragment 1 50 680 95 690 "02.01.2024";
    mkFragment 1 100 680 145 690 "02.01.2024";
    mkFragment 1 450 680 500 690 "+ 2.000,00" ].

(** A month of debits only. *)
Definition debits_only : list Fragment :=
  [ mkFragment 1 50 700 95 710 "01.01.2024";
    mkFragment 1 100 700 145 710 "01.01.2024";
    mkFragment 1 150 700 300 710 "Amazon Marketplace";
    mkFragment 1 350 700 400 710 "- 123,45" ].

(** The longest word a pattern can consume, when there is one. *)
Fixpoint max_length (r : regex) : option nat :=
  match r with
  | Eps | Eol | Eos => Some 0%nat
  | Chr _ => Some 1%nat
  | Cat r1 r2 =>
      match max_length r1, max_length r2 with
      | Some a, Some b => Some (a + b)%nat
      | _, _ => None
      end
  | Alt r1 r2 =>
      match max_length r1, max_length r2 with
      | Some a, Some b => Some (Nat.max a b)
      | _, _ => None
      end
  | Star _ => None
  | Grp _ r1 => max_length r1
  end.

(** Patterns that end on the end of the string. *)
Fixpoint ends_Eos (r : regex) : bool :=
  match r with
  | Eos => true
  | Cat _ r2 => ends_Eos r2
  | _ => false
  end.

(** The text [dd.mm.2024] of four digits. *)
Definition date_text (d1 d2 m1 m2 : ascii) : string :=
  String d1 (String d2 (String "." (String m1 (String m2 ".2024")))).

(** A day of the year 2024, written by the four digits. *)
Definition day_of_2024 (d1 d2 m1 m2 : ascii) (dt : Date) : bool :=
  ((d_year dt =? 2024) && (d_month dt =? 10 * digit_val m1 + digit_val m2)
   && (d_day dt =? 10 * digit_val d1 + digit_val d2)
   && (1 <=? d_month dt) && (d_month dt <=? 12)
   && (1 <=? d_day dt) && (d_day dt <=? days_in_month 2024 (d_month dt)))%Z.

Definition digit_chars : list ascii :=
  ["0"; "1"; "2"; "3"; "4"; "5"; "6"; "7"; "8"; "9"]%char.

Definition dates_checked : bool :=
  forallb (fun d1 => forallb (fun d2 => forallb (fun m1 => forallb (fun m2 =>
    match to_datetime (date_text d1 d2 m1 m2) with
    | Some dt => day_of_2024 d1 d2 m1 m2 dt
    | None => true
    end) digit_chars) digit_chars) digit_chars) digit_chars.

(** A cell that is empty or holds a number of the given sign. *)
Definition cell_of_sign (nonneg : bool) (cell : option string) : Prop :=
  match cell with
  | None => True
  | Some s =>
      exists q, float_of_string s = Some q /\ if nonneg then 0 <= q else q <= 0
  end.

(** The date of a transaction is a day of 2024, and its year, month
    and quarter are those of the date. *)
Definition dated_2024 (t : Transaction) : Prop :=
  (d_year (t_date t) = 2024 /\ t_year t = 2024
   /\ t_month t = d_month (t_date t) /\ 1 <= t_month t <= 12
   /\ 1 <= d_day (t_date t) <= days_in_month 2024 (t_month t)
   /\ t_quarter t = (t_month t + 2) / 3)%Z.

(** A statement that repeats its old balance further down. *)
Definition two_old_balances : list Fragment :=
  [ mkFragment 1 50 750 120 760 "Alter Saldo";
    mkFragment 1 520 750 540 760 "EUR";
    mkFragment 1 450 750 500 760 "+ 1.000,00";
    mkFragment 1 50 400 120 410 "Alter Saldo";
    mkFragment 1 520 400 540 410 "EUR";
    mkFragment 1 450 400 500 410 "+ 5,00" ].

(** Dates in one column only. *)
Definition one_date_column : list Fragment :=
  [ mkFragment 1 50 700 95 710 "01.01.2024";
    mkFragment 1 150 700 300 710 "Amazon Marketplace";
    mkFragment 1 350 700 400 710 "- 123,45";
    mkFragment 1 50 680 95 690 "02.01.2024";
    mkFragment 1 450 680 500 690 "+ 2.000,00" ].

Ltac two_values :=
  repeat split;
  [ vm_compute; auto 20 | vm_compute; auto 20
  | let E := fresh in intros E; vm_compute in E; discriminate ].

Ltac each_fragment H :=
  repeat (destruct H as [<-|H]; [try reflexivity; try discriminate|]);
  try contradiction.

(* ================================================================= *)
(** ** Patterns and numbers *)

Module ReFacts.

Local Open Scope string_scope.

Lemma append_assoc (a b c : string) : (a ++ b) ++ c = a ++ b ++ c.
Proof. induction a; simpl; congruence. Qed.

Lemma length_append (a b : string) :
  String.length (a ++ b) = (String.length a + String.length b)%nat.
Proof. induction a; simpl; congruence. Qed.

Lemma take_append (w rest : string) :
  Str.take (String.length (w ++ rest) - String.length rest) (w ++ rest) = w.
Proof.
  rewrite length_append.
  replace (String.length w + String.length rest - String.length rest)%nat
    with (String.length w) by lia.
  induction w; simpl.
  - destruct rest; reflexivity.
  - now rewrite IHw.
Qed.

(** Every outcome of a greedy loop is reached by rounds of its step. *)
Lemma star_iter_sound (step : state -> list state) (r : regex) :
  (forall st st', In st' (step st) ->
     exists w, snd st = w ++ snd st' /\ Matches r w) ->
  forall fuel st st', In st' (star_iter step fuel st) ->
     exists w, snd st = w ++ snd st' /\ Matches (Star r) w.
Proof.
  intros Hstep fuel; induction fuel as [|fuel IH]; simpl; intros st st' Hin.
  - destruct Hin as [<-|[]]. exists EmptyString; split; [reflexivity | constructor].
  - apply in_app_or in Hin. destruct Hin as [Hin|[<-|[]]].
    + apply in_flat_map in Hin. destruct Hin as (mid & Hmid & Hin).
      apply filter_In in Hmid. destruct Hmid as [Hmid _].
      apply Hstep in Hmid. destruct Hmid as (w1 & E1 & M1).
      apply IH in Hin. destruct Hin as (w2 & E2 & M2).
      exists (w1 ++ w2). split.
      * now rewrite E1, E2, append_assoc.
      * now constructor.
    + exists EmptyString; split; [reflexivity | constructor].
Qed.

(** Soundness of the matcher: an outcome is the input less a word of
    the pattern. *)
Lemma run_sound (r : regex) :
  forall st st', In st' (run r st) ->
    exists w, snd st = w ++ snd st' /\ Matches r w.
Proof.
  induction r as [|p|r1 IH1 r2 IH2|r1 IH1 r2 IH2|r IH|i r IH| |]; simpl; intros st st' Hin.
  - destruct Hin as [<-|[]]. exists EmptyString; split; [reflexivity | constructor].
  - destruct st as [c s]; simpl in *. destruct s as [|a s]; [contradiction|].
    destruct (p a) eqn:E; [|contradiction].
    destruct Hin as [<-|[]]. exists (String a EmptyString); split; [reflexivity | now constructor].
  - apply in_flat_map in Hin. destruct Hin as (mid & H1 & H2).
    apply IH1 in H1. apply IH2 in H2.
    destruct H1 as (w1 & E1 & M1), H2 as (w2 & E2 & M2).
    exists (w1 ++ w2). split; [now rewrite E1, E2, append_assoc | now constructor].
  - apply in_app_or in Hin. destruct Hin as [H|H].
    + apply IH1 in H. destruct H as (w & E & M). exists w; split; [easy | now apply MAltL].
    + apply IH2 in H. destruct H as (w & E & M). exists w; split; [easy | now apply MAltR].
  - eapply star_iter_sound; eauto.
  - apply in_map_iff in Hin. destruct Hin as (mid & <- & H).
    apply IH in H. destruct H as (w & E & M).
    exists w; split; [exact E | now constructor].
  - destruct (at_eol (snd st)); [|contradiction].
    destruct Hin as [<-|[]]. exists EmptyString; split; [reflexivity | constructor].
  - destruct (snd st) eqn:E; [|contradiction].
    destruct Hin as [<-|[]]. exists EmptyString; split; [now rewrite E | constructor].
Qed.

Lemma star_iter_captures (step : state -> list state) :
  (forall st st', In st' (step st) -> fst st' = fst st) ->
  forall fuel st st', In st' (star_iter step fuel st) -> fst st' = fst st.
Proof.
  intros Hstep fuel; induction fuel as [|fuel IH]; simpl; intros st st' Hin.
  - now destruct Hin as [<-|[]].
  - apply in_app_or in Hin. destruct Hin as [Hin|[<-|[]]]; [|reflexivity].
    apply in_flat_map in Hin. destruct Hin as (mid & Hmid & Hin).
    apply filter_In in Hmid. destruct Hmid as [Hmid _].
    apply Hstep in Hmid. apply IH in Hin. congruence.
Qed.

Lemma run_captures (r : regex) :
  groupless r = true ->
  forall st st', In st' (run r st) -> fst st' = fst st.
Proof.
  induction r as [|p|r1 IH1 r2 IH2|r1 IH1 r2 IH2|r IH|i r IH| |]; simpl; intros G st st' Hin;
    try discriminate.
  - now destruct Hin as [<-|[]].
  - destruct st as [c s]; simpl in *. destruct s as [|a s]; [contradiction|].
    destruct (p a); [|contradiction]. now destruct Hin as [<-|[]].
  - apply andb_prop in G. destruct G as [G1 G2].
    apply in_flat_map in Hin. destruct Hin as (mid & H1 & H2).
    apply (IH1 G1) in H1. apply (IH2 G2) in H2. congruence.
  - apply andb_prop in G. destruct G as [G1 G2].
    apply in_app_or in Hin. destruct Hin as [H|H]; eauto.
  - eapply star_iter_captures; eauto.
  - destruct (at_eol (snd st)); [|contradiction]. now destruct Hin as [<-|[]].
  - destruct (snd st); [|contradiction]. now destruct Hin as [<-|[]].
Qed.

(** [search] reports a match of the pattern at some offset. *)
Lemma search_sound (r : regex) (s : string) (c : captures) :
  search r s = Some c ->
  exists pre suf rest, s = pre ++ suf /\ In (c, rest) (run r ([], suf)).
Proof.
  induction s as [|a s IH]; simpl; unfold re_match.
  - destruct (run r ([], EmptyString)) as [|[c' rest] l] eqn:E.
    + discriminate.
    + intros [= <-]. exists EmptyString, EmptyString, rest. rewrite E. split; [reflexivity | now left].
  - destruct (run r ([], String a s)) as [|[c' rest] l] eqn:E.
    + intros H. apply IH in H. destruct H as (pre & suf & rest & -> & Hin).
      exists (String a pre), suf, rest. split; [reflexivity | exact Hin].
    + intros [= <-]. exists EmptyString, (String a s), rest. rewrite E. split; [reflexivity | now left].
Qed.

Lemma str_contains_sound (r : regex) (s : string) :
  str_contains r s = true ->
  exists pre w post, s = pre ++ w ++ post /\ Matches r w.
Proof.
  unfold str_contains. destruct (search r s) as [c|] eqn:E; [|discriminate].
  intros _. apply search_sound in E. destruct E as (pre & suf & rest & -> & Hin).
  apply run_sound in Hin. simpl in Hin. destruct Hin as (w & -> & M).
  now exists pre, w, rest.
Qed.

Lemma Matches_Chr p w : Matches (Chr p) w -> exists c, w = String c EmptyString /\ p c = true.
Proof. inversion 1; subst; eauto. Qed.

Lemma Matches_Cat r1 r2 w :
  Matches (Cat r1 r2) w -> exists w1 w2, w = w1 ++ w2 /\ Matches r1 w1 /\ Matches r2 w2.
Proof. inversion 1; subst; eauto. Qed.

Lemma Matches_Alt r1 r2 w : Matches (Alt r1 r2) w -> Matches r1 w \/ Matches r2 w.
Proof. inversion 1; subst; auto. Qed.

Lemma Matches_Eps w : Matches Eps w -> w = EmptyString.
Proof. now inversion 1. Qed.

Lemma Matches_Lit s w : Matches (Lit s) w -> w = s.
Proof.
  revert w; induction s as [|a s IH]; simpl; intros w H.
  - now apply Matches_Eps.
  - apply Matches_Cat in H. destruct H as (w1 & w2 & -> & H1 & H2).
    apply Matches_Chr in H1. destruct H1 as (c & -> & E).
    apply Ascii.eqb_eq in E. subst. simpl. f_equal. auto.
Qed.

Lemma all_chars_app p a b : all_chars p (a ++ b) = all_chars p a && all_chars p b.
Proof. induction a; simpl; [reflexivity|]. now rewrite IHa, andb_assoc. Qed.

Lemma Matches_Star_Chr p w : Matches (Star (Chr p)) w -> all_chars p w = true.
Proof.
  intros H. remember (Star (Chr p)) as r eqn:E.
  induction H; try discriminate; [reflexivity|].
  injection E as ->.
  apply Matches_Chr in H. destruct H as (c & -> & Hc). simpl.
  rewrite Hc. simpl. now apply IHMatches2.
Qed.

Lemma Matches_digit2 w :
  Matches digit2 w -> exists a b, w = String a (String b EmptyString) /\ Str.is_digit a = true /\ Str.is_digit b = true.
Proof.
  intros H. apply Matches_Cat in H. destruct H as (w1 & w2 & -> & H1 & H2).
  apply Matches_Chr in H1, H2. destruct H1 as (a & -> & Ha), H2 as (b & -> & Hb).
  now exists a, b.
Qed.

Lemma Matches_dot w : Matches dot w -> w = ".".
Proof.
  intros H. apply Matches_Chr in H. destruct H as (c & -> & E).
  apply Ascii.eqb_eq in E. now subst.
Qed.

Lemma Matches_DATE_PATTERN w : Matches DATE_PATTERN w -> date_2024 w.
Proof.
  unfold DATE_PATTERN. intros H.
  apply Matches_Cat in H. destruct H as (a & w1 & -> & Ha & H).
  apply Matches_Cat in H. destruct H as (b & w2 & -> & Hb & H).
  apply Matches_Cat in H. destruct H as (c & w3 & -> & Hc & H).
  apply Matches_Cat in H. destruct H as (d & w4 & -> & Hd & H).
  apply Matches_Cat in H. destruct H as (ws & y & -> & Hws & Hy).
  apply Matches_digit2 in Ha, Hc.
  destruct Ha as (d1 & d2 & -> & D1 & D2), Hc as (m1 & m2 & -> & M1 & M2).
  apply Matches_dot in Hb, Hd. subst.
  apply Matches_Lit in Hy. subst.
  apply Matches_Star_Chr in Hws.
  exists d1, d2, m1, m2, ws. simpl. auto 10.
Qed.

Lemma is_date_sound f :
  is_date f = true -> exists pre w post, text f = pre ++ w ++ post /\ date_2024 w.
Proof.
  intros H. apply str_contains_sound in H. destruct H as (pre & w & post & E & M).
  exists pre, w, post. split; [exact E | now apply Matches_DATE_PATTERN].
Qed.

Lemma append_length_nil (a : string) : String.length a = 0%nat -> a = EmptyString.
Proof. now destruct a. Qed.

Lemma other_year_not_date f : other_year_date (text f) -> is_date f = false.
Proof.
  intros (d1 & d2 & m1 & m2 & y & E & _ & _ & _ & _ & Ly & _ & Ny).
  destruct (is_date f) eqn:D; [|reflexivity]. exfalso.
  apply is_date_sound in D. destruct D as (pre & w & post & E' & (e1 & e2 & n1 & n2 & ws & -> & _ & _ & _ & _ & _)).
  rewrite E in E'.
  assert (L := f_equal String.length E').
  simpl in L. rewrite !length_append in L. simpl in L. rewrite !length_append in L. simpl in L.
  assert (String.length pre = 0 /\ String.length ws = 0 /\ String.length post = 0)%nat as (Lp & Lw & Lq) by lia.
  apply append_length_nil in Lp, Lw, Lq. subst. simpl in E'.
  injection E' as _ _ _ _ Ey. apply Ny. now rewrite Ey.
Qed.

Lemma read_digits_app ds rest :
  all_chars Str.is_digit ds = true -> no_leading_digit rest ->
  forall acc n, exists v, read_digits (ds ++ rest) acc n = (v, (n + String.length ds)%nat, rest).
Proof.
  intros D R. induction ds as [|c ds IH]; intros acc n.
  - exists acc. cbn [append String.length]. rewrite Nat.add_0_r.
    destruct rest as [|c rest]; cbn [read_digits]; [reflexivity|].
    cbn in R. now rewrite R.
  - cbn [all_chars] in D. apply andb_prop in D. destruct D as [Dc D].
    cbn [append read_digits String.length]. rewrite Dc.
    destruct (IH D (10 * acc + digit_val c)%Z (S n)) as (v & E).
    exists v. rewrite E. do 2 f_equal. lia.
Qed.

Lemma digit_not_dot c : Str.is_digit c = true -> Ascii.eqb c "." = false.
Proof.
  intros D. destruct (Ascii.eqb c ".") eqn:E; [|reflexivity].
  apply Ascii.eqb_eq in E. subst. discriminate.
Qed.

Lemma digit_not_comma c : Str.is_digit c = true -> Ascii.eqb c "," = false.
Proof.
  intros D. destruct (Ascii.eqb c ",") eqn:E; [|reflexivity].
  apply Ascii.eqb_eq in E. subst. discriminate.
Qed.

Lemma digit_not_sign c : Str.is_digit c = true -> is_minus c = false /\ is_plus c = false.
Proof.
  intros D. unfold is_minus, is_plus. split.
  - destruct (Ascii.eqb c "-") eqn:E; [|reflexivity]. apply Ascii.eqb_eq in E. subst. discriminate.
  - destruct (Ascii.eqb c "+") eqn:E; [|reflexivity]. apply Ascii.eqb_eq in E. subst. discriminate.
Qed.

Lemma remove_char_app c a b :
  Str.remove_char c (a ++ b) = Str.remove_char c a ++ Str.remove_char c b.
Proof. induction a as [|d a IH]; simpl; [reflexivity|]. destruct (Ascii.eqb d c); simpl; now rewrite IH. Qed.

Lemma replace_char_app c d a b :
  Str.replace_char c d (a ++ b) = Str.replace_char c d a ++ Str.replace_char c d b.
Proof. induction a as [|e a IH]; simpl; [reflexivity|]. now rewrite IH. Qed.

Lemma remove_dot_digits ds :
  all_chars Str.is_digit ds = true -> Str.remove_char "." ds = ds.
Proof.
  induction ds as [|c ds IH]; simpl; [reflexivity|]. intros D.
  apply andb_prop in D. destruct D as [Dc D].
  rewrite (digit_not_dot _ Dc). now rewrite IH.
Qed.

Lemma replace_comma_digits ds :
  all_chars Str.is_digit ds = true -> Str.replace_char "," "." ds = ds.
Proof.
  induction ds as [|c ds IH]; simpl; [reflexivity|]. intros D.
  apply andb_prop in D. destruct D as [Dc D].
  rewrite (digit_not_comma _ Dc). now rewrite IH.
Qed.

Lemma Matches_digit1_3 w :
  Matches digit1_3 w -> all_chars Str.is_digit w = true /\ w <> EmptyString.
Proof.
  unfold digit1_3, Opt. intros H.
  apply Matches_Cat in H. destruct H as (w1 & w2 & -> & H1 & H2).
  apply Matches_Chr in H1. destruct H1 as (a & -> & Da). simpl. rewrite Da. simpl.
  split; [|discriminate].
  apply Matches_Alt in H2. destruct H2 as [H2|H2]; [|apply Matches_Eps in H2; now subst].
  apply Matches_Cat in H2. destruct H2 as (w3 & w4 & -> & H3 & H4).
  apply Matches_Chr in H3. destruct H3 as (b & -> & Db). simpl. rewrite Db. simpl.
  apply Matches_Alt in H4. destruct H4 as [H4|H4]; [|apply Matches_Eps in H4; now subst].
  apply Matches_Chr in H4. destruct H4 as (c & -> & Dc). simpl. now rewrite Dc.
Qed.

Lemma Matches_thousands w :
  Matches (Star (Cat digit1_3 dot)) w ->
  all_chars Str.is_digit (Str.remove_char "." w) = true.
Proof.
  intros H. remember (Star (Cat digit1_3 dot)) as r eqn:E.
  induction H; try discriminate; [reflexivity|].
  injection E as ->.
  apply Matches_Cat in H. destruct H as (g & d & -> & Hg & Hd).
  apply Matches_dot in Hd. subst d.
  apply Matches_digit1_3 in Hg. destruct Hg as [Dg _].
  rewrite !remove_char_app, !all_chars_app, (remove_dot_digits _ Dg), Dg.
  simpl. now apply IHMatches2.
Qed.

(** The number of an amount, once [point_decimal] has rewritten it, is
    digits, a point and two digits. *)
Lemma point_decimal_shape w :
  Matches AMOUNT_NUMBER w ->
  exists ds a b,
    point_decimal w = ds ++ String "." (String a (String b EmptyString))
    /\ all_chars Str.is_digit ds = true /\ ds <> EmptyString
    /\ Str.is_digit a = true /\ Str.is_digit b = true.
Proof.
  unfold AMOUNT_NUMBER. intros H.
  apply Matches_Cat in H. destruct H as (th & w1 & -> & Hth & H).
  apply Matches_Cat in H. destruct H as (u & w2 & -> & Hu & H).
  apply Matches_Cat in H. destruct H as (cm & ab & -> & Hcm & Hab).
  apply Matches_thousands in Hth.
  apply Matches_digit1_3 in Hu. destruct Hu as [Du Nu].
  apply Matches_Chr in Hcm. destruct Hcm as (c & -> & Ec).
  apply Ascii.eqb_eq in Ec. subst c.
  apply Matches_digit2 in Hab. destruct Hab as (a & b & -> & Da & Db).
  exists (Str.remove_char "." th ++ u), a, b.
  unfold point_decimal.
  rewrite !remove_char_app, (remove_dot_digits _ Du). simpl.
  rewrite (digit_not_dot _ Da), (digit_not_dot _ Db).
  rewrite !replace_char_app, (replace_comma_digits _ Hth), (replace_comma_digits _ Du).
  simpl. rewrite (digit_not_comma _ Da), (digit_not_comma _ Db).
  rewrite append_assoc. repeat split; auto.
  - rewrite all_chars_app, Hth, Du. reflexivity.
  - destruct u; [contradiction|]. destruct (Str.remove_char "." th); discriminate.
Qed.

Lemma unsigned_of_decimal ds a b :
  all_chars Str.is_digit ds = true -> ds <> EmptyString ->
  Str.is_digit a = true -> Str.is_digit b = true ->
  exists q, unsigned_of_string (ds ++ String "." (String a (String b EmptyString))) = Some q.
Proof.
  intros D N Da Db. unfold unsigned_of_string.
  destruct (read_digits_app ds (String "." (String a (String b EmptyString))) D eq_refl 0%Z 0%nat) as (v & ->).
  simpl. rewrite Da, Db. simpl.
  destruct ds; [contradiction|]. simpl. eauto.
Qed.

(** [float] and [to_numeric] succeed on every amount the parser builds,
    with or without the sign in front. *)
Lemma float_of_amount w :
  Matches AMOUNT_NUMBER w ->
  exists q, float_of_string (point_decimal w) = Some q
         /\ float_of_string ("-" ++ point_decimal w) = Some (- q).
Proof.
  intros H. apply point_decimal_shape in H.
  destruct H as (ds & a & b & -> & D & N & Da & Db).
  destruct (unsigned_of_decimal ds a b D N Da Db) as (q & E).
  exists q. split.
  - destruct ds as [|c ds]; [contradiction|]. simpl in D.
    apply andb_prop in D. destruct D as [Dc _].
    destruct (digit_not_sign _ Dc) as [Hm Hp].
    unfold float_of_string. cbn [append]. rewrite Hm, Hp. exact E.
  - simpl. unfold float_of_string. simpl. now rewrite E.
Qed.

Lemma run_group_leaf (i : nat) (r : regex) (st st' : state) :
  groupless r = true ->
  In st' (run (Grp i r) st) ->
  exists w, fst st' = (i, w) :: fst st /\ snd st = w ++ snd st' /\ Matches r w.
Proof.
  simpl. intros G Hin. apply in_map_iff in Hin. destruct Hin as (mid & <- & H).
  assert (C := run_captures r G _ _ H).
  apply run_sound in H. destruct H as (w & E & M).
  exists w. unfold capture; simpl. rewrite E, take_append, C. auto.
Qed.

(** What a match of an amount pattern captures: the sign character
    and a number. *)
Lemma amount_pattern_groups sign s m :
  search (amount_pattern sign) s = Some m ->
  exists c w, group 1 m = String c EmptyString /\ sign c = true
           /\ group 2 m = w /\ Matches AMOUNT_NUMBER w.
Proof.
  intros H. apply search_sound in H. destruct H as (pre & suf & rest & _ & Hin).
  unfold amount_pattern in Hin. simpl run in Hin.
  apply in_flat_map in Hin. destruct Hin as (st1 & H1 & Hin).
  apply in_flat_map in Hin. destruct Hin as (st2 & H2 & Hin).
  apply in_flat_map in Hin. destruct Hin as (st3 & H3 & Hin).
  change (In (m, rest) (run (Grp 2 AMOUNT_NUMBER) st3)) in Hin.
  apply (run_group_leaf 2 AMOUNT_NUMBER _ _ eq_refl) in Hin.
  destruct Hin as (w & Em & _ & Mw). simpl in Em.
  change (In st3 (run (Star space) st2)) in H3.
  apply (run_captures (Star space) eq_refl) in H3.
  change (In st2 (run (Grp 1 (Chr sign)) st1)) in H2.
  apply (run_group_leaf 1 (Chr sign) _ _ eq_refl) in H2.
  destruct H2 as (w1 & E1 & _ & M1).
  apply Matches_Chr in M1. destruct M1 as (c & -> & Sc).
  exists c, w. rewrite Em, H3, E1. simpl. auto.
Qed.

End ReFacts.

Import ReFacts.

(* ================================================================= *)
(** ** The parser *)

(** *** The monad *)

Lemma bind_inr {A B} (c : M A) (k : A -> M B) out b :
  bind c k = (out, inr b) ->
  exists o1 a o2, c = (o1, inr a) /\ k a = (o2, inr b) /\ out = o1 ++ o2.
Proof.
  destruct c as [o1 [e|a]]; simpl; [discriminate|].
  destruct (k a) as [o2 r] eqn:E. intros [= <- ->]. now exists o1, a, o2.
Qed.

Lemma bind_ret_l {A B} (a : A) (k : A -> M B) : bind (ret a) k = k a.
Proof. unfold bind, ret. now destruct (k a). Qed.

Lemma bind_pure {A B} (a : A) (k : A -> M B) c :
  c = ([], inr a) -> bind c k = k a.
Proof. intros ->. apply bind_ret_l. Qed.

Lemma lift_inr {A} e (o : option A) out a :
  lift e o = (out, inr a) -> out = [] /\ o = Some a.
Proof. destruct o; simpl; unfold ret, raise; intros [= <- <-] || intros [=]; auto. Qed.

Lemma mapM_inr {A B} (f : A -> M B) (P : A -> B -> Prop) :
  (forall a out b, f a = (out, inr b) -> out = [] /\ P a b) ->
  forall l out bs, mapM f l = (out, inr bs) -> out = [] /\ Forall2 P l bs.
Proof.
  intros Hf l; induction l as [|a l IH]; simpl; intros out bs H.
  - injection H as <- <-. auto.
  - apply bind_inr in H. destruct H as (o1 & b & o2 & Ea & H & ->).
    apply bind_inr in H. destruct H as (o3 & bs' & o4 & El & H & ->).
    injection H as <- <-.
    apply Hf in Ea. destruct Ea as [-> Pa].
    apply IH in El. destruct El as [-> Pl]. auto.
Qed.

Lemma mapM_total {A B} (f : A -> M B) (l : list A) :
  (forall a, In a l -> exists b, f a = ([], inr b)) ->
  exists bs, mapM f l = ([], inr bs).
Proof.
  induction l as [|a l IH]; simpl; intros H.
  - now exists [].
  - destruct (H a (or_introl eq_refl)) as (b & Eb).
    destruct IH as (bs & Ebs); [intros; apply H; now right|].
    exists (b :: bs). rewrite (bind_pure b _ _ Eb), (bind_pure bs _ _ Ebs). reflexivity.
Qed.

(** *** Rows *)

Lemma assign_entry_numeric {lowercase : Lower} cats lay r entry :
  numeric_row r -> numeric_row (assign_entry cats lay r entry).
Proof.
  intros [Hc Hd]. unfold assign_entry.
  destruct (Qeq_bool (x0 entry) (valuta_x0 lay)); [now split|].
  destruct (search AMOUNT_PATTERN (text entry)) as [m|] eqn:E; [|now split].
  destruct (in_amount_column lay entry); [|now split].
  apply amount_pattern_groups in E. destruct E as (c & w & G1 & _ & G2 & Mw).
  apply float_of_amount in Mw. destruct Mw as (q & Eq & Eneg).
  rewrite G2.
  destruct (String.eqb (group 1 m) "+"); [split; [exists q; exact Eq | exact Hd]|].
  destruct (String.eqb (group 1 m) "-") eqn:Es; [|now split].
  apply String.eqb_eq in Es. rewrite Es.
  split; [exact Hc | exists (- q); exact Eneg].
Qed.

Lemma build_transaction_numeric {lowercase : Lower} cats lay page_df date_row :
  numeric_row (build_transaction cats lay page_df date_row).
Proof.
  unfold build_transaction.
  assert (H : numeric_row (new_transaction date_row)) by (split; exists 0; reflexivity).
  revert H. generalize (new_transaction date_row).
  induction (same_y1_entries page_df date_row) as [|e l IH]; simpl; intros r H; [exact H|].
  apply IH. now apply assign_entry_numeric.
Qed.

Lemma assign_entry_booking_date {lowercase : Lower} cats lay r entry :
  booking_date (assign_entry cats lay r entry) = booking_date r.
Proof.
  unfold assign_entry.
  destruct (Qeq_bool _ _); [reflexivity|].
  destruct (search _ _); [|reflexivity].
  destruct (in_amount_column _ _); [|reflexivity].
  destruct (String.eqb _ "+"); [reflexivity|].
  destruct (String.eqb _ "-"); reflexivity.
Qed.

Lemma build_transaction_booking_date {lowercase : Lower} cats lay page_df date_row :
  booking_date (build_transaction cats lay page_df date_row)
  = Str.strip (Str.remove_char "010" (text date_row)).
Proof.
  unfold build_transaction.
  change (Str.strip (Str.remove_char "010" (text date_row)))
    with (booking_date (new_transaction date_row)).
  generalize (new_transaction date_row).
  induction (same_y1_entries page_df date_row) as [|e l IH]; simpl; intros r; [reflexivity|].
  now rewrite IH, assign_entry_booking_date.
Qed.

(** Every transaction comes from a booking date of its page. *)
Lemma extract_transactions_In {lowercase : Lower} cats lay df r :
  In r (extract_transactions cats lay df) <->
  exists p date_row,
    In p (pages df) /\ In date_row (booking_dates lay (page_frame df p))
    /\ r = build_transaction cats lay (page_frame df p) date_row.
Proof.
  unfold extract_transactions. rewrite in_flat_map. split.
  - intros (p & Hp & H). apply in_map_iff in H. destruct H as (f & <- & Hf). eauto.
  - intros (p & f & Hp & Hf & ->). exists p. split; [exact Hp|]. now apply in_map.
Qed.

Lemma booking_dates_In lay page_df f :
  In f (booking_dates lay page_df) <->
  In f page_df /\ Qeq_bool (x0 f) (booking_x0 lay) = true /\ is_date f = true.
Proof.
  unfold booking_dates. rewrite filter_In, andb_true_iff. tauto.
Qed.

Lemma page_frame_In df p f : In f (page_frame df p) <-> In f df /\ page f = p.
Proof. unfold page_frame. rewrite filter_In, Z.eqb_eq. tauto. Qed.

Lemma rint_comp (x y : Q) : x == y -> rint x = rint y.
Proof.
  intros E. unfold rint. rewrite (Qfloor_comp x y E).
  assert (C : (x - inject_Z (Qfloor y) ?= 1 # 2) = (y - inject_Z (Qfloor y) ?= 1 # 2)).
  { apply Qcompare_comp; [now rewrite E | reflexivity]. }
  now rewrite C.
Qed.

Lemma round2_comp (x y : Q) : x == y -> round2 x = round2 y.
Proof.
  intros E. unfold round2. f_equal. apply rint_comp. now rewrite E.
Qed.

Lemma cumsum_from_length acc l : List.length (Pd.cumsum_from acc l) = List.length l.
Proof. revert acc; induction l; simpl; auto. Qed.

Lemma cumsum_length l : List.length (Pd.cumsum l) = List.length l.
Proof. destruct l; simpl; [reflexivity|]. now rewrite cumsum_from_length. Qed.

Lemma cumsum_from_nth l : forall acc i c,
  nth_error (Pd.cumsum_from acc l) i = Some c ->
  c == acc + Qsum (firstn (S i) l).
Proof.
  induction l as [|a l IH]; intros acc i c H.
  - destruct i; discriminate.
  - destruct i as [|i]; simpl in H.
    + injection H as <-. simpl. ring.
    + apply IH in H. rewrite H. simpl. ring.
Qed.

(** The running sum at a position is the sum of the amounts up to it. *)
Lemma cumsum_nth l i c :
  nth_error (Pd.cumsum l) i = Some c -> c == Qsum (firstn (S i) l).
Proof.
  destruct l as [|a l]; [destruct i; discriminate|].
  destruct i as [|i]; simpl.
  - intros [= <-]. ring.
  - intros H. apply cumsum_from_nth in H. rewrite H. simpl. ring.
Qed.

Lemma add_balance_length B l : List.length (add_balance B l) = List.length l.
Proof.
  unfold add_balance. rewrite length_map, length_combine, cumsum_length, length_map.
  apply Nat.min_id.
Qed.

Lemma combine_nth_error {A B} (l : list A) (l' : list B) i a b :
  nth_error (combine l l') i = Some (a, b) <->
  nth_error l i = Some a /\ nth_error l' i = Some b.
Proof.
  revert l' i; induction l as [|x l IH]; intros l' i.
  - simpl. destruct i; split; intros H; try discriminate; destruct H; discriminate.
  - destruct l' as [|y l'].
    + simpl. destruct i; split; intros H; try discriminate; destruct H; discriminate.
    + destruct i as [|i]; simpl.
      * split; [intros [= -> ->]; auto | intros [[= ->] [= ->]]; auto].
      * apply IH.
Qed.

Lemma add_balance_nth B l i t :
  nth_error (add_balance B l) i = Some t ->
  exists d c, nth_error l i = Some d
    /\ nth_error (Pd.cumsum (map dt_amount l)) i = Some c
    /\ t = with_balance B d c.
Proof.
  unfold add_balance. intros H.
  rewrite nth_error_map in H.
  destruct (nth_error (combine l (Pd.cumsum (map dt_amount l))) i) as [[d c]|] eqn:E;
    simpl in H; [|discriminate].
  injection H as <-. apply combine_nth_error in E. destruct E. eauto.
Qed.

Lemma add_balance_map {A} (f : Transaction -> A) (g : Dated -> A) B l :
  (forall d c, f (with_balance B d c) = g d) ->
  map f (add_balance B l) = map g l.
Proof.
  intros H. unfold add_balance. rewrite map_map.
  assert (L : List.length (Pd.cumsum (map dt_amount l)) = List.length l)
    by now rewrite cumsum_length, length_map.
  revert L. generalize (Pd.cumsum (map dt_amount l)).
  induction l as [|d l IH]; intros cs L; [reflexivity|].
  destruct cs as [|c cs]; [discriminate|]. simpl. rewrite H. f_equal.
  apply IH. now injection L.
Qed.

Lemma add_balance_amounts B l : map t_amount (add_balance B l) = map dt_amount l.
Proof. now apply add_balance_map. Qed.

Lemma add_balance_dates B l : map t_date (add_balance B l) = map dt_date l.
Proof. now apply add_balance_map. Qed.

(** The balance column: at each position, the start balance plus the
    amounts up to it, rounded. *)
Lemma add_balance_running B l i t :
  nth_error (add_balance B l) i = Some t ->
  t_balance t = round2 (B + Qsum (firstn (S i) (map t_amount (add_balance B l)))).
Proof.
  intros H. rewrite add_balance_amounts.
  apply add_balance_nth in H. destruct H as (d & c & _ & Hc & ->).
  simpl. apply round2_comp. apply cumsum_nth in Hc. now rewrite Hc.
Qed.

(** *** [reconcile] *)

Lemma add_date_inr r out x :
  add_date r = (out, inr x) ->
  out = [] /\ exists d, to_datetime (booking_date r) = Some d /\ x = (r, d).
Proof.
  unfold add_date. intros H. apply bind_inr in H.
  destruct H as (o1 & d & o2 & E & H & ->).
  apply lift_inr in E. destruct E as [-> E]. injection H as <- <-. eauto.
Qed.

Lemma add_amount_inr rd out t :
  add_amount rd = (out, inr t) ->
  out = [] /\ exists c d, cell_value (credit (fst rd)) = Some c
      /\ cell_value (debit (fst rd)) = Some d
      /\ t = mkDated (fst rd) (snd rd) (round2 (c + d)).
Proof.
  unfold add_amount, numeric_cell. intros H. apply bind_inr in H.
  destruct H as (o1 & c & o2 & Ec & H & ->).
  apply bind_inr in H. destruct H as (o3 & d & o4 & Ed & H & ->).
  apply lift_inr in Ec, Ed. destruct Ec as [-> Ec], Ed as [-> Ed].
  injection H as <- <-. split; [reflexivity|]. now exists c, d.
Qed.

Lemma Forall2_compose {A B C} (P : A -> B -> Prop) (Q : B -> C -> Prop) (R : A -> C -> Prop) :
  (forall a b c, P a b -> Q b c -> R a c) ->
  forall l1 l2 l3, Forall2 P l1 l2 -> Forall2 Q l2 l3 -> Forall2 R l1 l3.
Proof.
  intros H l1 l2 l3 H1; revert l3; induction H1; intros l3 H2; inversion H2; subst; eauto.
Qed.

Lemma reconcile_inr sort B e rows out txs :
  reconcile sort B e rows = (out, inr txs) ->
  exists dated, Forall2 dated_from rows dated
    /\ txs = add_balance B (sort dated)
    /\ validate_end e txs = (out, inr tt).
Proof.
  unfold reconcile. destruct rows as [|r0 rows0]; [discriminate|].
  generalize (r0 :: rows0) as rows. intros rows H.
  apply bind_inr in H. destruct H as (o1 & rd & o2 & E1 & H & ->).
  apply bind_inr in H. destruct H as (o3 & dated & o4 & E2 & H & ->).
  apply bind_inr in H. destruct H as (o5 & [] & o6 & E3 & H & ->).
  injection H as <- <-.
  apply (mapM_inr add_date (fun r x => exists d, to_datetime (booking_date r) = Some d /\ x = (r, d))) in E1;
    [|apply add_date_inr].
  apply (mapM_inr add_amount (fun rd t => exists c d, cell_value (credit (fst rd)) = Some c
      /\ cell_value (debit (fst rd)) = Some d
      /\ t = mkDated (fst rd) (snd rd) (round2 (c + d)))) in E2; [|apply add_amount_inr].
  destruct E1 as [-> F1], E2 as [-> F2].
  exists dated. split; [|split; [reflexivity | now rewrite app_nil_r, E3]].
  eapply Forall2_compose; [|exact F1|exact F2].
  intros r x t (dt & Edt & ->) (c & d & Ec & Ed & ->). simpl in *.
  now exists dt, c, d.
Qed.

Lemma count_comp (u v : Q) (l : list Q) : u == v -> Pd.count u l = Pd.count v l.
Proof.
  intros E. unfold Pd.count. f_equal. apply filter_ext. intros w.
  destruct (Qeq_bool w u) eqn:E1, (Qeq_bool w v) eqn:E2; try reflexivity.
  - apply Qeq_bool_iff in E1. rewrite E in E1. apply Qeq_bool_iff in E1. congruence.
  - apply Qeq_bool_iff in E2. rewrite <- E in E2. apply Qeq_bool_iff in E2. congruence.
Qed.

Lemma unique_In (l : list Q) v : In v (Pd.unique Qeq_bool l) -> In v l.
Proof.
  induction l as [|a l IH]; simpl; [easy|].
  intros [<-|H]; [now left|]. apply filter_In in H. right. apply IH, H.
Qed.

Lemma unique_covers (l : list Q) v :
  In v l -> exists u, In u (Pd.unique Qeq_bool l) /\ u == v.
Proof.
  induction l as [|a l IH]; simpl; [easy|].
  intros [<-|H].
  - exists a. split; [now left | reflexivity].
  - destruct (IH H) as (u & Hu & E).
    destruct (Qeq_bool u a) eqn:Ea.
    + exists a. split; [now left|]. apply Qeq_bool_iff in Ea. now rewrite <- Ea.
    + exists u. split; [|exact E]. right. apply filter_In. split; [exact Hu|]. now rewrite Ea.
Qed.

Lemma unique_distinct (l : list Q) (f : Q -> nat) :
  distinct_keys (map (fun v => (v, f v)) (Pd.unique Qeq_bool l)).
Proof.
  induction l as [|a l IH]; simpl; [constructor|].
  constructor.
  - intros e' H. apply in_map_iff in H. destruct H as (v & <- & Hv).
    apply filter_In in Hv. destruct Hv as [_ Hv]. simpl.
    intros E. apply Qeq_bool_iff in E. now rewrite E in Hv.
  - revert IH. generalize (Pd.unique Qeq_bool l). intros u IH.
    induction u as [|b u IHu]; simpl; [constructor|].
    inversion IH as [|e s Hb Hu]; subst.
    destruct (Qeq_bool b a); simpl; [now apply IHu|].
    constructor; [|now apply IHu].
    intros e' H. apply Hb. apply in_map_iff in H. destruct H as (v & <- & Hv).
    apply filter_In in Hv. apply in_map_iff. exists v. split; [reflexivity | apply Hv].
Qed.

Lemma distinct_keys_perm s s' :
  Permutation s s' -> distinct_keys s -> distinct_keys s'.
Proof.
  induction 1 as [|e s s' P IH|e1 e2 s|s1 s2 s3 P1 IH1 P2 IH2]; intros D.
  - constructor.
  - inversion D; subst. constructor; [|auto].
    intros e' H. apply H1. eapply Permutation_in; [symmetry; exact P | exact H].
  - inversion D as [|? ? H1 D1]; subst. inversion D1 as [|? ? H2 D2]; subst.
    constructor; [|constructor; [|exact D2]].
    + intros e' [<-|H]; [|now apply H2].
      intros E. apply (H1 e1 (or_introl eq_refl)). now symmetry.
    + intros e' H. apply H1. now right.
  - auto.
Qed.

Lemma insert_desc_perm e s : Permutation (Pd.insert_desc e s) (e :: s).
Proof.
  induction s as [|e' s IH]; simpl; [reflexivity|].
  destruct (snd e <? snd e')%nat; [|reflexivity].
  rewrite IH. apply perm_swap.
Qed.

Lemma value_counts_perm l :
  Permutation (Pd.value_counts l)
              (map (fun v => (v, Pd.count v l)) (Pd.unique Qeq_bool l)).
Proof.
  unfold Pd.value_counts.
  induction (map (fun v => (v, Pd.count v l)) (Pd.unique Qeq_bool l)) as [|e s IH];
    simpl; [reflexivity|].
  now rewrite insert_desc_perm, IH.
Qed.

(** The largest count first, the rest behind it. *)
Lemma pop_largest_spec s :
  match Pd.pop_largest s with
  | None => s = []
  | Some (m, rest) =>
      Permutation s (m :: rest) /\ forall e, In e s -> (snd e <= snd m)%nat
  end.
Proof.
  induction s as [|e s IH]; simpl; [reflexivity|].
  destruct (Pd.pop_largest s) as [[m rest]|].
  - destruct IH as [P L].
    destruct (snd e <? snd m)%nat eqn:C.
    + apply Nat.ltb_lt in C. split.
      * rewrite P. apply perm_swap.
      * intros e' [<-|H]; [lia | now apply L].
    + apply Nat.ltb_ge in C. split; [reflexivity|].
      intros e' [<-|H]; [lia|]. apply L in H. lia.
  - subst. split; [reflexivity|]. intros e' [<-|[]]. lia.
Qed.

(** With two distinct values in [l], the selection of [extract_data]
    is made of two most frequent values of [l]. *)
Lemma two_most_frequent_spec l :
  two_distinct l ->
  exists a b, two_most_frequent l = [a; b] /\ top_two l a b.
Proof.
  intros (u & v & Hu & Hv & Nuv).
  unfold two_most_frequent.
  set (base := map (fun v => (v, Pd.count v l)) (Pd.unique Qeq_bool l)).
  assert (P := value_counts_perm l). fold base in P.
  assert (D : distinct_keys (Pd.value_counts l)).
  { eapply distinct_keys_perm; [symmetry; exact P | apply unique_distinct]. }
  assert (Hbase : forall e, In e (Pd.value_counts l) ->
                    In (fst e) l /\ snd e = Pd.count (fst e) l).
  { intros e H. apply (Permutation_in _ P) in H. apply in_map_iff in H.
    destruct H as (w & <- & Hw). simpl. split; [now apply unique_In | reflexivity]. }
  assert (Hcov : forall w, In w l -> exists e, In e (Pd.value_counts l) /\ fst e == w).
  { intros w Hw. destruct (unique_covers l w Hw) as (w' & Hw' & E).
    exists (w', Pd.count w' l). split; [|exact E].
    apply (Permutation_in _ (Permutation_sym P)). apply in_map_iff. now exists w'. }
  generalize dependent (Pd.value_counts l). intros s P D Hbase Hcov.
  simpl. assert (S1 := pop_largest_spec s).
  destruct (Pd.pop_largest s) as [[m1 rest1]|].
  2:{ subst s. destruct (Hcov u Hu) as (e & [] & _). }
  destruct S1 as [P1 L1].
  assert (S2 := pop_largest_spec rest1).
  destruct (Pd.pop_largest rest1) as [[m2 rest2]|].
  2:{ subst rest1. exfalso.
      destruct (Hcov u Hu) as (eu & Iu & Eu), (Hcov v Hv) as (ev & Iv & Ev).
      apply (Permutation_in _ P1) in Iu, Iv.
      destruct Iu as [<-|[]], Iv as [<-|[]]. apply Nuv. now rewrite <- Eu, <- Ev. }
  destruct S2 as [P2 L2].
  assert (D1 := distinct_keys_perm _ _ P1 D).
  inversion D1 as [|? ? N1 D2]; subst.
  assert (I1 : In m1 s) by (apply (Permutation_in _ (Permutation_sym P1)); now left).
  assert (I2r : In m2 rest1) by (apply (Permutation_in _ (Permutation_sym P2)); now left).
  assert (I2 : In m2 s) by (apply (Permutation_in _ (Permutation_sym P1)); now right).
  exists (fst m1), (fst m2). split; [reflexivity|].
  destruct (Hbase _ I1) as [A1 C1], (Hbase _ I2) as [A2 C2].
  repeat split; auto.
  - intros E. apply (N1 m2 I2r). now symmetry.
  - intros w Hw. destruct (Hcov w Hw) as (e & Ie & Ee).
    rewrite <- (count_comp _ _ l Ee), <- C1.
    destruct (Hbase _ Ie) as [_ <-]. now apply L1.
  - intros w Hw Nw. destruct (Hcov w Hw) as (e & Ie & Ee).
    rewrite <- (count_comp _ _ l Ee), <- C2.
    destruct (Hbase _ Ie) as [_ <-]. apply L2.
    apply (Permutation_in _ P1) in Ie. destruct Ie as [<-|Ie]; [|exact Ie].
    exfalso. apply Nw. now symmetry.
Qed.

Lemma py_min_two a b : py_min [a; b] = Some (if Qltb b a then b else a).
Proof. reflexivity. Qed.

Lemma py_max_two a b : py_max [a; b] = Some (if Qltb a b then b else a).
Proof. reflexivity. Qed.

Lemma Qltb_lt a b : Qltb a b = true <-> a < b.
Proof.
  unfold Qltb. rewrite negb_true_iff. split.
  - intros H. apply Qnot_le_lt. intros L. apply Qle_bool_iff in L. congruence.
  - intros H. destruct (Qle_bool b a) eqn:E; [|reflexivity].
    apply Qle_bool_iff in E. exfalso. now apply (Qlt_not_le a b).
Qed.

Lemma Qltb_ge a b : Qltb a b = false <-> b <= a.
Proof.
  unfold Qltb. rewrite negb_false_iff. apply Qle_bool_iff.
Qed.

Lemma min_two_Qmin a b : (if Qltb b a then b else a) == Qmin a b.
Proof.
  destruct (Qltb b a) eqn:E.
  - apply Qltb_lt in E. symmetry. apply Q.min_r. now apply Qlt_le_weak.
  - apply Qltb_ge in E. symmetry. now apply Q.min_l.
Qed.

Lemma max_two_Qmax a b : (if Qltb a b then b else a) == Qmax a b.
Proof.
  destruct (Qltb a b) eqn:E.
  - apply Qltb_lt in E. symmetry. apply Q.max_r. now apply Qlt_le_weak.
  - apply Qltb_ge in E. symmetry. now apply Q.max_l.
Qed.

Lemma nlargest_In n : forall s e, In e (Pd.nlargest n s) -> In e s.
Proof.
  induction n as [|n IH]; simpl; intros s e H; [contradiction|].
  assert (S := pop_largest_spec s).
  destruct (Pd.pop_largest s) as [[m rest]|]; [|contradiction].
  destruct S as [P _]. apply (Permutation_in _ (Permutation_sym P)).
  destruct H as [<-|H]; [now left | right; eauto].
Qed.

Lemma two_most_frequent_In l v : In v (two_most_frequent l) -> In v l.
Proof.
  unfold two_most_frequent, Pd.index. intros H.
  apply in_map_iff in H. destruct H as (e & <- & H).
  apply nlargest_In in H. apply (Permutation_in _ (value_counts_perm l)) in H.
  apply in_map_iff in H. destruct H as (w & <- & Hw). now apply unique_In.
Qed.

Lemma two_most_frequent_nonempty l :
  l <> [] -> two_most_frequent l <> [].
Proof.
  intros N. unfold two_most_frequent. simpl.
  assert (S := pop_largest_spec (Pd.value_counts l)).
  destruct (Pd.pop_largest (Pd.value_counts l)) as [[m rest]|]; [discriminate|].
  exfalso. assert (P := value_counts_perm l). rewrite S in P.
  apply Permutation_nil in P. destruct l; [now apply N | discriminate].
Qed.

Lemma fold_pick_In (pick : Q -> Q -> bool) l : forall v,
  In (fold_left (fun m w => if pick m w then w else m) l v) (v :: l).
Proof.
  induction l as [|a l IH]; simpl; intros v; [now left|].
  destruct (IH (if pick v a then a else v)) as [H|H]; [|now right; right].
  rewrite <- H. destruct (pick v a); auto.
Qed.

Lemma py_max_In l m : py_max l = Some m -> In m l.
Proof.
  destruct l as [|v l]; simpl; [discriminate|]. intros [= <-].
  apply (fold_pick_In (fun m w => Qltb m w)).
Qed.

Lemma py_min_In l m : py_min l = Some m -> In m l.
Proof.
  destruct l as [|v l]; simpl; [discriminate|]. intros [= <-].
  apply (fold_pick_In (fun m w => Qltb w m)).
Qed.

Lemma py_max_total l : l <> [] -> exists m, py_max l = Some m.
Proof. destruct l; [easy|]. simpl. eauto. Qed.

Lemma py_min_total l : l <> [] -> exists m, py_min l = Some m.
Proof. destruct l; [easy|]. simpl. eauto. Qed.

Lemma map_nonempty {A B} (f : A -> B) l : l <> [] -> map f l <> [].
Proof. destruct l; [easy | discriminate]. Qed.

(** The columns are found as soon as the frame has a date, a credit
    and a debit; the booking column is then the left edge of a date. *)
Lemma locate_columns_total df :
  date_entries df <> [] -> amount_entries_credit df <> [] -> amount_entries_debit df <> [] ->
  exists lay, locate_columns df = ([], inr lay)
    /\ exists f, In f df /\ is_date f = true /\ x0 f = booking_x0 lay.
Proof.
  intros Hd Hc Hb. unfold locate_columns.
  fold (date_entries df) (amount_entries_credit df) (amount_entries_debit df).
  destruct (py_max_total _ (two_most_frequent_nonempty _ (map_nonempty x1 _ Hc))) as (c & ->).
  destruct (py_max_total _ (two_most_frequent_nonempty _ (map_nonempty x1 _ Hb))) as (d & ->).
  destruct (py_min_total _ (two_most_frequent_nonempty _ (map_nonempty x0 _ Hd))) as (b & Eb).
  destruct (py_max_total _ (two_most_frequent_nonempty _ (map_nonempty x0 _ Hd))) as (v & ->).
  rewrite Eb. simpl. eexists. split; [reflexivity|]. simpl.
  apply py_min_In, two_most_frequent_In, in_map_iff in Eb.
  destruct Eb as (f & E & Hf). apply filter_In in Hf. exists f. tauto.
Qed.

Lemma unique_Z_In (l : list Z) v : In v l -> In v (Pd.unique Z.eqb l).
Proof.
  induction l as [|a l IH]; simpl; [easy|].
  destruct (Z.eq_dec v a) as [->|N]; [now left|].
  intros [E|H]; [congruence|]. right. apply filter_In. split; [auto|].
  apply negb_true_iff, Z.eqb_neq, N.
Qed.

Lemma Qeq_bool_refl_true (a : Q) : Qeq_bool a a = true.
Proof. apply Qeq_bool_iff. reflexivity. Qed.

(** A date at the booking column makes a transaction. *)
Lemma extract_transactions_nonempty {lowercase : Lower} cats lay df f :
  In f df -> is_date f = true -> x0 f = booking_x0 lay ->
  extract_transactions cats lay df <> [].
Proof.
  intros Hf Hd Hx E.
  assert (H : In (build_transaction cats lay (page_frame df (page f)) f)
                 (extract_transactions cats lay df)).
  { apply extract_transactions_In. exists (page f), f. repeat split.
    - apply unique_Z_In. now apply in_map.
    - apply booking_dates_In. repeat split; [now apply page_frame_In | | exact Hd].
      rewrite Hx. apply Qeq_bool_refl_true. }
  now rewrite E in H.
Qed.

(** *** [extract_balance] *)

Lemma existsb_filter_nil {A} (p : A -> bool) l : existsb p l = false <-> filter p l = [].
Proof.
  induction l as [|a l IH]; simpl; [tauto|].
  destruct (p a); simpl; [split; discriminate | exact IH].
Qed.

Lemma balance_loop_total df rows : forall sb eb,
  exists sb' eb', balance_loop df rows sb eb = ([], inr (sb', eb'))
    /\ ((forall e, In e rows -> old_balance_row df e = false) -> sb' = sb).
Proof.
  induction rows as [|e rows IH]; intros sb eb; simpl.
  - exists sb, eb. auto.
  - assert (Keep : forall sb1 eb1, sb1 = sb ->
      exists sb' eb', balance_loop df rows sb1 eb1 = ([], inr (sb', eb'))
        /\ ((forall e0, e = e0 \/ In e0 rows -> old_balance_row df e0 = false) -> sb' = sb)).
    { intros sb1 eb1 ->. destruct (IH sb eb1) as (sb' & eb' & E & K).
      exists sb', eb'. split; [exact E|]. intros H. apply K. intros; apply H; now right. }
    destruct (filter (aligned_amount e) df) as [|first rest] eqn:Ef; [now apply Keep|].
    destruct (search AMOUNT_PATTERN (text first)) as [m|] eqn:Em; [|now apply Keep].
    destruct (amount_pattern_groups _ _ _ Em) as (c & w & _ & _ & G2 & Mw).
    destruct (float_of_amount _ Mw) as (q & Eq & _). rewrite G2, Eq.
    cbn [lift]. rewrite bind_ret_l.
    destruct (mentions "Alter Saldo" (filter (nearby e) df)) eqn:Es.
    + destruct (IH (Some (if String.eqb (group 1 m) "-" then - q else q)) eb)
        as (sb' & eb' & E & K).
      exists sb', eb'. split; [exact E|]. intros H. exfalso.
      specialize (H e (or_introl eq_refl)). unfold old_balance_row in H.
      rewrite Es in H. simpl in H. apply existsb_filter_nil in H. congruence.
    + destruct (mentions "Neuer Saldo" (filter (nearby e) df)); now apply Keep.
Qed.

(** [extract_balance] returns on every frame but the empty one, and
    without a start balance when no anchor of it exists. *)
Lemma extract_balance_total df :
  df <> [] ->
  exists sb eb, extract_balance df = ([], inr (sb, eb))
    /\ (no_start_anchor df -> sb = None).
Proof.
  intros N. unfold extract_balance. destruct df as [|f0 df0]; [easy|].
  generalize (f0 :: df0) as df. intros df.
  destruct (balance_loop_total df (filter (fun f => is_eur (text f)) df) None None)
    as (sb & eb & E & K).
  exists sb, eb. split; [exact E|]. intros H. apply K.
  intros e He. apply filter_In in He. destruct He as [He Eur].
  specialize (H e He). unfold start_anchor in H. now rewrite Eur in H.
Qed.

(** *** [reconcile] and [extract_data] return *)

Lemma validate_end_total e txs :
  txs <> [] -> exists out, validate_end e txs = (out, inr tt).
Proof.
  intros N. unfold validate_end. destruct e as [e|]; [|now exists []].
  destruct (rev txs) as [|last l] eqn:E.
  - exfalso. apply N. apply (f_equal (@rev _)) in E. now rewrite rev_involutive in E.
  - destruct (exceeds_tolerance _ _); eexists; reflexivity.
Qed.

Lemma reconcile_total sort B e rows :
  (forall l, Permutation (sort l) l) ->
  rows <> [] ->
  (forall r, In r rows -> numeric_row r /\ to_datetime (booking_date r) <> None) ->
  exists out txs, reconcile sort B e rows = (out, inr txs) /\ txs <> [].
Proof.
  intros P N H. unfold reconcile. destruct rows as [|r0 rows0]; [easy|].
  generalize dependent (r0 :: rows0). intros rows N H.
  destruct (mapM_total add_date rows) as (rd & E1).
  { intros r Hr. destruct (H r Hr) as [_ D].
    destruct (to_datetime (booking_date r)) as [d|] eqn:Ed; [|easy].
    exists (r, d). unfold add_date. now rewrite Ed. }
  assert (F1 := E1). apply (mapM_inr add_date (fun r x => fst x = r)) in F1.
  2:{ intros r o x Hx. apply add_date_inr in Hx. destruct Hx as [-> (d & _ & ->)]. auto. }
  destruct F1 as [_ F1].
  destruct (mapM_total add_amount rd) as (dated & E2).
  { intros x Hx.
    assert (Hr : In (fst x) rows).
    { clear - F1 Hx. induction F1 as [|r y l l' Ey F IH]; [easy|].
      destruct Hx as [<-|Hx]; [left; now rewrite Ey | right; auto]. }
    destruct (H _ Hr) as [((c & Ec) & (d & Ed)) _].
    eexists. unfold add_amount, numeric_cell. fold (cell_value (credit (fst x))).
    fold (cell_value (debit (fst x))). rewrite Ec, Ed. reflexivity. }
  rewrite (bind_pure rd _ _ E1), (bind_pure dated _ _ E2).
  assert (L : List.length dated = List.length rows).
  { assert (F2 := E2). apply (mapM_inr add_amount (fun _ _ => True)) in F2.
    2:{ intros x o t Ht. apply add_amount_inr in Ht. tauto. }
    destruct F2 as [_ F2]. apply Forall2_length in F1, F2. lia. }
  assert (Nt : add_balance B (sort dated) <> []).
  { intros E0. apply (f_equal (@List.length _)) in E0.
    rewrite add_balance_length, (Permutation_length (P dated)), L in E0.
    destruct rows; [easy | discriminate]. }
  destruct (validate_end_total e _ Nt) as (out & Ev).
  exists out, (add_balance B (sort dated)). split; [|exact Nt].
  unfold bind. rewrite Ev. unfold ret. now rewrite app_nil_r.
Qed.

Lemma extract_data_total {lowercase : Lower} sort cats df :
  (forall l, Permutation (sort l) l) ->
  date_entries df <> [] -> amount_entries_credit df <> [] -> amount_entries_debit df <> [] ->
  (forall f, In f df -> is_date f = true -> to_datetime (clean_date f) <> None) ->
  exists out txs, extract_data sort cats df = (out, inr txs) /\ txs <> []
    /\ (no_start_anchor df -> In NoStartBalance out).
Proof.
  intros P Hd Hc Hb Hparse.
  assert (N : df <> []) by (intros ->; now apply Hd).
  destruct (extract_balance_total df N) as (sb & eb & Eb & Hsb).
  destruct (locate_columns_total df Hd Hc Hb) as (lay & El & f & Hf & Df & Xf).
  destruct (reconcile_total sort (match sb with Some b => b | None => 0 end) eb
              (extract_transactions cats lay df) P) as (out & txs & Er & Nt).
  { now apply (extract_transactions_nonempty cats lay df f). }
  { intros r Hr. apply extract_transactions_In in Hr.
    destruct Hr as (p & date_row & _ & Hrow & ->).
    split; [apply build_transaction_numeric|].
    rewrite build_transaction_booking_date.
    apply booking_dates_In in Hrow. destruct Hrow as (Hin & _ & Hdate).
    apply page_frame_In in Hin. now apply Hparse. }
  unfold extract_data. rewrite (bind_pure (sb, eb) _ _ Eb). cbn [fst snd].
  destruct sb as [b|].
  - rewrite bind_ret_l, (bind_pure lay _ _ El), Er.
    exists out, txs. repeat split; auto. intros H. now discriminate (Hsb H).
  - exists (NoStartBalance :: out), txs. repeat split; auto.
    + unfold bind at 1. cbn. rewrite (bind_pure lay _ _ El), Er. reflexivity.
    + intros _. now left.
Qed.

Lemma locate_columns_inr df out lay :
  locate_columns df = (out, inr lay) -> out = [].
Proof.
  unfold locate_columns. intros H.
  apply bind_inr in H. destruct H as (o1 & c & o2 & E1 & H & ->).
  apply bind_inr in H. destruct H as (o3 & d & o4 & E2 & H & ->).
  apply bind_inr in H. destruct H as (o5 & b & o6 & E3 & H & ->).
  apply bind_inr in H. destruct H as (o7 & v & o8 & E4 & H & ->).
  apply lift_inr in E1, E2, E3, E4.
  destruct E1 as [-> _], E2 as [-> _], E3 as [-> _], E4 as [-> _].
  now injection H as <- _.
Qed.

(** The stages of a run of [extract_data] that returns. *)
Lemma extract_data_inr {lowercase : Lower} sort cats df out txs :
  extract_data sort cats df = (out, inr txs) ->
  exists sb eb lay out',
    extract_balance df = ([], inr (sb, eb))
    /\ locate_columns df = ([], inr lay)
    /\ reconcile sort (start_or_zero sb) eb (extract_transactions cats lay df)
       = (out', inr txs)
    /\ out = start_warning sb ++ out'.
Proof.
  unfold extract_data. intros H.
  apply bind_inr in H. destruct H as (o1 & [sb eb] & o2 & Eb & H & ->).
  assert (N : df <> []) by (intros ->; discriminate).
  destruct (extract_balance_total df N) as (sb' & eb' & Eb' & _).
  rewrite Eb' in Eb. injection Eb as <- <- <-.
  apply bind_inr in H. destruct H as (o3 & B & o4 & Es & H & ->).
  apply bind_inr in H. destruct H as (o5 & lay & o6 & El & H & ->).
  assert (o5 = []) as -> by (eapply locate_columns_inr; eauto).
  exists sb', eb', lay, o6. cbn [fst snd] in *.
  destruct sb' as [b|]; cbn in Es; injection Es as <- <-; auto.
Qed.

Lemma dated_from_fun rows : forall l l',
  Forall2 dated_from rows l -> Forall2 dated_from rows l' -> l = l'.
Proof.
  induction rows as [|r rows IH]; intros l l' H H'; inversion H; inversion H'; subst;
    [reflexivity|].
  f_equal; [|now apply IH].
  repeat match goal with
         | H : dated_from _ _ |- _ => destruct H as (? & ? & ? & ? & ? & ? & ->)
         end.
  congruence.
Qed.

Lemma Forall2_In_r {A B} (P : A -> B -> Prop) l l' b :
  Forall2 P l l' -> In b l' -> exists a, In a l /\ P a b.
Proof.
  induction 1 as [|x y l l' Hxy F IH]; [easy|].
  intros [<-|H]; [exists x; split; [now left | exact Hxy]|].
  destruct (IH H) as (a & Ha & Pa). exists a. split; [now right | exact Pa].
Qed.

Lemma add_balance_In B l t :
  In t (add_balance B l) -> exists d c, In d l /\ t = with_balance B d c.
Proof.
  intros H. apply In_nth_error in H. destruct H as (i & H).
  apply add_balance_nth in H. destruct H as (d & c & Hd & _ & ->).
  exists d, c. split; [now apply nth_error_In in Hd | reflexivity].
Qed.

Lemma last_nth_error {A} (l : list A) (t : A) :
  hd_error (rev l) = Some t ->
  exists n, List.length l = S n /\ nth_error l n = Some t.
Proof.
  intros H. destruct (rev l) as [|x r] eqn:E; [discriminate|]. injection H as ->.
  apply (f_equal (@rev _)) in E. rewrite rev_involutive in E. simpl in E. subst l.
  exists (List.length (rev r)). split.
  - rewrite length_app. simpl. lia.
  - rewrite nth_error_app2 by lia. now rewrite Nat.sub_diag.
Qed.

(** *** Sorts that meet the contract *)

Lemma date_compare_antisym a b : date_compare b a = CompOpp (date_compare a b).
Proof.
  unfold date_compare.
  rewrite (Z.compare_antisym (d_year a) (d_year b)).
  rewrite (Z.compare_antisym (d_month a) (d_month b)).
  rewrite (Z.compare_antisym (d_day a) (d_day b)).
  destruct (d_year a ?= d_year b)%Z; simpl; try reflexivity.
  destruct (d_month a ?= d_month b)%Z; simpl; reflexivity.
Qed.

Lemma date_leb_total a b : date_leb a b = false -> date_leb b a = true.
Proof.
  unfold date_leb. rewrite (date_compare_antisym a b).
  destruct (date_compare a b); simpl; congruence.
Qed.

Lemma insert_date_perm t l : Permutation (insert_date t l) (t :: l).
Proof.
  induction l as [|u l IH]; simpl; [reflexivity|].
  destruct (date_leb _ _); [reflexivity|]. rewrite IH. apply perm_swap.
Qed.

Lemma insert_date_sorted t l :
  Sorted date_le (map dt_date l) -> Sorted date_le (map dt_date (insert_date t l)).
Proof.
  induction l as [|u l IH]; simpl; intros S.
  - repeat constructor.
  - destruct (date_leb (dt_date t) (dt_date u)) eqn:E; simpl.
    + constructor; [exact S | constructor; exact E].
    + inversion S as [|? ? S' Hd]; subst. constructor; [now apply IH|].
      destruct l as [|v l]; simpl.
      * constructor. now apply date_leb_total.
      * destruct (date_leb (dt_date t) (dt_date v)); simpl; constructor.
        -- now apply date_leb_total.
        -- now inversion Hd.
Qed.

Lemma stable_sort_contract : sort_contract stable_sort.
Proof.
  split; intros l; induction l as [|t l IH]; simpl; try constructor.
  - now rewrite insert_date_perm, IH.
  - now apply insert_date_sorted.
Qed.

(** *** The stages of [extract_data], put together *)

(** The end balance decides what is printed, not what is returned. *)
Lemma reconcile_without_end sort B e rows out txs :
  reconcile sort B e rows = (out, inr txs) ->
  reconcile sort B None rows = ([], inr txs)
  /\ validate_end e txs = (out, inr tt).
Proof.
  unfold reconcile. destruct rows as [|r0 rows0]; [discriminate|].
  generalize (r0 :: rows0) as rows. intros rows H.
  apply bind_inr in H. destruct H as (o1 & rd & o2 & E1 & H & ->).
  apply bind_inr in H. destruct H as (o3 & dated & o4 & E2 & H & ->).
  apply bind_inr in H. destruct H as (o5 & [] & o6 & E3 & H & ->).
  injection H as <- <-.
  assert (o1 = []) as ->.
  { apply (mapM_inr add_date (fun _ _ => True)) in E1; [tauto|].
    intros ? ? ? Hx. apply add_date_inr in Hx. tauto. }
  assert (o3 = []) as ->.
  { apply (mapM_inr add_amount (fun _ _ => True)) in E2; [tauto|].
    intros ? ? ? Hx. apply add_amount_inr in Hx. tauto. }
  rewrite (bind_pure rd _ _ E1), (bind_pure dated _ _ E2). simpl.
  split; [reflexivity | now rewrite app_nil_r].
Qed.

Lemma Forall2_In_l {A B} (P : A -> B -> Prop) l l' a :
  Forall2 P l l' -> In a l -> exists b, In b l' /\ P a b.
Proof.
  induction 1 as [|x y l l' Hxy F IH]; [easy|].
  intros [<-|H]; [exists y; split; [now left | exact Hxy]|].
  destruct (IH H) as (b & Hb & Pb). exists b. split; [now right | exact Pb].
Qed.

Lemma extract_data_compose {lowercase : Lower} sort cats df sb eb lay out txs :
  extract_balance df = ([], inr (sb, eb)) ->
  locate_columns df = ([], inr lay) ->
  reconcile sort (start_or_zero sb) eb (extract_transactions cats lay df)
  = (out, inr txs) ->
  extract_data sort cats df = (start_warning sb ++ out, inr txs).
Proof.
  intros Eb El Er. unfold extract_data.
  rewrite (bind_pure (sb, eb) _ _ Eb). cbn [fst snd].
  destruct sb as [b|]; cbn [start_or_zero start_warning] in *.
  - now rewrite bind_ret_l, (bind_pure lay _ _ El), Er.
  - unfold bind at 1. cbn. now rewrite (bind_pure lay _ _ El), Er.
Qed.

(** *** The categorizer *)

Lemma prefix_spec k s : prefix k s = true <-> exists post, s = (k ++ post)%string.
Proof.
  revert s; induction k as [|a k IH]; intros s.
  - split; [intros _; now exists s | intros _; now destruct s].
  - destruct s as [|b s]; cbn [prefix append].
    + split; [discriminate | intros (post & E); discriminate].
    + destruct (ascii_dec a b) as [->|N].
      * split.
        -- intros H. apply IH in H. destruct H as (post & ->). now exists post.
        -- intros (post & E). apply IH. exists post. congruence.
      * split; [discriminate | intros (post & E); congruence].
Qed.

(** [k in s]: [s] is [k] between two strings. *)
Lemma contains_spec k s :
  Str.contains k s = true <-> exists pre post, s = (pre ++ k ++ post)%string.
Proof.
  induction s as [|c s IH]; cbn [Str.contains].
  - destruct (prefix k EmptyString) eqn:E.
    + split; [|reflexivity]. intros _. apply prefix_spec in E. destruct E as (post & E).
      now exists EmptyString, post.
    + split; [discriminate|]. intros (pre & post & H).
      destruct pre; [|discriminate]. cbn [append] in H.
      assert (P : prefix k EmptyString = true) by (apply prefix_spec; eauto). congruence.
  - destruct (prefix k (String c s)) eqn:E.
    + split; [|reflexivity]. intros _. apply prefix_spec in E. destruct E as (post & E).
      now exists EmptyString, post.
    + rewrite IH. split.
      * intros (pre & post & ->). now exists (String c pre), post.
      * intros (pre & post & H). destruct pre as [|d pre]; cbn [append] in H.
        -- assert (P : prefix k (String c s) = true) by (apply prefix_spec; eauto).
           congruence.
        -- injection H as _ ->. eauto.
Qed.

Lemma matches_category_spec text_lower rule :
  matches_category text_lower rule = true <-> keyword_hit text_lower rule.
Proof.
  unfold matches_category, keyword_hit. rewrite existsb_exists. split.
  - intros (k & Hk & C). apply contains_spec in C. destruct C as (pre & post & E).
    now exists k, pre, post.
  - intros (k & pre & post & Hk & E). exists k. split; [exact Hk|].
    apply contains_spec. eauto.
Qed.

Lemma find_first {A} (p : A -> bool) l :
  match find p l with
  | Some x => exists before after,
      l = before ++ x :: after /\ p x = true /\ forall y, In y before -> p y = false
  | None => forall y, In y l -> p y = false
  end.
Proof.
  induction l as [|a l IH]; simpl; [easy|].
  destruct (p a) eqn:E.
  - exists [], l. repeat split; [exact E | intros y []].
  - destruct (find p l) as [x|].
    + destruct IH as (before & after & -> & Px & Hb).
      exists (a :: before), after. repeat split; auto.
      intros y [<-|Hy]; auto.
    + intros y [<-|Hy]; auto.
Qed.

(** *** Failures, and the column test of the row loop *)

Lemma bind_inl {A B} (c : M A) (k : A -> M B) e :
  outcome c = inl e -> outcome (bind c k) = inl e.
Proof. destruct c as [o [e'|a]]; simpl; intros H; [now injection H as -> | discriminate]. Qed.

(** The column test is one-sided: it bounds how far right of a column
    the right edge may lie, and nothing on the left. *)
Lemma in_amount_column_spec lay entry :
  in_amount_column lay entry = true <->
  x1 entry - amount_x1_credit lay < 10 \/ x1 entry - amount_x1_debit lay < 10.
Proof. unfold in_amount_column. now rewrite orb_true_iff, !Qltb_lt. Qed.

(** *** The ways of [extract_data] *)

Lemma mapM_raise {A B} (f : A -> M B) e l :
  (forall a, In a l -> (exists b, f a = ([], inr b)) \/ outcome (f a) = inl e) ->
  (exists a, In a l /\ outcome (f a) = inl e) ->
  outcome (mapM f l) = inl e.
Proof.
  induction l as [|a l IH]; intros H (x & Hx & Ex); [destruct Hx|].
  cbn [mapM]. destruct (H a (or_introl eq_refl)) as [(b & Eb)|Ea].
  - rewrite (bind_pure b _ _ Eb). apply bind_inl. apply IH.
    + intros y Hy. apply H. now right.
    + destruct Hx as [->|Hx]; [|now exists x].
      rewrite Eb in Ex. discriminate.
  - now apply bind_inl.
Qed.

Lemma add_date_cases r :
  (exists x, add_date r = ([], inr x))
  \/ outcome (add_date r) = inl (ValueError "to_datetime").
Proof.
  unfold add_date. destruct (to_datetime (booking_date r)) as [d|].
  - left. now exists (r, d).
  - now right.
Qed.

Lemma reconcile_raise sort B e rows r :
  In r rows -> to_datetime (booking_date r) = None ->
  outcome (reconcile sort B e rows) = inl (ValueError "to_datetime").
Proof.
  intros Hr E. unfold reconcile. destruct rows as [|r0 rows0]; [destruct Hr|].
  apply bind_inl. apply mapM_raise.
  - intros a _. apply add_date_cases.
  - exists r. split; [exact Hr|]. unfold add_date. now rewrite E.
Qed.

Lemma locate_columns_cases df :
  (amount_entries_credit df <> [] /\ amount_entries_debit df <> [] /\ date_entries df <> [])
  \/ (outcome (locate_columns df) = inl empty_sequence
      /\ (amount_entries_credit df = [] \/ amount_entries_debit df = []
          \/ date_entries df = [])).
Proof.
  destruct (amount_entries_credit df) as [|c0 cs] eqn:Ec.
  { right. split; [|now left]. unfold locate_columns.
    fold (amount_entries_credit df). rewrite Ec. reflexivity. }
  assert (Nc : amount_entries_credit df <> []) by (rewrite Ec; discriminate).
  destruct (py_max_total _ (two_most_frequent_nonempty _ (map_nonempty x1 _ Nc))) as (c & Pc).
  destruct (amount_entries_debit df) as [|d0 ds] eqn:Ed.
  { right. split; [|now right; left]. unfold locate_columns.
    fold (amount_entries_credit df) (amount_entries_debit df). rewrite Pc, Ed. reflexivity. }
  assert (Nd : amount_entries_debit df <> []) by (rewrite Ed; discriminate).
  destruct (py_max_total _ (two_most_frequent_nonempty _ (map_nonempty x1 _ Nd))) as (d & Pd).
  destruct (date_entries df) as [|b0 bs] eqn:Eb.
  { right. split; [|now right; right]. unfold locate_columns.
    fold (amount_entries_credit df) (amount_entries_debit df) (date_entries df).
    rewrite Pc, Pd, Eb. reflexivity. }
  left. repeat split; discriminate.
Qed.

Lemma extract_data_outcome {lowercase : Lower} sort cats df :
  df <> [] ->
  exists sb eb,
    extract_balance df = ([], inr (sb, eb))
    /\ outcome (extract_data sort cats df)
       = outcome (lay <- locate_columns df ;;
                  reconcile sort (start_or_zero sb) eb (extract_transactions cats lay df)).
Proof.
  intros N. destruct (extract_balance_total df N) as (sb & eb & Eb & _).
  exists sb, eb. split; [exact Eb|].
  unfold extract_data. rewrite (bind_pure (sb, eb) _ _ Eb). cbn [fst snd].
  destruct sb as [b|].
  - now rewrite bind_ret_l.
  - cbn [start_or_zero].
    change (print NoStartBalance ;;; ret 0) with (([NoStartBalance], inr 0) : M Q).
    unfold bind at 1.
    destruct (bind (locate_columns df) _) as [o r]. reflexivity.
Qed.

Lemma build_transaction_clean {lowercase : Lower} cats lay page_df date_row :
  booking_date (build_transaction cats lay page_df date_row) = clean_date date_row.
Proof. apply build_transaction_booking_date. Qed.

Lemma booking_box_row {lowercase : Lower} cats lay df f :
  In f df -> booking_box lay f ->
  In (build_transaction cats lay (page_frame df (page f)) f)
     (extract_transactions cats lay df).
Proof.
  intros Hf [Hx Hd]. apply extract_transactions_In. exists (page f), f. repeat split.
  - apply unique_Z_In. now apply in_map.
  - apply booking_dates_In. repeat split; [now apply page_frame_In | exact Hx | exact Hd].
Qed.

Lemma row_booking_box {lowercase : Lower} cats lay df r :
  In r (extract_transactions cats lay df) ->
  exists f, In f df /\ booking_box lay f
    /\ r = build_transaction cats lay (page_frame df (page f)) f.
Proof.
  intros Hr. apply extract_transactions_In in Hr.
  destruct Hr as (p & f & _ & Hf & ->).
  apply booking_dates_In in Hf. destruct Hf as (Hin & Hx & Hd).
  apply page_frame_In in Hin. destruct Hin as [Hin <-].
  exists f. repeat split; assumption.
Qed.

(** The four ways of a run. *)
Lemma extract_data_cases {lowercase : Lower} sort cats df :
  (forall l, Permutation (sort l) l) ->
  (df = [] /\ outcome (extract_data sort cats df) = inl (KeyError "text"))
  \/ (df <> []
      /\ (amount_entries_credit df = [] \/ amount_entries_debit df = []
          \/ date_entries df = [])
      /\ outcome (extract_data sort cats df) = inl empty_sequence)
  \/ (exists lay f,
        locate_columns df = ([], inr lay) /\ In f df /\ booking_box lay f
        /\ to_datetime (clean_date f) = None
        /\ outcome (extract_data sort cats df) = inl (ValueError "to_datetime"))
  \/ (amount_entries_credit df <> [] /\ amount_entries_debit df <> []
      /\ date_entries df <> []
      /\ exists lay,
           locate_columns df = ([], inr lay)
           /\ (forall f, In f df -> booking_box lay f ->
                 to_datetime (clean_date f) <> None)
           /\ exists out txs, extract_data sort cats df = (out, inr txs) /\ txs <> []).
Proof.
  intros P. destruct df as [|f0 df0] eqn:Edf; [left; split; reflexivity|].
  rewrite <- Edf in *. assert (N : df <> []) by (rewrite Edf; discriminate).
  clear Edf. right.
  destruct (extract_data_outcome sort cats df N) as (sb & eb & Eb & Eo).
  destruct (locate_columns_cases df) as [(Hc & Hd & Hb)|[El Hm]].
  2:{ left. split; [exact N|]. split; [exact Hm|]. rewrite Eo. now apply bind_inl. }
  right.
  destruct (locate_columns_total df Hb Hc Hd) as (lay & El & f & Hf & Df & Xf).
  rewrite (bind_pure lay _ _ El) in Eo.
  set (rows := extract_transactions cats lay df) in *.
  set (bad := fun r => match to_datetime (booking_date r) with
                       | None => true | Some _ => false end).
  destruct (existsb bad rows) eqn:Ebad.
  - left. apply existsb_exists in Ebad. destruct Ebad as (r & Hr & Br).
    assert (Er : to_datetime (booking_date r) = None).
    { unfold bad in Br. destruct (to_datetime (booking_date r)); [discriminate | reflexivity]. }
    destruct (row_booking_box cats lay df r Hr) as (g & Hg & Bg & Eg).
    exists lay, g. repeat split; try assumption; try apply Bg.
    + rewrite <- (build_transaction_clean cats lay (page_frame df (page g)) g), <- Eg.
      exact Er.
    + rewrite Eo. now apply (reconcile_raise sort _ _ rows r).
  - right. repeat split; try assumption. exists lay. split; [exact El|].
    assert (Good : forall r, In r rows -> to_datetime (booking_date r) <> None).
    { intros r Hr E. assert (X : existsb bad rows = true).
      { apply existsb_exists. exists r. split; [exact Hr|]. unfold bad. now rewrite E. }
      rewrite X in Ebad. discriminate. }
    split.
    + intros g Hg Bg.
      rewrite <- (build_transaction_clean cats lay (page_frame df (page g)) g).
      apply Good. now apply booking_box_row.
    + destruct (reconcile_total sort (start_or_zero sb) eb rows P) as (out & txs & Er & Nt).
      { apply (extract_transactions_nonempty cats lay df f Hf Df Xf). }
      { intros r Hr. split; [|now apply Good].
        destruct (row_booking_box cats lay df r Hr) as (g & _ & _ & ->).
        apply build_transaction_numeric. }
      exists (start_warning sb ++ out), txs. split; [|exact Nt].
      now apply (extract_data_compose sort cats df sb eb lay).
Qed.

(* ================================================================= *)
(** ** The claims of the specification *)

(** Claim C1. On every run that returns, the amount of each row is its
    credit plus its debit, an empty cell counting for zero, rounded to
    two places; the rows are in date order; and the balance of the
    [i]-th row is the start balance (zero when none was located) plus
    the sum of the first [i] amounts, rounded to two places. The balance
    of the last row is the start balance plus the sum of all amounts,
    rounded. *)
Theorem C1_running_balance {lowercase : Lower} sort cats df out txs :
  sort_contract sort ->
  extract_data sort cats df = (out, inr txs) ->
  exists sb eb,
    extract_balance df = ([], inr (sb, eb))
    /\ (forall t, In t txs -> amount_rule t)
    /\ Sorted date_le (map t_date txs)
    /\ (forall i t, nth_error txs i = Some t ->
          t_balance t
          = round2 (start_or_zero sb + Qsum (firstn (S i) (map t_amount txs))))
    /\ (forall t, hd_error (rev txs) = Some t ->
          t_balance t = round2 (start_or_zero sb + Qsum (map t_amount txs))).
Proof.
  intros [P S] H. apply extract_data_inr in H.
  destruct H as (sb & eb & lay & out' & Eb & _ & Er & _).
  apply reconcile_inr in Er. destruct Er as (dated & F & -> & _).
  exists sb, eb. split; [exact Eb|]. split; [|split; [|split]].
  - intros t Ht. apply add_balance_In in Ht. destruct Ht as (d & c & Hd & ->).
    apply (Permutation_in _ (P dated)) in Hd.
    destruct (Forall2_In_r _ _ _ _ F Hd) as (r & _ & dt & c' & d' & _ & Ec & Ed & ->).
    exists c', d'. auto.
  - rewrite add_balance_dates. apply S.
  - intros i t Ht. now apply add_balance_running.
  - intros t Ht. apply last_nth_error in Ht. destruct Ht as (n & L & Ht).
    apply add_balance_running in Ht. rewrite Ht. do 3 f_equal.
    rewrite <- L, <- (length_map t_amount). apply firstn_all.
Qed.

Lemma C1_witness :
  sort_contract stable_sort
  /\ extract_data stable_sort shopping statement = ([], inr statement_transactions)
  /\ exists sb eb,
    extract_balance statement = ([], inr (sb, eb))
    /\ (forall t, In t statement_transactions -> amount_rule t)
    /\ Sorted date_le (map t_date statement_transactions)
    /\ (forall i t, nth_error statement_transactions i = Some t ->
          t_balance t
          = round2 (start_or_zero sb
                    + Qsum (firstn (S i) (map t_amount statement_transactions))))
    /\ (forall t, hd_error (rev statement_transactions) = Some t ->
          t_balance t
          = round2 (start_or_zero sb + Qsum (map t_amount statement_transactions))).
Proof.
  split; [exact stable_sort_contract|]. split; [vm_compute; reflexivity|].
  apply (C1_running_balance stable_sort shopping statement []).
  - exact stable_sort_contract.
  - vm_compute; reflexivity.
Defined.

(** Claim C2, on the frame [quoted_amount]. A box reading [- 5,00]
    whose right edge lies 200 units left of the credit column and 100
    units left of the debit column passes the column test of the loop
    and becomes the debit of its row: the test is [x1 - column < 10],
    not a distance. *)
Theorem C2_amount_left_of_columns :
  exists lay entry t rest,
    locate_columns quoted_amount = ([], inr lay)
    /\ In entry quoted_amount
    /\ text entry = "- 5,00"
    /\ str_contains AMOUNT_PATTERN (text entry) = true
    /\ 10 <= Qabs (x1 entry - amount_x1_credit lay)
    /\ 10 <= Qabs (x1 entry - amount_x1_debit lay)
    /\ in_amount_column lay entry = true
    /\ outcome (extract_data stable_sort shopping quoted_amount) = inr (t :: rest)
    /\ t_debit t = Some "-5.00".
Proof.
  eexists. exists (mkFragment 1 260 700 300 710 "- 5,00"). eexists. eexists.
  split; [vm_compute; reflexivity|].
  split; [simpl; auto 10|].
  split; [reflexivity|].
  split; [reflexivity|].
  split; [vm_compute; discriminate|].
  split; [vm_compute; discriminate|].
  split; [reflexivity|].
  split; [vm_compute; reflexivity|].
  reflexivity.
Qed.

(** Claim C3. The entries of a row include its own booking date; unless
    that box sits in the value-date column or reads as an amount, the
    loop passes its text to the categorizer and stores the result as the
    purpose. On [purpose_first], where the purpose box precedes the date,
    the purpose of the first booking is the category of its date text and
    not that of [Amazon Marketplace]. *)
Theorem C3_anchor_is_categorized :
  (forall page_df date_row,
      In date_row page_df -> In date_row (same_y1_entries page_df date_row))
  /\ (forall (lowercase : Lower) cats lay anchor,
        Qeq_bool (x0 anchor) (valuta_x0 lay) = false ->
        search AMOUNT_PATTERN (text anchor) = None ->
        purpose (assign_entry cats lay (new_transaction anchor) anchor)
        = Some (categorize_transaction cats (text anchor)))
  /\ exists t rest,
       outcome (extract_data stable_sort shopping purpose_first) = inr (t :: rest)
       /\ t_date t = mkDate 2024 1 1
       /\ t_purpose t = Some (categorize_transaction shopping "01.01.2024")
       /\ t_purpose t <> Some (categorize_transaction shopping "Amazon Marketplace").
Proof.
  split; [|split].
  - intros page_df date_row H. apply filter_In. split; [exact H|].
    apply Qeq_bool_refl_true.
  - intros lowercase cats lay anchor Hv Hm. unfold assign_entry. now rewrite Hv, Hm.
  - eexists. eexists. split; [vm_compute; reflexivity|].
    repeat split. vm_compute. discriminate.
Qed.

(** Claim C4. On a frame without any date box, hence without any row
    anchor, [extract_data] raises: it returns no frame, empty or not. *)
Theorem C4_no_anchor_raises {lowercase : Lower} sort cats df :
  date_entries df = [] -> exists e, outcome (extract_data sort cats df) = inl e.
Proof.
  intros Hd. unfold extract_data.
  destruct df as [|f0 df0] eqn:Edf; [now exists (KeyError "text")|].
  rewrite <- Edf in *. assert (N : df <> []) by (rewrite Edf; discriminate).
  destruct (extract_balance_total df N) as (sb & eb & Eb & _).
  rewrite (bind_pure (sb, eb) _ _ Eb).
  assert (L : exists e, outcome (locate_columns df) = inl e).
  { unfold locate_columns. fold (date_entries df). rewrite Hd.
    destruct (py_max _) as [c|]; [|now exists empty_sequence].
    destruct (py_max _) as [d|]; [|now exists empty_sequence].
    now exists empty_sequence. }
  destruct L as (e & L). exists e.
  destruct (fst (sb, eb)).
  - rewrite bind_ret_l. now apply bind_inl.
  - unfold bind at 1. cbn.
    destruct (bind (locate_columns df) _) as [o r] eqn:E.
    cbn. change r with (outcome (o, r)). rewrite <- E. now apply bind_inl.
Qed.

Lemma C4_witness :
  date_entries no_dates = []
  /\ exists e, outcome (extract_data stable_sort shopping no_dates) = inl e.
Proof.
  split; [reflexivity|].
  apply (C4_no_anchor_raises stable_sort shopping no_dates). reflexivity.
Defined.

(** Claim C5, as amended. With a [sort_values] that meets the contract
    of the library, the returned rows are in ascending date order and
    are, balance apart, a permutation of the rows in the order in which
    their anchors were met. *)
Theorem C5_sorted_by_date {lowercase : Lower} sort cats df out txs :
  sort_contract sort ->
  extract_data sort cats df = (out, inr txs) ->
  Sorted date_le (map t_date txs)
  /\ exists out0 txs0,
       extract_data (fun l => l) cats df = (out0, inr txs0)
       /\ Permutation (map content txs) (map content txs0).
Proof.
  intros [P S] H. apply extract_data_inr in H.
  destruct H as (sb & eb & lay & out' & Eb & El & Er & ->).
  apply reconcile_without_end in Er. destruct Er as [Er _].
  assert (Er' := Er). apply reconcile_inr in Er'.
  destruct Er' as (dated & F & -> & _).
  split; [rewrite add_balance_dates; apply S|].
  destruct (reconcile_total (fun l => l) (start_or_zero sb) eb
              (extract_transactions cats lay df)) as (out0 & txs0 & E0 & _).
  - reflexivity.
  - intros E. rewrite E in Er. discriminate.
  - intros r Hr. destruct (Forall2_In_l _ _ _ _ F Hr) as (d & _ & dt & c & d' & Edt & Ec & Ed & _).
    split; [split; eauto|]. now rewrite Edt.
  - exists (start_warning sb ++ out0), txs0. split.
    + now apply (extract_data_compose _ _ _ _ eb lay).
    + apply reconcile_inr in E0. destruct E0 as (dated' & F' & -> & _).
      rewrite (dated_from_fun _ _ _ F' F).
      rewrite !(add_balance_map content dated_content) by reflexivity.
      apply Permutation_map, P.
Qed.

Lemma C5_witness :
  sort_contract stable_sort
  /\ extract_data stable_sort shopping statement = ([], inr statement_transactions)
  /\ Sorted date_le (map t_date statement_transactions)
  /\ exists out0 txs0,
       extract_data (fun l => l) shopping statement = (out0, inr txs0)
       /\ Permutation (map content statement_transactions) (map content txs0).
Proof.
  split; [exact stable_sort_contract|]. split; [vm_compute; reflexivity|].
  apply (C5_sorted_by_date stable_sort shopping statement []).
  - exact stable_sort_contract.
  - vm_compute; reflexivity.
Defined.

(** Claim C5 as stated fails. [busy_day] has eighteen bookings of one
    day; the quicksort behind [sort_values] partitions a range of that
    length and, the keys being equal, swaps the rows on its way: the
    second row returned is the sixteenth that was met. *)
Lemma C5_ties_can_swap :
  exists out txs out0 txs0,
    extract_data sort_values_quicksort shopping busy_day = (out, inr txs)
    /\ extract_data (fun l => l) shopping busy_day = (out0, inr txs0)
    /\ map t_amount txs0 = [1.00; 2.00; 3.00; 4.00; 5.00; 6.00; 7.00; 8.00; 9.00; 10.00; 11.00; 12.00; 13.00; 14.00; 15.00; 16.00; 17.00; -18.00]
    /\ map t_amount txs = [1.00; 16.00; 15.00; 14.00; 13.00; 12.00; 11.00; 10.00; 9.00; 8.00; 7.00; 6.00; 5.00; 4.00; 3.00; 2.00; 17.00; -18.00]
    /\ (forall t, In t txs -> t_date t = mkDate 2024 1 1)
    /\ ~ ties_keep_order sort_values_quicksort shopping busy_day.
Proof.
  eexists. eexists. eexists. eexists.
  split; [vm_compute; reflexivity|]. split; [vm_compute; reflexivity|].
  split; [vm_compute; reflexivity|]. split; [vm_compute; reflexivity|].
  split.
  - intros t Ht. repeat (destruct Ht as [<-|Ht]; [reflexivity|]). destruct Ht.
  - intros H. unfold ties_keep_order in H.
    specialize (H _ _ _ _ eq_refl eq_refl (mkDate 2024 1 1)).
    vm_compute in H. discriminate.
Qed.

(** Claim C6. The categorizer returns the name of the first rule, in
    the order of the configuration, one of whose keywords occurs in the
    lower-cased text, and ["Personal"] when no rule has such a keyword;
    with the rules [amazon] then [amaz], [Amazon Marketplace] falls to
    the first. *)
Theorem C6_first_matching_rule :
  (forall (lowercase : Lower) (categories : Categories) (text : string),
      (exists before rule after,
          map snd categories = before ++ rule :: after
          /\ (forall r, In r before -> ~ keyword_hit (str_lower text) r)
          /\ keyword_hit (str_lower text) rule
          /\ categorize_transaction categories text = name rule)
      \/ ((forall r, In r (map snd categories) -> ~ keyword_hit (str_lower text) r)
          /\ categorize_transaction categories text = "Personal"))
  /\ (forall lowercase : Lower,
        str_lower "Amazon Marketplace" = "amazon marketplace"%string ->
        categorize_transaction
          [("r1", mkCategory "R1" ["amazon"]); ("r2", mkCategory "R2" ["amaz"])]
          "Amazon Marketplace" = "R1"%string).
Proof.
  split; [|intros lowercase E; unfold categorize_transaction; rewrite E; reflexivity].
  intros lowercase categories text.
  unfold categorize_transaction.
  assert (F := find_first (matches_category (str_lower text)) (map snd categories)).
  destruct (find _ _) as [rule|].
  - left. destruct F as (before & after & E & Hr & Hb).
    exists before, rule, after. repeat split; auto.
    + intros r Hrb Hit. apply matches_category_spec in Hit.
      rewrite (Hb r Hrb) in Hit. discriminate.
    + now apply matches_category_spec.
  - right. split; [|reflexivity].
    intros r Hr Hit. apply matches_category_spec in Hit.
    rewrite (F r Hr) in Hit. discriminate.
Qed.

(** Claim C7. The comparison with the tolerance is made on binary64
    numbers. On a run that returns with a located end balance [e], the
    warning is printed exactly when the rounded difference of the last
    balance and [e] is above 5.0, and the frame returned is the one
    computed without looking at the end balance. On
    [boundary_statement] the bookings add up to 8.05 and the statement
    declares 3.05: the two amounts are exactly 5.00 apart, the binary64
    numbers nearest to them a little more, and the warning is printed. *)
Theorem C7_exact_difference_warns :
  (forall (lowercase : Lower) sort cats df out txs sb e,
      extract_data sort cats df = (out, inr txs) ->
      extract_balance df = ([], inr (sb, Some e)) ->
      exists last lay,
        hd_error (rev txs) = Some last
        /\ (In (BalanceMismatch (t_balance last) e) out
            <-> exceeds_tolerance (t_balance last) e = true)
        /\ (forall m, In m out -> is_mismatch m -> m = BalanceMismatch (t_balance last) e)
        /\ locate_columns df = ([], inr lay)
        /\ reconcile sort (start_or_zero sb) None (extract_transactions cats lay df)
           = ([], inr txs))
  /\ exists txs last,
       extract_data stable_sort shopping boundary_statement
       = ([BalanceMismatch 8.05 3.05], inr txs)
       /\ extract_balance boundary_statement = ([], inr (Some 8.00, Some 3.05))
       /\ hd_error (rev txs) = Some last
       /\ t_balance last == 8.05
       /\ Qabs (t_balance last - 3.05) == 5
       /\ ~ BALANCE_TOLERANCE < Qabs (t_balance last - 3.05).
Proof.
  split.
  - intros lowercase sort cats df out txs sb e H Eb. apply extract_data_inr in H.
    destruct H as (sb' & eb' & lay & out' & Eb' & El & Er & ->).
    rewrite Eb in Eb'. injection Eb' as <- <-.
    apply reconcile_without_end in Er. destruct Er as [Er Ev].
    unfold validate_end in Ev.
    destruct (rev txs) as [|last l] eqn:E; [discriminate|].
    exists last, lay. split; [reflexivity|].
    assert (Hw : forall m, In m (start_warning sb) -> ~ is_mismatch m).
    { intros m Hm. destruct sb; simpl in Hm; [easy|]. destruct Hm as [<-|[]]. easy. }
    destruct (exceeds_tolerance (t_balance last) e) eqn:C.
    + injection Ev as <-. repeat split; auto.
      * intros _. apply in_or_app. right. now left.
      * intros m Hm Mm. apply in_app_or in Hm. destruct Hm as [Hm|[<-|[]]].
        -- now destruct (Hw m Hm).
        -- reflexivity.
    + injection Ev as <-. rewrite app_nil_r. repeat split; auto.
      * intros Hm. exfalso. now apply (Hw _ Hm).
      * discriminate.
      * intros m Hm Mm. exfalso. now apply (Hw m Hm).
  - eexists. eexists. split; [vm_compute; reflexivity|].
    split; [vm_compute; reflexivity|]. split; [reflexivity|].
    split; [reflexivity|]. split; [reflexivity|].
    vm_compute. discriminate.
Qed.

(** Claim C8. A box passes for a date only if its text contains two
    digits, a dot, two digits, a dot, optional white space and [2024]. A
    box reading [dd.mm.yyyy] with another year is no date: it is in no
    histogram of date columns and is no booking date, and every
    transaction comes from a box that passes for a date. *)
Theorem C8_only_dates_of_2024 {lowercase : Lower} :
  (forall f, is_date f = true ->
     exists pre w post, text f = (pre ++ w ++ post)%string /\ date_2024 w)
  /\ (forall f, other_year_date (text f) ->
        is_date f = false
        /\ (forall df, ~ In f (date_entries df))
        /\ (forall lay page_df, ~ In f (booking_dates lay page_df)))
  /\ (forall cats lay df r,
        In r (extract_transactions cats lay df) ->
        exists f, In f df /\ is_date f = true /\ booking_date r = clean_date f)
  /\ is_date (mkFragment 1 50 700 95 710 "01.01.2023") = false.
Proof.
  split; [exact is_date_sound|]. split; [|split; [|reflexivity]].
  - intros f H. apply other_year_not_date in H. repeat split; auto.
    + intros df Hin. apply filter_In in Hin. destruct Hin as [_ Hin]. congruence.
    + intros lay page_df Hin. apply booking_dates_In in Hin.
      destruct Hin as (_ & _ & Hin). congruence.
  - intros cats lay df r Hr. apply extract_transactions_In in Hr.
    destruct Hr as (p & f & _ & Hf & ->).
    apply booking_dates_In in Hf. destruct Hf as (Hin & _ & Hd).
    apply page_frame_In in Hin. exists f. repeat split; try tauto.
    apply build_transaction_booking_date.
Qed.

(** Claim C9, as amended. With two distinct left edges among the dates
    and two distinct right edges among the credits and among the debits,
    the booking and value-date columns are the smaller and the larger of
    two most frequent date left edges, and each amount column is the
    larger of two most frequent right edges rounded to two places. *)
Theorem C9_column_locator df :
  two_distinct (map x0 (date_entries df)) ->
  two_distinct (map x1 (amount_entries_credit df)) ->
  two_distinct (map x1 (amount_entries_debit df)) ->
  exists lay,
    locate_columns df = ([], inr lay)
    /\ (exists a b, top_two (map x0 (date_entries df)) a b
          /\ booking_x0 lay == Qmin a b /\ valuta_x0 lay == Qmax a b)
    /\ (exists a b, top_two (map x1 (amount_entries_credit df)) a b
          /\ amount_x1_credit lay = round2 (Qmax a b))
    /\ (exists a b, top_two (map x1 (amount_entries_debit df)) a b
          /\ amount_x1_debit lay = round2 (Qmax a b)).
Proof.
  intros Hd Hc Hb.
  apply two_most_frequent_spec in Hd, Hc, Hb.
  destruct Hd as (d1 & d2 & Ed & Td), Hc as (c1 & c2 & Ec & Tc), Hb as (b1 & b2 & Eb & Tb).
  unfold locate_columns.
  fold (date_entries df) (amount_entries_credit df) (amount_entries_debit df).
  rewrite Ed, Ec, Eb, py_min_two, !py_max_two. cbn.
  eexists. split; [reflexivity|]. cbn. split; [|split].
  - exists d1, d2. split; [exact Td|]. split; [apply min_two_Qmin | apply max_two_Qmax].
  - exists c1, c2. split; [exact Tc|]. apply round2_comp, max_two_Qmax.
  - exists b1, b2. split; [exact Tb|]. apply round2_comp, max_two_Qmax.
Qed.

Lemma C9_witness :
  two_distinct (map x0 (date_entries fine_edges))
  /\ exists lay,
    locate_columns fine_edges = ([], inr lay)
    /\ (exists a b, top_two (map x0 (date_entries fine_edges)) a b
          /\ booking_x0 lay == Qmin a b /\ valuta_x0 lay == Qmax a b)
    /\ (exists a b, top_two (map x1 (amount_entries_credit fine_edges)) a b
          /\ amount_x1_credit lay = round2 (Qmax a b))
    /\ (exists a b, top_two (map x1 (amount_entries_debit fine_edges)) a b
          /\ amount_x1_debit lay = round2 (Qmax a b)).
Proof.
  assert (D : two_distinct (map x0 (date_entries fine_edges)))
    by (exists 50, 100; two_values).
  split; [exact D|].
  apply (C9_column_locator fine_edges D).
  - exists (500123 # 1000), 490; two_values.
  - exists (400456 # 1000), 390; two_values.
Defined.

(** Claim C9 as stated fails on [fine_edges]: the credit column is
    500.12, the larger of the two most frequent credit right edges is
    500.123. *)
Lemma C9_edges_are_rounded :
  two_distinct (map x0 (date_entries fine_edges))
  /\ two_distinct (map x1 (amount_entries_credit fine_edges))
  /\ two_distinct (map x1 (amount_entries_debit fine_edges))
  /\ ~ (exists lay a b,
          locate_columns fine_edges = ([], inr lay)
          /\ top_two (map x1 (amount_entries_credit fine_edges)) a b
          /\ amount_x1_credit lay == Qmax a b).
Proof.
  split; [exists 50, 100; two_values|].
  split; [exists (500123 # 1000), 490; two_values|].
  split; [exists (400456 # 1000), 390; two_values|].
  intros (lay & a & b & E & (Ha & Hb & N & _) & C).
  injection E as <-. vm_compute in Ha, Hb.
  destruct Ha as [<-|[<-|[<-|[]]]], Hb as [<-|[<-|[<-|[]]]];
    try (apply N; reflexivity); vm_compute in C; discriminate.
Qed.

(** Claim C10, as amended. On a frame with a box but without an anchor
    of the start balance, [extract_data] prints the
    missing-start-balance warning first and goes on with a start balance
    of zero; when the frame has a credit, a debit and a date box and the
    date boxes at the booking column parse, it returns, and whenever it
    returns, the reconstructed rows are reconciled from zero: the
    balance of the [i]-th row is the sum of the first [i] amounts,
    rounded. *)
Theorem C10_missing_start_balance {lowercase : Lower} sort cats df :
  sort_contract sort ->
  no_start_anchor df ->
  df <> [] ->
  exists eb,
    extract_balance df = ([], inr (None, eb))
    /\ hd_error (printed (extract_data sort cats df)) = Some NoStartBalance
    /\ (amount_entries_credit df <> [] -> amount_entries_debit df <> [] ->
        date_entries df <> [] ->
        (forall lay f, locate_columns df = ([], inr lay) -> In f df ->
           booking_box lay f -> to_datetime (clean_date f) <> None) ->
        exists out txs, extract_data sort cats df = (out, inr txs))
    /\ (forall out txs,
          extract_data sort cats df = (out, inr txs) ->
          exists out' lay,
            out = NoStartBalance :: out'
            /\ txs <> []
            /\ locate_columns df = ([], inr lay)
            /\ reconcile sort 0 eb (extract_transactions cats lay df) = (out', inr txs)
            /\ (forall i t, nth_error txs i = Some t ->
                  t_balance t = round2 (0 + Qsum (firstn (S i) (map t_amount txs))))).
Proof.
  intros [P S] Ha Nd.
  destruct (extract_balance_total df Nd) as (sb & eb & Eb & K).
  rewrite (K Ha) in Eb. clear K sb.
  exists eb. split; [exact Eb|]. split; [|split].
  - unfold extract_data. rewrite (bind_pure (None, eb) _ _ Eb). cbn [fst snd].
    change (print NoStartBalance ;;; ret 0) with (([NoStartBalance], inr 0) : M Q).
    unfold bind at 1.
    destruct (bind (locate_columns df) _) as [o r]. reflexivity.
  - intros Hc Hd Hb Hp.
    destruct (extract_data_cases sort cats df P)
      as [[N _]|[(_ & Hm & _)|[(lay & f & El & Hf & Bf & Ef & _)
                              |(_ & _ & _ & _ & _ & _ & out & txs & R & _)]]].
    + contradiction.
    + exfalso. destruct Hm as [H|[H|H]]; auto.
    + exfalso. now apply (Hp lay f).
    + now exists out, txs.
  - intros out txs E. assert (Ei := E). apply extract_data_inr in Ei.
    destruct Ei as (sb' & eb' & lay & out' & Eb' & El & Er & ->).
    rewrite Eb in Eb'. injection Eb' as <- <-. cbn [start_warning start_or_zero app] in *.
    exists out', lay. split; [reflexivity|]. split; [|split; [exact El|split; [exact Er|]]].
    + apply reconcile_inr in Er. destruct Er as (dated & F & -> & _).
      intros E0. apply (f_equal (@List.length _)) in E0.
      rewrite add_balance_length, (Permutation_length (P dated)) in E0.
      apply Forall2_length in F. rewrite <- F in E0.
      destruct (locate_columns_cases df) as [(Hc & Hd & Hb)|[X _]];
        [|rewrite El in X; discriminate].
      destruct (locate_columns_total df Hb Hc Hd) as (lay' & El' & f & Hf & Df & Xf).
      rewrite El in El'. injection El' as <-.
      apply (extract_transactions_nonempty cats lay df f Hf Df Xf).
      now apply length_zero_iff_nil.
    + intros i t Ht. apply reconcile_inr in Er. destruct Er as (dated & _ & -> & _).
      now apply add_balance_running.
Qed.

Lemma C10_witness :
  sort_contract stable_sort
  /\ no_start_anchor no_balances
  /\ extract_data stable_sort shopping no_balances
     = ([NoStartBalance], inr no_balances_transactions)
  /\ exists eb,
       extract_balance no_balances = ([], inr (None, eb))
       /\ hd_error (printed (extract_data stable_sort shopping no_balances))
          = Some NoStartBalance.
Proof.
  assert (Ha : no_start_anchor no_balances) by (intros e He; each_fragment He).
  split; [exact stable_sort_contract|]. split; [exact Ha|].
  split; [vm_compute; reflexivity|].
  destruct (C10_missing_start_balance stable_sort shopping no_balances
              stable_sort_contract Ha) as (eb & Eb & W & _).
  - discriminate.
  - now exists eb.
Defined.

(** Claim C10 as stated fails. [debits_only] has no anchor of the start
    balance: the warning is printed and zero assumed, but the frame has
    no credit box and no sequence is returned. On a frame without a box
    nothing is printed at all. *)
Lemma C10_warning_then_raise :
  no_start_anchor debits_only
  /\ extract_data stable_sort shopping debits_only
     = ([NoStartBalance], inl empty_sequence)
  /\ no_start_anchor []
  /\ extract_data stable_sort shopping [] = ([], inl (KeyError "text")).
Proof.
  split; [intros e He; each_fragment He|].
  split; [vm_compute; reflexivity|].
  split; [intros e []|]. reflexivity.
Qed.

(* ================================================================= *)
(** ** The text boxes, the balances, the rows and the file handler *)

(** *** The text boxes of a document *)

Lemma page_boxes_In p page f :
  In f (page_boxes p page) <->
  exists a b c d t,
    In (LTTextBox a b c d t) page /\ f = mkFragment p a b c d (Str.strip t).
Proof.
  unfold page_boxes. rewrite in_flat_map. split.
  - intros ([a b c d t|] & Hel & Hf); [|contradiction].
    destruct Hf as [<-|[]]. now exists a, b, c, d, t.
  - intros (a & b & c & d & t & Hel & ->). exists (LTTextBox a b c d t).
    split; [exact Hel | now left].
Qed.

Lemma text_boxes_from_In pages : forall p f,
  In f (text_boxes_from p pages) <->
  exists k page a b c d t,
    nth_error pages k = Some page /\ In (LTTextBox a b c d t) page
    /\ f = mkFragment (p + Z.of_nat k) a b c d (Str.strip t).
Proof.
  induction pages as [|pg pages IH]; intros p f; simpl.
  - split; [contradiction|]. intros (k & page & a & b & c & d & t & H & _).
    destruct k; discriminate.
  - rewrite in_app_iff, page_boxes_In, IH. split.
    + intros [(a & b & c & d & t & Hel & ->)|(k & page & a & b & c & d & t & Hk & Hel & ->)].
      * exists 0%nat, pg, a, b, c, d, t. rewrite Z.add_0_r. auto.
      * exists (S k), page, a, b, c, d, t. repeat split; auto.
        f_equal. lia.
    + intros (k & page & a & b & c & d & t & Hk & Hel & ->). destruct k as [|k].
      * injection Hk as ->. left. exists a, b, c, d, t. rewrite Z.add_0_r. auto.
      * right. exists k, page, a, b, c, d, t. repeat split; auto. f_equal. lia.
Qed.

Lemma text_boxes_from_sorted pages : forall p,
  Sorted Z.le (map page (text_boxes_from p pages))
  /\ forall f, In f (text_boxes_from p pages) -> (p <= page f)%Z.
Proof.
  induction pages as [|pg pages IH]; intros p; simpl.
  - split; [constructor | contradiction].
  - destruct (IH (p + 1)%Z) as [S L].
    assert (Hp : forall f, In f (page_boxes p pg) -> page f = p).
    { intros f Hf. apply page_boxes_In in Hf.
      destruct Hf as (a & b & c & d & t & _ & ->). reflexivity. }
    split.
    + revert Hp. generalize (page_boxes p pg). intros l Hp.
      induction l as [|f l IHl]; simpl; [exact S|].
      constructor; [apply IHl; intros; apply Hp; now right|].
      rewrite (Hp f (or_introl eq_refl)).
      destruct l as [|g l]; simpl.
      * destruct (text_boxes_from (p + 1) pages) as [|g r]; simpl; constructor.
        specialize (L g (or_introl eq_refl)). lia.
      * constructor. rewrite (Hp g); [lia | right; now left].
    + intros f Hf. apply in_app_or in Hf. destruct Hf as [Hf|Hf].
      * rewrite (Hp f Hf). lia.
      * apply L in Hf. lia.
Qed.

(** Property X1. The frame of a document holds, for each text box of its [k]-th
    page, counting from 1 and counting the pages without text, a row
    with that page number, the box and the stripped text, and nothing
    else; its page numbers never decrease. *)
Theorem text_boxes_rows pages :
  (forall f,
     In f (text_boxes pages) <->
     exists k page a b c d t,
       nth_error pages k = Some page /\ In (LTTextBox a b c d t) page
       /\ f = mkFragment (Z.of_nat (S k)) a b c d (Str.strip t))
  /\ Sorted Z.le (map page (text_boxes pages)).
Proof.
  split; [|apply text_boxes_from_sorted].
  intros f. unfold text_boxes. rewrite text_boxes_from_In.
  split; intros (k & page & a & b & c & d & t & Hk & Hel & ->);
    exists k, page, a, b, c, d, t; repeat split; auto; f_equal; lia.
Qed.

(** *** Stripped texts *)

Lemma rstrip_end s : forall w c,
  Str.rstrip s = (w ++ String c EmptyString)%string -> Str.is_space c = false.
Proof.
  induction s as [|a s IH]; intros w c; simpl.
  - destruct w; discriminate.
  - destruct (Str.rstrip s) as [|b r] eqn:E.
    + destruct (Str.is_space a) eqn:Sa.
      * destruct w; discriminate.
      * destruct w as [|x w]; simpl; [intros [= <-]; exact Sa|].
        intros [= _ H]. destruct w; discriminate.
    + destruct w as [|x w]; simpl; [discriminate|].
      intros [= _ H]. eapply IH. exact H.
Qed.

Lemma run_Lit lit : forall c s,
  run (Lit lit) (c, s)
  = match drop_prefix lit s with Some rest => [(c, rest)] | None => [] end.
Proof.
  induction lit as [|a lit IH]; intros c s; simpl; [reflexivity|].
  destruct s as [|b s]; simpl; [reflexivity|].
  destruct (Ascii.eqb a b); simpl; [|reflexivity].
  rewrite IH. now rewrite app_nil_r.
Qed.

Lemma drop_prefix_spec lit : forall s rest,
  drop_prefix lit s = Some rest <-> s = (lit ++ rest)%string.
Proof.
  induction lit as [|a lit IH]; intros s rest; simpl.
  - split; [intros [= ->] | intros ->]; reflexivity.
  - destruct s as [|b s]; [split; discriminate|].
    destruct (Ascii.eqb_spec a b) as [->|N].
    + rewrite IH. split; [intros -> | intros [= ->]]; reflexivity.
    + split; [discriminate | intros [= E _]; congruence].
Qed.

Lemma at_eol_spec s :
  at_eol s = true <-> s = EmptyString \/ s = String "010" EmptyString.
Proof.
  destruct s as [|c [|d s]]; simpl.
  - split; auto.
  - destruct (Ascii.eqb_spec c "010") as [->|N]; split; auto; try discriminate.
    intros [H|[= H]]; [discriminate | contradiction].
  - split; [discriminate | intros [H|H]; discriminate].
Qed.

Lemma is_eur_spec s :
  is_eur s = true <->
  s = "EUR"%string \/ s = ("EUR" ++ String "010" EmptyString)%string.
Proof.
  unfold is_eur, re_match. cbn [run]. rewrite run_Lit.
  destruct (drop_prefix "EUR" s) as [rest|] eqn:E.
  - apply drop_prefix_spec in E. subst s. cbn [flat_map snd app].
    destruct (at_eol rest) eqn:A.
    + apply at_eol_spec in A. split; [|reflexivity]. intros _.
      destruct A as [-> | ->]; auto.
    + split; [discriminate|]. intros H.
      assert (A' : at_eol rest = true).
      { apply at_eol_spec. destruct H as [H|H]; injection H as H; auto. }
      congruence.
  - split; [discriminate|]. intros H.
    assert (E' : drop_prefix "EUR" s = Some (if String.eqb s "EUR" then EmptyString else String "010" EmptyString)).
    { destruct H as [-> | ->]; reflexivity. }
    congruence.
Qed.

(** Property X2. In the frame of a document the currency rows are the boxes whose
    stripped text is [EUR]: the line break that ['^EUR$'] would let
    pass cannot be there. *)
Theorem text_boxes_eur pages f :
  In f (text_boxes pages) -> (is_eur (text f) = true <-> text f = "EUR"%string).
Proof.
  intros Hf. rewrite is_eur_spec. split; [|now left].
  intros [E|E]; [exact E|]. exfalso.
  apply text_boxes_from_In in Hf.
  destruct Hf as (k & pg & a & b & c & d & t & _ & _ & ->). cbn [text] in E.
  unfold Str.strip in E.
  assert (H := rstrip_end (Str.lstrip t) "EUR" "010" E). discriminate.
Qed.

Lemma text_boxes_eur_witness :
  In (mkFragment 1 520 750 540 760 "EUR") (text_boxes [page_of statement])
  /\ (is_eur "EUR" = true <-> "EUR"%string = "EUR"%string).
Proof.
  assert (H : In (mkFragment 1 520 750 540 760 "EUR") (text_boxes [page_of statement])).
  { vm_compute. auto. }
  split; [exact H|].
  exact (text_boxes_eur [page_of statement] (mkFragment 1 520 750 540 760 "EUR") H).
Defined.

(** *** The categorizer *)

Lemma lower_char_not_upper c : Str.is_upper (Str.lower_char c) = false.
Proof.
  unfold Str.lower_char. destruct (Str.is_upper c) eqn:U; [|exact U].
  unfold Str.is_upper in *. rewrite nat_ascii_embedding.
  - apply andb_true_iff in U. destruct U as [U1 U2].
    apply Nat.leb_le in U1, U2. apply andb_false_iff. right. apply Nat.leb_gt. lia.
  - apply andb_true_iff in U. destruct U as [U1 U2]. apply Nat.leb_le in U2. lia.
Qed.

Lemma lower_no_upper text : forall pre c post,
  Str.lower text = (pre ++ String c post)%string -> Str.is_upper c = false.
Proof.
  induction text as [|a text IH]; intros pre c post; simpl.
  - destruct pre; discriminate.
  - destruct pre as [|x pre]; simpl.
    + intros [= <- _]. apply lower_char_not_upper.
    + intros [= _ H]. eapply IH. exact H.
Qed.

Lemma find_skip {A} (p : A -> bool) before x after :
  p x = false -> find p (before ++ x :: after) = find p (before ++ after).
Proof.
  intros H. induction before as [|b before IH]; simpl.
  - now rewrite H.
  - destruct (p b); [reflexivity | exact IH].
Qed.

(** Property X3. The text is lower-cased, the keywords are not: since
    lower-casing leaves none of the letters A to Z, a rule whose
    keywords all hold one of them never applies, and the categorizer
    answers as if the rule were not configured. *)
Theorem uppercase_keywords_never_match {lowercase : Lower} before id rule after text :
  lowers_capitals lowercase ->
  (forall keyword, In keyword (keywords rule) -> has_upper keyword) ->
  ~ keyword_hit (str_lower text) rule
  /\ categorize_transaction (before ++ (id, rule) :: after) text
     = categorize_transaction (before ++ after) text.
Proof.
  intros Lc H.
  assert (N : ~ keyword_hit (str_lower text) rule).
  { intros (k & pre & post & Hk & E).
    destruct (H k Hk) as (kp & c & kq & -> & U).
    rewrite !append_assoc in E. simpl in E. rewrite <- append_assoc in E.
    apply Lc in E. congruence. }
  split; [exact N|].
  assert (M : matches_category (str_lower text) rule = false).
  { destruct (matches_category (str_lower text) rule) eqn:E; [|reflexivity].
    apply matches_category_spec in E. contradiction. }
  unfold categorize_transaction. rewrite !map_app. cbn [map snd].
  now rewrite (find_skip _ _ _ _ M).
Qed.

Lemma uppercase_keywords_witness :
  lowers_capitals ascii_lower
  /\ (forall keyword, In keyword ["Amazon"%string] -> has_upper keyword)
  /\ ~ keyword_hit (str_lower "Amazon Marketplace") (mkCategory "Shopping" ["Amazon"])
  /\ categorize_transaction ([] ++ ("shopping", mkCategory "Shopping" ["Amazon"]) :: []) "Amazon Marketplace"
     = categorize_transaction ([] ++ []) "Amazon Marketplace".
Proof.
  assert (Lc : lowers_capitals ascii_lower).
  { intros text pre c post. apply lower_no_upper. }
  assert (H : forall keyword, In keyword ["Amazon"%string] -> has_upper keyword).
  { intros k [<-|[]]. exists EmptyString, "A"%char, "mazon"%string. split; reflexivity. }
  split; [exact Lc|]. split; [exact H|].
  exact (uppercase_keywords_never_match [] "shopping" (mkCategory "Shopping" ["Amazon"]) []
           "Amazon Marketplace" Lc H).
Defined.

(** Property X4. The empty keyword occurs in every text: with a rule that has it,
    the categorizer returns the name of a rule that applies, whatever
    the text, and never falls back for lack of a match. *)
Theorem empty_keyword_matches_all {lowercase : Lower} cats text rule :
  In rule (map snd cats) -> In EmptyString (keywords rule) ->
  exists first,
    In first (map snd cats)
    /\ keyword_hit (str_lower text) first
    /\ categorize_transaction cats text = name first.
Proof.
  intros Hr Hk. unfold categorize_transaction.
  assert (Hit : matches_category (str_lower text) rule = true).
  { apply matches_category_spec. exists EmptyString, EmptyString, (str_lower text).
    split; [exact Hk | reflexivity]. }
  destruct (find (matches_category (str_lower text)) (map snd cats)) as [first|] eqn:F.
  - apply find_some in F. destruct F as [Hin Hm].
    exists first. repeat split; auto. now apply matches_category_spec.
  - apply (find_none _ _ F) in Hr. congruence.
Qed.

Lemma empty_keyword_witness :
  exists first,
    In first (map snd [("all", mkCategory "Everything" [EmptyString])])
    /\ keyword_hit (str_lower "Gehalt") first
    /\ categorize_transaction [("all", mkCategory "Everything" [EmptyString])] "Gehalt"
       = name first.
Proof.
  apply (empty_keyword_matches_all [("all", mkCategory "Everything" [EmptyString])]
           "Gehalt" (mkCategory "Everything" [EmptyString])); cbn; auto.
Defined.

(** *** [extract_balance] *)

(** Property X5. [extract_balance] raises on the empty frame only; on any other it
    prints nothing and returns: no amount that the pattern accepts
    makes [float] fail. *)
Theorem extract_balance_returns df :
  (df = [] -> extract_balance df = ([], inl (KeyError "text")))
  /\ (df <> [] -> exists sb eb, extract_balance df = ([], inr (sb, eb))).
Proof.
  split.
  - intros ->. reflexivity.
  - intros N. destruct (extract_balance_total df N) as (sb & eb & E & _). eauto.
Qed.

Lemma balance_loop_app df l1 : forall l2 sb eb sb1 eb1,
  balance_loop df l1 sb eb = ([], inr (sb1, eb1)) ->
  balance_loop df (l1 ++ l2) sb eb = balance_loop df l2 sb1 eb1.
Proof.
  induction l1 as [|e l1 IH]; intros l2 sb eb sb1 eb1; simpl.
  - intros [= <- <-]. reflexivity.
  - destruct (filter (aligned_amount e) df) as [|first rest]; [apply IH|].
    destruct (search AMOUNT_PATTERN (text first)) as [m|] eqn:Em; [|apply IH].
    destruct (amount_pattern_groups _ _ _ Em) as (c & w & _ & _ & G2 & Mw).
    destruct (float_of_amount _ Mw) as (q & Eq & _). rewrite G2, Eq.
    cbn [lift]. rewrite !bind_ret_l.
    destruct (mentions "Alter Saldo" _); [apply IH|].
    destruct (mentions "Neuer Saldo" _); apply IH.
Qed.

Lemma balance_loop_keeps_end df rows : forall sb eb,
  (forall e, In e rows -> new_balance_row df e = false) ->
  exists sb', balance_loop df rows sb eb = ([], inr (sb', eb)).
Proof.
  induction rows as [|e rows IH]; intros sb eb H; simpl.
  - now exists sb.
  - assert (IH' : forall sb0, exists sb', balance_loop df rows sb0 eb = ([], inr (sb', eb))).
    { intros sb0. apply IH. intros e0 H0. apply H. now right. }
    destruct (filter (aligned_amount e) df) as [|first rest] eqn:Ef; [apply IH'|].
    destruct (search AMOUNT_PATTERN (text first)) as [m|] eqn:Em; [|apply IH'].
    destruct (amount_pattern_groups _ _ _ Em) as (c & w & _ & _ & G2 & Mw).
    destruct (float_of_amount _ Mw) as (q & Eq & _). rewrite G2, Eq.
    cbn [lift]. rewrite bind_ret_l.
    destruct (mentions "Alter Saldo" (filter (nearby e) df)) eqn:Es; [apply IH'|].
    destruct (mentions "Neuer Saldo" (filter (nearby e) df)) eqn:En; [|apply IH'].
    exfalso. specialize (H e (or_introl eq_refl)). unfold new_balance_row in H.
    rewrite Es, En in H. simpl in H. apply existsb_filter_nil in H. congruence.
Qed.

Lemma balance_loop_step df e rows sb eb :
  existsb (aligned_amount e) df = true ->
  exists v,
    anchor_value df e = Some v
    /\ balance_loop df (e :: rows) sb eb
       = if mentions "Alter Saldo" (filter (nearby e) df)
         then balance_loop df rows (Some v) eb
         else if mentions "Neuer Saldo" (filter (nearby e) df)
              then balance_loop df rows sb (Some v)
              else balance_loop df rows sb eb.
Proof.
  intros Ha. unfold anchor_value. simpl.
  destruct (filter (aligned_amount e) df) as [|first rest] eqn:Ef.
  - apply existsb_filter_nil in Ef. congruence.
  - assert (Hf : In first (filter (aligned_amount e) df)) by (rewrite Ef; now left).
    apply filter_In in Hf. destruct Hf as [_ Hf]. unfold aligned_amount in Hf.
    apply andb_true_iff in Hf. destruct Hf as [_ Hf].
    unfold str_contains in Hf.
    destruct (search AMOUNT_PATTERN (text first)) as [m|] eqn:Em; [|discriminate].
    destruct (amount_pattern_groups _ _ _ Em) as (c & w & _ & _ & G2 & Mw).
    destruct (float_of_amount _ Mw) as (q & Eq & _). rewrite G2, Eq.
    cbn [lift option_map]. rewrite bind_ret_l.
    eexists. split; reflexivity.
Qed.

(** Property X6. Of several rows that qualify, the last one wins: the start balance
    is the value of the last [EUR] row with an amount on its line and
    the old-balance label near it, the end balance that of the last
    such row with the new-balance label and without the old one. *)
Theorem last_anchor_wins df :
  (forall before e after,
      filter (fun f => is_eur (text f)) df = before ++ e :: after ->
      old_balance_row df e = true ->
      (forall e', In e' after -> old_balance_row df e' = false) ->
      exists v eb,
        anchor_value df e = Some v
        /\ extract_balance df = ([], inr (Some v, eb)))
  /\ (forall before e after,
        filter (fun f => is_eur (text f)) df = before ++ e :: after ->
        new_balance_row df e = true ->
        (forall e', In e' after -> new_balance_row df e' = false) ->
        exists v sb,
          anchor_value df e = Some v
          /\ extract_balance df = ([], inr (sb, Some v))).
Proof.
  split; intros before e after E He Hafter.
  - assert (N : df <> []) by (intros ->; destruct before; discriminate).
    unfold extract_balance. destruct df as [|f0 df0]; [easy|].
    generalize dependent (f0 :: df0). intros df E He Hafter _. rewrite E.
    destruct (balance_loop_total df before None None) as (sb1 & eb1 & E1 & _).
    rewrite (balance_loop_app df before (e :: after) _ _ _ _ E1).
    unfold old_balance_row in He. apply andb_true_iff in He. destruct He as [Hs Ha].
    destruct (balance_loop_step df e after sb1 eb1 Ha) as (v & Ev & ->). rewrite Hs.
    destruct (balance_loop_total df after (Some v) eb1) as (sb2 & eb2 & E2 & K).
    rewrite (K Hafter) in E2. exists v, eb2. auto.
  - assert (N : df <> []) by (intros ->; destruct before; discriminate).
    unfold extract_balance. destruct df as [|f0 df0]; [easy|].
    generalize dependent (f0 :: df0). intros df E He Hafter _. rewrite E.
    destruct (balance_loop_total df before None None) as (sb1 & eb1 & E1 & _).
    rewrite (balance_loop_app df before (e :: after) _ _ _ _ E1).
    unfold new_balance_row in He. apply andb_true_iff in He. destruct He as [He Ha].
    apply andb_true_iff in He. destruct He as [Hs Hn]. apply negb_true_iff in Hs.
    destruct (balance_loop_step df e after sb1 eb1 Ha) as (v & Ev & ->). rewrite Hs, Hn.
    destruct (balance_loop_keeps_end df after sb1 (Some v) Hafter) as (sb2 & E2).
    exists v, sb2. auto.
Qed.

Lemma last_anchor_witness :
  exists v eb,
    anchor_value two_old_balances (mkFragment 1 520 400 540 410 "EUR") = Some v
    /\ extract_balance two_old_balances = ([], inr (Some v, eb)).
Proof.
  apply (proj1 (last_anchor_wins two_old_balances)
           [mkFragment 1 520 750 540 760 "EUR"]
           (mkFragment 1 520 400 540 410 "EUR") []).
  - reflexivity.
  - reflexivity.
  - intros e' [].
Defined.

Lemma filter_map_comm {A} (r : A -> A) (p : A -> bool) l :
  (forall a, p (r a) = p a) -> filter p (map r l) = map r (filter p l).
Proof.
  intros H. induction l as [|a l IH]; simpl; [reflexivity|].
  rewrite H. destruct (p a); simpl; now rewrite IH.
Qed.

Lemma mentions_map r phrase l :
  (forall f, text (r f) = text f) -> mentions phrase (map r l) = mentions phrase l.
Proof.
  intros H. unfold mentions. induction l as [|a l IH]; simpl; [reflexivity|].
  now rewrite H, IH.
Qed.

Lemma balance_loop_repage (r : Fragment -> Fragment) df rows :
  (forall f, x0 (r f) = x0 f /\ y0 (r f) = y0 f /\ x1 (r f) = x1 f
             /\ y1 (r f) = y1 f /\ text (r f) = text f) ->
  forall sb eb,
    balance_loop (map r df) (map r rows) sb eb = balance_loop df rows sb eb.
Proof.
  intros H. induction rows as [|e rows IH]; intros sb eb; simpl; [reflexivity|].
  assert (Hn : filter (nearby (r e)) (map r df) = map r (filter (nearby e) df)).
  { rewrite <- filter_map_comm.
    - apply filter_ext. intros f. unfold nearby.
      destruct (H e) as (_ & -> & _). reflexivity.
    - intros f. unfold nearby. destruct (H f) as (_ & -> & _). reflexivity. }
  assert (Ha : filter (aligned_amount (r e)) (map r df)
               = map r (filter (aligned_amount e) df)).
  { rewrite <- filter_map_comm.
    - apply filter_ext. intros f. unfold aligned_amount.
      destruct (H e) as (_ & -> & _ & -> & _). reflexivity.
    - intros f. unfold aligned_amount.
      destruct (H f) as (_ & -> & _ & -> & ->). reflexivity. }
  rewrite Hn, Ha, !mentions_map by (intros f; apply H).
  destruct (filter (aligned_amount e) df) as [|first rest]; simpl; [apply IH|].
  destruct (H first) as (_ & _ & _ & _ & ->).
  destruct (search AMOUNT_PATTERN (text first)) as [m|]; [|apply IH].
  destruct (float_of_string _); cbn [lift]; [|reflexivity].
  rewrite !bind_ret_l.
  destruct (mentions "Alter Saldo" _); [apply IH|].
  destruct (mentions "Neuer Saldo" _); apply IH.
Qed.

(** Property X7. The balances do not depend on the pages of the boxes: a label is
    near an [EUR] cell by its height alone, also from another page. *)
Theorem extract_balance_ignores_pages (p : Fragment -> Z) df :
  extract_balance (map (fun f => on_page (p f) f) df) = extract_balance df.
Proof.
  unfold extract_balance. destruct df as [|f0 df0]; [reflexivity|].
  set (r := fun f => on_page (p f) f). cbn [map].
  change (r f0 :: map r df0) with (map r (f0 :: df0)).
  generalize (f0 :: df0). intros df.
  rewrite filter_map_comm by reflexivity.
  apply balance_loop_repage. intros f. repeat split.
Qed.

(** *** The amount grammar *)

Lemma digit_val_nonneg c : (0 <= digit_val c)%Z.
Proof. unfold digit_val. lia. Qed.

Lemma number_nonneg s : forall acc, (0 <= acc)%Z -> (0 <= number acc s)%Z.
Proof.
  induction s as [|c s IH]; intros acc H; cbn [number]; [exact H|].
  apply IH. assert (D := digit_val_nonneg c). lia.
Qed.

Lemma number_app s1 s2 : forall acc, number acc (s1 ++ s2) = number (number acc s1) s2.
Proof. induction s1 as [|c s1 IH]; intros acc; simpl; [reflexivity | apply IH]. Qed.

Lemma read_digits_number ds rest :
  all_chars Str.is_digit ds = true -> no_leading_digit rest ->
  forall acc n,
    read_digits (ds ++ rest)%string acc n
    = (number acc ds, (n + String.length ds)%nat, rest).
Proof.
  intros D R. induction ds as [|c ds IH]; intros acc n.
  - cbn [append String.length number]. rewrite Nat.add_0_r.
    destruct rest as [|c rest]; cbn [read_digits]; [reflexivity|].
    cbn in R. now rewrite R.
  - cbn [all_chars] in D. apply andb_prop in D. destruct D as [Dc D].
    cbn [append read_digits String.length number]. rewrite Dc.
    rewrite (IH D). do 2 f_equal. lia.
Qed.

Lemma digits_only_digits ds :
  all_chars Str.is_digit ds = true -> digits_only ds = ds.
Proof.
  induction ds as [|c ds IH]; simpl; [reflexivity|]. intros D.
  apply andb_prop in D. destruct D as [Dc D]. now rewrite Dc, IH.
Qed.

Lemma digits_only_app a b : digits_only (a ++ b) = (digits_only a ++ digits_only b)%string.
Proof.
  induction a as [|c a IH]; simpl; [reflexivity|].
  destruct (Str.is_digit c); simpl; now rewrite IH.
Qed.

Lemma digits_only_point_decimal w : digits_only (point_decimal w) = digits_only w.
Proof.
  unfold point_decimal. induction w as [|c w IH]; simpl; [reflexivity|].
  destruct (Ascii.eqb_spec c ".") as [->|Nd]; simpl; [exact IH|].
  destruct (Ascii.eqb_spec c ",") as [->|Nc]; simpl; [exact IH|].
  destruct (Str.is_digit c); now rewrite IH.
Qed.

Lemma amount_number_value w :
  Matches AMOUNT_NUMBER w ->
  exists q,
    float_of_string (point_decimal w) = Some q
    /\ float_of_string ("-" ++ point_decimal w) = Some (- q)
    /\ q == number 0 (digits_only w) # 100
    /\ 0 <= q.
Proof.
  intros Mw. rewrite <- (digits_only_point_decimal w).
  destruct (point_decimal_shape w Mw) as (ds & a & b & -> & D & N & Da & Db).
  assert (U : unsigned_of_string (ds ++ String "." (String a (String b EmptyString)))
              = Some (Qmake (number 0 ds * 100 + number 0 (String a (String b EmptyString))) 100)).
  { unfold unsigned_of_string.
    rewrite (read_digits_number ds (String "." (String a (String b EmptyString))) D eq_refl).
    cbn [Ascii.eqb Bool.eqb].
    change (String a (String b EmptyString))
      with (String a (String b EmptyString) ++ EmptyString)%string at 1.
    rewrite (read_digits_number (String a (String b EmptyString)) EmptyString);
      [|cbn; now rewrite Da, Db | exact I].
    destruct ds as [|c0 ds]; [contradiction|]. reflexivity. }
  eexists. split; [|split; [|split]].
  - destruct ds as [|c0 ds]; [contradiction|]. cbn [all_chars] in D.
    apply andb_prop in D. destruct D as [Dc _].
    destruct (digit_not_sign _ Dc) as [Hm Hp].
    unfold float_of_string. cbn [append]. rewrite Hm, Hp. exact U.
  - cbn [append]. unfold float_of_string. cbn [is_minus Ascii.eqb Bool.eqb].
    rewrite U. reflexivity.
  - rewrite digits_only_app. cbn [digits_only].
    assert (Ed : Str.is_digit "." = false) by reflexivity. rewrite Ed, Da, Db.
    cbn [digits_only]. rewrite (digits_only_digits ds D), number_app.
    cbn [number]. unfold Qeq. cbn [Qnum Qden]. lia.
  - unfold Qle. cbn [Qnum Qden].
    assert (N1 := number_nonneg ds 0 (Z.le_refl 0)).
    assert (N2 := number_nonneg (String a (String b EmptyString)) 0 (Z.le_refl 0)).
    lia.
Qed.

Lemma amount_sign s m :
  search AMOUNT_PATTERN s = Some m ->
  group 1 m = "+"%string \/ group 1 m = "-"%string.
Proof.
  intros H. destruct (amount_pattern_groups _ _ _ H) as (c & w & G1 & Sc & _).
  rewrite G1. apply orb_true_iff in Sc. unfold is_plus, is_minus in Sc.
  destruct Sc as [Sc|Sc]; apply Ascii.eqb_eq in Sc; subst; auto.
Qed.

(** Property X8. The value of an amount the pattern accepts: the separators of the
    thousands count for nothing and the comma is the decimal point, so
    that the value is the number its digits write, in hundredths; the
    sign is captured apart. *)
Theorem amount_grammar_value s m :
  search AMOUNT_PATTERN s = Some m ->
  (group 1 m = "+"%string \/ group 1 m = "-"%string)
  /\ exists q,
       float_of_string (point_decimal (group 2 m)) = Some q
       /\ float_of_string ("-" ++ point_decimal (group 2 m)) = Some (- q)
       /\ q == number 0 (digits_only (group 2 m)) # 100
       /\ 0 <= q.
Proof.
  intros H. split; [exact (amount_sign s m H)|].
  destruct (amount_pattern_groups _ _ _ H) as (c & w & _ & _ & G2 & Mw).
  rewrite G2. exact (amount_number_value w Mw).
Qed.

Lemma amount_grammar_witness :
  exists m,
    search AMOUNT_PATTERN "- 1.234,56" = Some m
    /\ group 1 m = "-"%string
    /\ exists q, float_of_string (point_decimal (group 2 m)) = Some q
              /\ q == 123456 # 100.
Proof.
  eexists. split; [vm_compute; reflexivity|]. split; [reflexivity|].
  destruct (amount_grammar_value "- 1.234,56" _ eq_refl) as (_ & q & E & _ & V & _).
  exists q. split; [exact E | exact V].
Defined.

(** *** The loop over the entries of a row *)

Lemma last_entry_snoc (p : Fragment -> bool) l e :
  last_entry (filter p (l ++ [e]))
  = if p e then Some e else last_entry (filter p l).
Proof.
  unfold last_entry. rewrite filter_app. cbn [filter].
  destruct (p e).
  - now rewrite rev_app_distr.
  - now rewrite app_nil_r.
Qed.

Lemma fold_purpose {lowercase : Lower} cats lay l : forall r0,
  purpose (fold_left (assign_entry cats lay) l r0)
  = match last_entry (filter (purpose_entry lay) l) with
    | Some e => Some (categorize_transaction cats (text e))
    | None => purpose r0
    end.
Proof.
  induction l as [|e l IH] using rev_ind; intros r0; [reflexivity|].
  rewrite fold_left_app, last_entry_snoc. cbn [fold_left].
  unfold assign_entry, purpose_entry, str_contains.
  destruct (Qeq_bool (x0 e) (valuta_x0 lay)); cbn [negb andb]; [apply IH|].
  destruct (search AMOUNT_PATTERN (text e)) as [m|]; cbn [negb andb]; [|reflexivity].
  destruct (in_amount_column lay e); cbn [negb andb]; [|reflexivity].
  destruct (String.eqb (group 1 m) "+"); [apply IH|].
  destruct (String.eqb (group 1 m) "-"); apply IH.
Qed.

Lemma fold_credit {lowercase : Lower} cats lay l : forall r0,
  credit (fold_left (assign_entry cats lay) l r0)
  = match last_entry (filter (amount_entry "+" lay) l) with
    | Some e => Some (amount_cell e)
    | None => credit r0
    end.
Proof.
  induction l as [|e l IH] using rev_ind; intros r0; [reflexivity|].
  rewrite fold_left_app, last_entry_snoc. cbn [fold_left].
  unfold assign_entry, amount_entry.
  destruct (Qeq_bool (x0 e) (valuta_x0 lay)); cbn [negb andb]; [apply IH|].
  destruct (search AMOUNT_PATTERN (text e)) as [m|] eqn:S;
    [|rewrite andb_false_r; apply IH].
  destruct (in_amount_column lay e); cbn [negb andb]; [|apply IH].
  destruct (String.eqb (group 1 m) "+") eqn:P;
    [unfold amount_cell; rewrite S; reflexivity|].
  destruct (String.eqb (group 1 m) "-"); apply IH.
Qed.

Lemma fold_debit {lowercase : Lower} cats lay l : forall r0,
  debit (fold_left (assign_entry cats lay) l r0)
  = match last_entry (filter (amount_entry "-" lay) l) with
    | Some e => Some ("-" ++ amount_cell e)%string
    | None => debit r0
    end.
Proof.
  induction l as [|e l IH] using rev_ind; intros r0; [reflexivity|].
  rewrite fold_left_app, last_entry_snoc. cbn [fold_left].
  unfold assign_entry, amount_entry.
  destruct (Qeq_bool (x0 e) (valuta_x0 lay)); cbn [negb andb]; [apply IH|].
  destruct (search AMOUNT_PATTERN (text e)) as [m|] eqn:S;
    [|rewrite andb_false_r; apply IH].
  destruct (in_amount_column lay e); cbn [negb andb]; [|apply IH].
  destruct (String.eqb (group 1 m) "+") eqn:P.
  - apply String.eqb_eq in P. rewrite P. cbn [set_credit debit String.eqb Ascii.eqb Bool.eqb]. apply IH.
  - destruct (String.eqb (group 1 m) "-") eqn:N; [|apply IH].
    apply String.eqb_eq in N. unfold amount_cell. rewrite S, N. reflexivity.
Qed.

Lemma fold_currency {lowercase : Lower} cats lay l : forall r0,
  currency (fold_left (assign_entry cats lay) l r0) = currency r0.
Proof.
  induction l as [|e l IH]; intros r0; [reflexivity|]. cbn [fold_left]. rewrite IH.
  unfold assign_entry.
  destruct (Qeq_bool _ _); [reflexivity|].
  destruct (search _ _); [|reflexivity].
  destruct (in_amount_column _ _); [|reflexivity].
  destruct (String.eqb _ "+"); [reflexivity|].
  destruct (String.eqb _ "-"); reflexivity.
Qed.

(** Property X9. The purpose of a row is the category of the last of its entries
    that is neither in the value-date column nor taken as an amount:
    the texts of the entries before it leave no trace, and a row
    without such an entry has no purpose. *)
Theorem row_purpose_last_entry {lowercase : Lower} cats lay page_df date_row :
  purpose (build_transaction cats lay page_df date_row)
  = option_map (fun e => categorize_transaction cats (text e))
      (last_entry (filter (purpose_entry lay) (same_y1_entries page_df date_row))).
Proof.
  unfold build_transaction. rewrite fold_purpose.
  destruct (last_entry _); reflexivity.
Qed.

(** Property X10. The credit and the debit of a row are the numbers of the last
    entry of their sign that passes the column test, the debit with its
    sign in front; a row without such an entry leaves the cell empty.
    The currency is always EUR. *)
Theorem row_amounts_last_entry {lowercase : Lower} cats lay page_df date_row :
  let entries := same_y1_entries page_df date_row in
  let transaction := build_transaction cats lay page_df date_row in
  credit transaction
  = option_map amount_cell (last_entry (filter (amount_entry "+" lay) entries))
  /\ debit transaction
     = option_map (fun e => "-" ++ amount_cell e)%string
         (last_entry (filter (amount_entry "-" lay) entries))
  /\ currency transaction = "EUR"%string.
Proof.
  cbv zeta. unfold build_transaction.
  rewrite fold_credit, fold_debit, fold_currency.
  repeat split; destruct (last_entry _); reflexivity.
Qed.

Lemma fold_left_skip {A B} (f : A -> B -> A) (p : B -> bool) l :
  (forall a b, p b = false -> f a b = a) ->
  forall a, fold_left f (filter p l) a = fold_left f l a.
Proof.
  intros H. induction l as [|b l IH]; intros a; [reflexivity|].
  cbn [filter fold_left]. destruct (p b) eqn:E.
  - cbn [fold_left]. apply IH.
  - rewrite (H a b E). apply IH.
Qed.

Lemma filter_comm {A} (p q : A -> bool) l :
  filter p (filter q l) = filter q (filter p l).
Proof.
  induction l as [|a l IH]; [reflexivity|]. cbn [filter].
  destruct (p a) eqn:P, (q a) eqn:Q; cbn [filter]; rewrite ?P, ?Q, IH; reflexivity.
Qed.

(** Property X11. The boxes of the value-date column have no part in a row: the
    transaction is the one built from the page without them. *)
Theorem value_dates_ignored {lowercase : Lower} cats lay page_df date_row :
  build_transaction cats lay (without_value_dates lay page_df) date_row
  = build_transaction cats lay page_df date_row.
Proof.
  unfold build_transaction, same_y1_entries, without_value_dates.
  rewrite filter_comm. apply fold_left_skip.
  intros r e H. unfold assign_entry.
  apply negb_false_iff in H. now rewrite H.
Qed.

Example crowded_row_run :
  build_transaction shopping crowded_layout crowded_row
    (mkFragment 1 50 700 95 710 "01.01.2024")
  = mkRow "01.01.2024" (Some "Personal") (Some "-1.00") None "EUR".
Proof. vm_compute. reflexivity. Qed.

(** Property X12. [extract_data] returns exactly when the frame has a credit, a
    debit and a date box and every date box at the booking column is,
    once cleaned, a date of the format; it then returns at least one
    transaction, so never an empty frame. *)
Theorem extract_data_returns_iff {lowercase : Lower} sort cats df :
  (forall l, Permutation (sort l) l) ->
  ((exists out txs, extract_data sort cats df = (out, inr txs))
   <-> (amount_entries_credit df <> [] /\ amount_entries_debit df <> []
        /\ date_entries df <> []
        /\ forall lay f, locate_columns df = ([], inr lay) -> In f df ->
             booking_box lay f -> to_datetime (clean_date f) <> None))
  /\ forall out txs, extract_data sort cats df = (out, inr txs) -> txs <> [].
Proof.
  intros P.
  destruct (extract_data_cases sort cats df P)
    as [[N E]|[(_ & Hm & E)|[(lay & f & El & Hf & Bf & Ef & E)
                           |(Hc & Hd & Hb & lay & El & Hp & out & txs & R & Nt)]]].
  - split; [split|].
    + intros (out & txs & R). rewrite R in E. discriminate.
    + intros (_ & _ & Hb & _). exfalso. apply Hb. now rewrite N.
    + intros out txs R. rewrite R in E. discriminate.
  - split; [split|].
    + intros (out & txs & R). rewrite R in E. discriminate.
    + intros (Hc & Hd & Hb & _). exfalso. destruct Hm as [H|[H|H]]; auto.
    + intros out txs R. rewrite R in E. discriminate.
  - split; [split|].
    + intros (out & txs & R). rewrite R in E. discriminate.
    + intros (_ & _ & _ & Hp). exfalso. now apply (Hp lay f).
    + intros out txs R. rewrite R in E. discriminate.
  - split; [split|].
    + intros _. repeat split; try assumption.
      intros lay' f El' Hf Bf. rewrite El in El'. injection El' as <-. now apply Hp.
    + intros _. now exists out, txs.
    + intros out' txs' R'. rewrite R in R'. injection R' as <- <-. exact Nt.
Qed.

Lemma extract_data_returns_witness :
  (forall l, Permutation (stable_sort l) l)
  /\ (exists out txs, extract_data stable_sort shopping statement = (out, inr txs))
  /\ amount_entries_credit statement <> []
  /\ amount_entries_debit statement <> []
  /\ date_entries statement <> [].
Proof.
  split; [exact (sort_perm _ stable_sort_contract)|].
  assert (R : exists out txs,
             extract_data stable_sort shopping statement = (out, inr txs)).
  { eexists. eexists. vm_compute. reflexivity. }
  split; [exact R|].
  apply (extract_data_returns_iff stable_sort shopping statement
           (sort_perm _ stable_sort_contract)) in R.
  tauto.
Defined.

(** Property X13. [extract_data] raises three exceptions and no other: the
    [KeyError] of a frame without a box; the [ValueError] of [max] or
    [min] of an empty sequence, when the frame has no credit, no debit
    or no date box; the [ValueError] of [to_datetime], when a date box
    at the booking column holds more than its date. *)
Theorem extract_data_exceptions {lowercase : Lower} sort cats df e :
  (forall l, Permutation (sort l) l) ->
  outcome (extract_data sort cats df) = inl e ->
  (df = [] /\ e = KeyError "text")
  \/ (df <> []
      /\ (amount_entries_credit df = [] \/ amount_entries_debit df = []
          \/ date_entries df = [])
      /\ e = empty_sequence)
  \/ (exists lay f,
        locate_columns df = ([], inr lay) /\ In f df /\ booking_box lay f
        /\ to_datetime (clean_date f) = None
        /\ e = ValueError "to_datetime").
Proof.
  intros P H.
  destruct (extract_data_cases sort cats df P)
    as [[N E]|[(N & Hm & E)|[(lay & f & El & Hf & Bf & Ef & E)
                           |(_ & _ & _ & _ & _ & _ & out & txs & R & _)]]].
  - left. split; [exact N|]. rewrite E in H. now injection H.
  - right; left. repeat split; try assumption. rewrite E in H. now injection H.
  - right; right. exists lay, f. repeat split; try assumption; try apply Bf.
    rewrite E in H. now injection H.
  - rewrite R in H. discriminate.
Qed.

Lemma extract_data_exceptions_witness :
  (forall l, Permutation (stable_sort l) l)
  /\ outcome (extract_data stable_sort shopping glued_date)
     = inl (ValueError "to_datetime")
  /\ exists lay f,
       locate_columns glued_date = ([], inr lay) /\ In f glued_date
       /\ booking_box lay f /\ to_datetime (clean_date f) = None.
Proof.
  split; [exact (sort_perm _ stable_sort_contract)|]. split; [reflexivity|].
  destruct (extract_data_exceptions stable_sort shopping glued_date
              (ValueError "to_datetime") (sort_perm _ stable_sort_contract) eq_refl)
    as [[N _]|[(_ & _ & E)|(lay & f & El & Hf & Bf & Ef & _)]].
  - discriminate.
  - discriminate.
  - now exists lay, f.
Defined.

(** *** The date of a booking *)

Lemma Matches_max_length r w :
  Matches r w -> forall n, max_length r = Some n -> (String.length w <= n)%nat.
Proof.
  induction 1 as [|p c Hc|r1 r2 w1 w2 H1 IH1 H2 IH2|r1 r2 w H IH|r1 r2 w H IH
                  |r|r w1 w2 H1 IH1 H2 IH2|i r w H IH| |];
    cbn [max_length]; intros n E; try (injection E as <-; cbn; lia); try discriminate.
  - destruct (max_length r1) as [a|]; [|discriminate].
    destruct (max_length r2) as [b|]; [|discriminate]. injection E as <-.
    rewrite length_append. specialize (IH1 a eq_refl). specialize (IH2 b eq_refl). lia.
  - destruct (max_length r1) as [a|]; [|discriminate].
    destruct (max_length r2) as [b|]; [|discriminate]. injection E as <-.
    specialize (IH a eq_refl). lia.
  - destruct (max_length r1) as [a|]; [|discriminate].
    destruct (max_length r2) as [b|]; [|discriminate]. injection E as <-.
    specialize (IH b eq_refl). lia.
  - now apply IH.
Qed.

Lemma run_ends_Eos r :
  ends_Eos r = true -> forall st st', In st' (run r st) -> snd st' = EmptyString.
Proof.
  induction r as [|p|r1 IH1 r2 IH2|r1 IH1 r2 IH2|r IH|i r IH| |];
    cbn [ends_Eos]; intros E st st' Hin; try discriminate.
  - cbn [run] in Hin. apply in_flat_map in Hin. destruct Hin as (st1 & _ & Hin).
    now apply (IH2 E st1).
  - cbn [run] in Hin. destruct (snd st) eqn:S; [|destruct Hin].
    destruct Hin as [<-|[]]. exact S.
Qed.

Lemma append_nil_r (s : string) : (s ++ EmptyString)%string = s.
Proof. induction s; simpl; congruence. Qed.

Lemma to_datetime_length s dt :
  to_datetime s = Some dt -> (String.length s <= 10)%nat.
Proof.
  unfold to_datetime, re_match.
  destruct (run STRP_dmY ([], s)) as [|[c rest] l] eqn:R; [discriminate|]. intros _.
  assert (Hin : In (c, rest) (run STRP_dmY ([], s))) by (rewrite R; now left).
  assert (Hr := run_ends_Eos STRP_dmY eq_refl _ _ Hin).
  apply run_sound in Hin. destruct Hin as (w & Es & Mw).
  cbn [snd] in Es, Hr. rewrite Hr, append_nil_r in Es. subst w.
  exact (Matches_max_length _ _ Mw 10%nat eq_refl).
Qed.

Lemma lstrip_keeps c rest :
  Str.is_space c = false ->
  forall pre, exists pre',
    Str.lstrip (pre ++ String c rest) = (pre' ++ String c rest)%string.
Proof.
  intros Hc pre. induction pre as [|a pre IH].
  - exists EmptyString. cbn [append Str.lstrip]. now rewrite Hc.
  - cbn [append Str.lstrip]. destruct (Str.is_space a).
    + exact IH.
    + now exists (String a pre).
Qed.

Lemma rstrip_keeps c post :
  Str.is_space c = false ->
  forall a, exists post',
    Str.rstrip (a ++ String c post) = (a ++ String c post')%string.
Proof.
  intros Hc a. induction a as [|x a (post' & IH)].
  - cbn [append Str.rstrip]. destruct (Str.rstrip post) as [|y t].
    + rewrite Hc. now exists EmptyString.
    + now exists (String y t).
  - exists post'. cbn [append Str.rstrip]. rewrite IH.
    destruct a; reflexivity.
Qed.

Lemma remove_char_keep c d s :
  Ascii.eqb d c = false ->
  Str.remove_char c (String d s) = String d (Str.remove_char c s).
Proof. intros H. cbn [Str.remove_char]. now rewrite H. Qed.

Lemma digit_not_newline c : Str.is_digit c = true -> Ascii.eqb c "010" = false.
Proof.
  intros D. destruct (Ascii.eqb c "010") eqn:E; [|reflexivity].
  apply Ascii.eqb_eq in E. subst. discriminate.
Qed.

Lemma digit_not_space c : Str.is_digit c = true -> Str.is_space c = false.
Proof.
  unfold Str.is_digit, Str.is_space. intros D.
  apply andb_prop in D. destruct D as [D1 D2].
  apply Nat.leb_le in D1. apply Nat.leb_le in D2.
  apply orb_false_iff. split; apply andb_false_iff.
  - right. apply Nat.leb_gt. lia.
  - right. apply Nat.leb_gt. lia.
Qed.

Lemma remove_char_all p c s :
  all_chars p s = true -> all_chars p (Str.remove_char c s) = true.
Proof.
  induction s as [|a s IH]; cbn [all_chars Str.remove_char]; [reflexivity|].
  intros H. apply andb_prop in H. destruct H as [Ha Hs].
  destruct (Ascii.eqb a c); [now apply IH|].
  cbn [all_chars]. now rewrite Ha, IH.
Qed.

Lemma is_digit_chars c : Str.is_digit c = true -> In c digit_chars.
Proof.
  intros H. destruct c as [[] [] [] [] [] [] [] []];
    vm_compute in H; try discriminate H; vm_compute; tauto.
Qed.

Lemma dates_checked_true : dates_checked = true.
Proof. vm_compute. reflexivity. Qed.

Lemma date_text_2024 d1 d2 m1 m2 dt :
  Str.is_digit d1 = true -> Str.is_digit d2 = true ->
  Str.is_digit m1 = true -> Str.is_digit m2 = true ->
  to_datetime (date_text d1 d2 m1 m2) = Some dt ->
  day_of_2024 d1 d2 m1 m2 dt = true.
Proof.
  intros D1 D2 M1 M2 E. assert (H := dates_checked_true). unfold dates_checked in H.
  rewrite forallb_forall in H. specialize (H d1 (is_digit_chars _ D1)).
  rewrite forallb_forall in H. specialize (H d2 (is_digit_chars _ D2)).
  rewrite forallb_forall in H. specialize (H m1 (is_digit_chars _ M1)).
  rewrite forallb_forall in H. specialize (H m2 (is_digit_chars _ M2)).
  now rewrite E in H.
Qed.

(** A date box whose cleaned text is a date of the format holds
    nothing but a date of 2024, written [dd.mm.2024]. *)
Lemma clean_date_shape f dt :
  is_date f = true -> to_datetime (clean_date f) = Some dt ->
  exists d1 d2 m1 m2,
    clean_date f = date_text d1 d2 m1 m2
    /\ Str.is_digit d1 = true /\ Str.is_digit d2 = true
    /\ Str.is_digit m1 = true /\ Str.is_digit m2 = true.
Proof.
  intros Hd E. assert (L := to_datetime_length _ _ E).
  apply is_date_sound in Hd.
  destruct Hd as (pre & w & post & Et & d1 & d2 & m1 & m2 & ws & -> & D1 & D2 & M1 & M2 & W).
  exists d1, d2, m1, m2. split; [|auto].
  unfold clean_date in *. rewrite Et in *. clear Et E.
  rewrite !remove_char_app in *.
  rewrite (remove_char_keep _ d1), (remove_char_keep _ d2), (remove_char_keep _ "."),
    (remove_char_keep _ m1), (remove_char_keep _ m2), (remove_char_keep _ "."),
    remove_char_app in *
    by (reflexivity || now apply digit_not_newline).
  change (Str.remove_char "010" "2024") with "2024" in *.
  set (ws' := Str.remove_char "010" ws) in *.
  set (pre0 := Str.remove_char "010" pre) in *.
  set (post0 := Str.remove_char "010" post) in *.
  unfold Str.strip in *.
  destruct (lstrip_keeps d1
              (String d2 (String "." (String m1 (String m2 (String "." (ws' ++ "2024")))))
               ++ post0) (digit_not_space _ D1) pre0) as (pre' & El).
  cbn [append] in El, L |- *. rewrite El in *. clear El.
  assert (Es : forall p,
    (pre' ++ String d1 (String d2 (String "." (String m1 (String m2
        (String "." ((ws' ++ "2024") ++ p)))))))%string
    = ((pre' ++ String d1 (String d2 (String "." (String m1 (String m2
        (String "." (ws' ++ "202"))))))) ++ String "4" p)%string).
  { intros p. rewrite !append_assoc. cbn [append]. rewrite !append_assoc. reflexivity. }
  rewrite Es in *.
  destruct (rstrip_keeps "4" post0 eq_refl
              (pre' ++ String d1 (String d2 (String "." (String m1 (String m2
                 (String "." (ws' ++ "202")))))))) as (post' & Er).
  rewrite Er in *. clear Er.
  rewrite !length_append in L. cbn [String.length] in L. rewrite length_append in L.
  cbn [String.length] in L.
  assert (P0 : pre' = EmptyString) by (apply append_length_nil; lia).
  assert (W0 : ws' = EmptyString) by (apply append_length_nil; lia).
  assert (Q0 : post' = EmptyString) by (apply append_length_nil; lia).
  rewrite P0, W0, Q0. reflexivity.
Qed.

(** *** The returned transactions *)

(** Every returned transaction is the row of a date box at the booking
    column, with the date of the box. *)
Lemma returned_rows {lowercase : Lower} sort cats df out txs :
  (forall l, Permutation (sort l) l) ->
  extract_data sort cats df = (out, inr txs) ->
  exists lay,
    locate_columns df = ([], inr lay)
    /\ List.length txs = List.length (extract_transactions cats lay df)
    /\ forall t, In t txs ->
       exists f dt,
         In f df /\ booking_box lay f
         /\ to_datetime (clean_date f) = Some dt
         /\ t_purpose t = purpose (build_transaction cats lay (page_frame df (page f)) f)
         /\ t_debit t = debit (build_transaction cats lay (page_frame df (page f)) f)
         /\ t_credit t = credit (build_transaction cats lay (page_frame df (page f)) f)
         /\ t_currency t = currency (build_transaction cats lay (page_frame df (page f)) f)
         /\ t_date t = dt /\ t_year t = d_year dt /\ t_month t = d_month dt
         /\ t_quarter t = quarter (d_month dt).
Proof.
  intros P R. apply extract_data_inr in R.
  destruct R as (sb & eb & lay & out' & _ & El & R & _).
  exists lay. split; [exact El|].
  apply reconcile_inr in R. destruct R as (dated & F2 & -> & _).
  split.
  { rewrite add_balance_length, (Permutation_length (P dated)).
    symmetry. exact (Forall2_length F2). }
  intros t Ht. apply add_balance_In in Ht. destruct Ht as (d & c & Hd & ->).
  apply (Permutation_in _ (P dated)) in Hd.
  destruct (Forall2_In_r _ _ _ _ F2 Hd) as (r & Hr & dt & cr & de & Edt & _ & _ & ->).
  destruct (row_booking_box cats lay df r Hr) as (f & Hf & Bf & Er).
  exists f, dt. rewrite <- Er. cbn.
  repeat split; try assumption; try apply Bf.
  rewrite <- (build_transaction_clean cats lay (page_frame df (page f)) f), <- Er.
  exact Edt.
Qed.

Lemma last_entry_In (l : list Fragment) e : last_entry l = Some e -> In e l.
Proof.
  unfold last_entry. intros H. apply in_rev.
  destruct (rev l) as [|a l']; [discriminate|]. injection H as ->. now left.
Qed.

Lemma amount_entry_value sign lay e :
  amount_entry sign lay e = true ->
  exists q,
    float_of_string (amount_cell e) = Some q
    /\ float_of_string ("-" ++ amount_cell e) = Some (- q)
    /\ 0 <= q.
Proof.
  unfold amount_entry, amount_cell. intros H.
  destruct (search AMOUNT_PATTERN (text e)) as [m|] eqn:S;
    [|rewrite andb_false_r in H; discriminate].
  destruct (amount_pattern_groups _ _ _ S) as (c & w & _ & _ & G2 & Mw).
  rewrite G2. destruct (amount_number_value w Mw) as (q & E1 & E2 & _ & N).
  now exists q.
Qed.

Lemma row_cells_signed {lowercase : Lower} cats lay page_df date_row :
  cell_of_sign true (credit (build_transaction cats lay page_df date_row))
  /\ cell_of_sign false (debit (build_transaction cats lay page_df date_row))
  /\ currency (build_transaction cats lay page_df date_row) = "EUR"%string.
Proof.
  unfold build_transaction. rewrite fold_credit, fold_debit, fold_currency.
  repeat split.
  - destruct (last_entry _) as [e|] eqn:L; [|exact I].
    apply last_entry_In, filter_In in L. destruct L as [_ L].
    destruct (amount_entry_value _ _ _ L) as (q & E & _ & N). now exists q.
  - destruct (last_entry _) as [e|] eqn:L; [|exact I].
    apply last_entry_In, filter_In in L. destruct L as [_ L].
    destruct (amount_entry_value _ _ _ L) as (q & _ & E & N).
    exists (- q). split; [exact E|].
    apply Qopp_le_compat in N. exact N.
Qed.

(** Property X14. In every returned transaction the credit is empty or a number that
    is not negative, the debit is empty or a number that is not
    positive, and the currency is EUR. *)
Theorem returned_amounts_signed {lowercase : Lower} sort cats df out txs :
  (forall l, Permutation (sort l) l) ->
  extract_data sort cats df = (out, inr txs) ->
  forall t, In t txs ->
    cell_of_sign true (t_credit t) /\ cell_of_sign false (t_debit t)
    /\ t_currency t = "EUR"%string.
Proof.
  intros P R t Ht.
  destruct (returned_rows sort cats df out txs P R) as (lay & _ & _ & H).
  destruct (H t Ht) as (f & dt & _ & _ & _ & _ & Ed & Ec & Eu & _).
  rewrite Ed, Ec, Eu. apply row_cells_signed.
Qed.

Lemma returned_amounts_witness :
  (forall l, Permutation (stable_sort l) l)
  /\ exists out txs,
       extract_data stable_sort shopping statement = (out, inr txs)
       /\ forall t, In t txs ->
            cell_of_sign true (t_credit t) /\ cell_of_sign false (t_debit t)
            /\ t_currency t = "EUR"%string.
Proof.
  split; [exact (sort_perm _ stable_sort_contract)|].
  eexists. eexists. split; [vm_compute; reflexivity|].
  eapply (returned_amounts_signed stable_sort shopping statement _ _
           (sort_perm _ stable_sort_contract)).
  vm_compute. reflexivity.
Defined.

Lemma quarter_thirds m : (1 <= m <= 12)%Z -> quarter m = ((m + 2) / 3)%Z.
Proof.
  intros H. unfold quarter.
  replace (m + 2)%Z with ((m - 1) + 1 * 3)%Z by lia.
  rewrite Z.div_add by lia. reflexivity.
Qed.

(** Property X15. Every returned transaction is dated in 2024: the date box it comes
    from holds, line breaks and outer white space apart, nothing but
    [dd.mm.2024], the day of a month of that year; year, month and
    quarter are those of the date. *)
Theorem returned_dates_2024 {lowercase : Lower} sort cats df out txs :
  (forall l, Permutation (sort l) l) ->
  extract_data sort cats df = (out, inr txs) ->
  forall t, In t txs -> dated_2024 t.
Proof.
  intros P R t Ht.
  destruct (returned_rows sort cats df out txs P R) as (lay & _ & _ & H).
  destruct (H t Ht) as (f & dt & _ & [_ Df] & Edt & _ & _ & _ & _ & Et & Ey & Em & Eq).
  destruct (clean_date_shape f dt Df Edt) as (d1 & d2 & m1 & m2 & Ec & D1 & D2 & M1 & M2).
  rewrite Ec in Edt. assert (V := date_text_2024 _ _ _ _ _ D1 D2 M1 M2 Edt).
  unfold day_of_2024 in V.
  repeat (apply andb_prop in V; destruct V as [V ?]).
  apply Z.eqb_eq in V.
  repeat match goal with
         | H : (_ <=? _)%Z = true |- _ => apply Z.leb_le in H
         | H : (_ =? _)%Z = true |- _ => apply Z.eqb_eq in H
         end.
  unfold dated_2024. rewrite Et, Ey, Em, Eq.
  rewrite quarter_thirds by lia. repeat split; try assumption; lia.
Qed.

Lemma returned_dates_witness :
  (forall l, Permutation (stable_sort l) l)
  /\ exists out txs,
       extract_data stable_sort shopping statement = (out, inr txs)
       /\ forall t, In t txs -> dated_2024 t.
Proof.
  split; [exact (sort_perm _ stable_sort_contract)|].
  eexists. eexists. split; [vm_compute; reflexivity|].
  eapply (returned_dates_2024 stable_sort shopping statement _ _
           (sort_perm _ stable_sort_contract)).
  vm_compute. reflexivity.
Defined.

(** *** One transaction for each booking date *)

Lemma unique_Z_NoDup (l : list Z) : NoDup (Pd.unique Z.eqb l).
Proof.
  induction l as [|a l IH]; cbn [Pd.unique]; constructor.
  - intros H. apply filter_In in H. destruct H as [_ H].
    rewrite Z.eqb_refl in H. discriminate.
  - now apply NoDup_filter.
Qed.

Lemma list_sum_add {A} (a b : A -> nat) l :
  list_sum (map (fun x => (a x + b x)%nat) l)
  = (list_sum (map a l) + list_sum (map b l))%nat.
Proof.
  unfold list_sum. induction l as [|x l IH]; cbn [map fold_right]; lia.
Qed.

Lemma list_sum_zero {A} (a : A -> nat) l :
  (forall x, In x l -> a x = 0%nat) -> list_sum (map a l) = 0%nat.
Proof.
  unfold list_sum. induction l as [|x l IH]; intros H; cbn [map fold_right]; [reflexivity|].
  rewrite (H x (or_introl eq_refl)), IH; [reflexivity|]. intros y Hy. apply H. now right.
Qed.

Lemma indicator_sum (x : Z) ps :
  NoDup ps -> In x ps ->
  list_sum (map (fun p => if Z.eqb x p then 1%nat else 0%nat) ps) = 1%nat.
Proof.
  induction 1 as [|p ps Hp N IH]; intros Hx; [destruct Hx|].
  change (list_sum (map (fun p0 => if Z.eqb x p0 then 1%nat else 0%nat) (p :: ps)))
    with ((if Z.eqb x p then 1 else 0)
          + list_sum (map (fun p0 => if Z.eqb x p0 then 1%nat else 0%nat) ps))%nat.
  destruct (Z.eqb_spec x p) as [->|Ne].
  - rewrite list_sum_zero; [reflexivity|]. intros y Hy.
    destruct (Z.eqb_spec p y) as [->|]; [contradiction | reflexivity].
  - destruct Hx as [->|Hx]; [contradiction|]. now rewrite IH.
Qed.

Lemma length_flat_map_sum {A B} (g : A -> list B) l :
  List.length (flat_map g l) = list_sum (map (fun x => List.length (g x)) l).
Proof.
  induction l as [|x l IH]; [reflexivity|].
  cbn [flat_map map]. rewrite length_app, IH. reflexivity.
Qed.

Lemma pages_partition (q : Fragment -> bool) ps : NoDup ps ->
  forall df, (forall f, In f df -> In (page f) ps) ->
  list_sum (map (fun p => List.length (filter q (page_frame df p))) ps)
  = List.length (filter q df).
Proof.
  intros N df. induction df as [|f df IH]; intros H.
  - apply list_sum_zero. reflexivity.
  - rewrite (map_ext _
      (fun p => ((if Z.eqb (page f) p then if q f then 1 else 0 else 0)
                 + List.length (filter q (page_frame df p)))%nat)).
    2:{ intros p. unfold page_frame. cbn [filter].
        destruct (Z.eqb (page f) p); [|reflexivity].
        cbn [filter]. destruct (q f); reflexivity. }
    rewrite list_sum_add, IH by (intros g Hg; apply H; now right).
    cbn [filter]. destruct (q f).
    + rewrite (indicator_sum (page f) ps N (H f (or_introl eq_refl))). reflexivity.
    + rewrite list_sum_zero; [reflexivity|]. intros p _. now destruct (Z.eqb _ _).
Qed.

Lemma extract_transactions_length {lowercase : Lower} cats lay df :
  List.length (extract_transactions cats lay df) = List.length (booking_dates lay df).
Proof.
  unfold extract_transactions. rewrite length_flat_map_sum.
  rewrite (map_ext _
    (fun p => List.length
                (filter (fun f => Qeq_bool (x0 f) (booking_x0 lay) && is_date f)
                        (page_frame df p))))
    by (intros p; apply length_map).
  apply pages_partition; [apply unique_Z_NoDup|].
  intros f Hf. apply unique_Z_In. now apply in_map.
Qed.

(** Property X16. A returning run yields one transaction for each date box at the
    booking column, on whatever page and in whatever row the box is:
    two such boxes of one row make two transactions. *)
Theorem one_transaction_per_booking_date {lowercase : Lower} sort cats df out txs :
  (forall l, Permutation (sort l) l) ->
  extract_data sort cats df = (out, inr txs) ->
  exists lay,
    locate_columns df = ([], inr lay)
    /\ List.length txs = List.length (booking_dates lay df).
Proof.
  intros P R. destruct (returned_rows sort cats df out txs P R) as (lay & El & L & _).
  exists lay. split; [exact El|]. rewrite L. apply extract_transactions_length.
Qed.

Lemma one_transaction_witness :
  (forall l, Permutation (stable_sort l) l)
  /\ exists out txs lay,
       extract_data stable_sort shopping statement = (out, inr txs)
       /\ locate_columns statement = ([], inr lay)
       /\ List.length txs = List.length (booking_dates lay statement).
Proof.
  split; [exact (sort_perm _ stable_sort_contract)|].
  eexists. eexists.
  assert (R : extract_data stable_sort shopping statement
              = (printed (extract_data stable_sort shopping statement),
                 inr (match outcome (extract_data stable_sort shopping statement) with
                      | inr txs => txs | inl _ => [] end))).
  { vm_compute. reflexivity. }
  destruct (one_transaction_per_booking_date stable_sort shopping statement _ _
              (sort_perm _ stable_sort_contract) R) as (lay & El & L).
  exists lay. split; [exact R|]. split; [exact El | exact L].
Defined.

(** *** The date columns *)

Lemma fold_min_le l : forall v x,
  In x (v :: l) -> fold_left (fun m w => if Qltb w m then w else m) l v <= x.
Proof.
  induction l as [|a l IH]; intros v x Hx; cbn [fold_left].
  - destruct Hx as [<-|[]]. apply Qle_refl.
  - destruct (Qltb a v) eqn:E.
    + apply Qltb_lt in E. destruct Hx as [<-|Hx].
      * apply Qle_trans with a; [apply IH; now left | now apply Qlt_le_weak].
      * apply IH. exact Hx.
    + apply Qltb_ge in E. destruct Hx as [<-|[<-|Hx]].
      * apply IH. now left.
      * apply Qle_trans with v; [apply IH; now left | exact E].
      * apply IH. now right.
Qed.

Lemma fold_max_ge l : forall v x,
  In x (v :: l) -> x <= fold_left (fun m w => if Qltb m w then w else m) l v.
Proof.
  induction l as [|a l IH]; intros v x Hx; cbn [fold_left].
  - destruct Hx as [<-|[]]. apply Qle_refl.
  - destruct (Qltb v a) eqn:E.
    + apply Qltb_lt in E. destruct Hx as [<-|Hx].
      * apply Qle_trans with a; [now apply Qlt_le_weak | apply IH; now left].
      * apply IH. exact Hx.
    + apply Qltb_ge in E. destruct Hx as [<-|[<-|Hx]].
      * apply IH. now left.
      * apply Qle_trans with v; [exact E | apply IH; now left].
      * apply IH. now right.
Qed.

Lemma py_min_le l m x : py_min l = Some m -> In x l -> m <= x.
Proof.
  destruct l as [|v l]; [discriminate|]. cbn [py_min]. intros [= <-]. apply fold_min_le.
Qed.

Lemma py_max_ge l m x : py_max l = Some m -> In x l -> x <= m.
Proof.
  destruct l as [|v l]; [discriminate|]. cbn [py_max]. intros [= <-]. apply fold_max_ge.
Qed.

(** Property X17. Both date columns are left edges of date boxes, the booking column
    never right of the value-date column; when all the date boxes have
    one left edge, the two columns coincide. *)
Theorem date_columns_ordered df lay :
  locate_columns df = ([], inr lay) ->
  In (booking_x0 lay) (map x0 (date_entries df))
  /\ In (valuta_x0 lay) (map x0 (date_entries df))
  /\ booking_x0 lay <= valuta_x0 lay
  /\ ((forall f g, In f (date_entries df) -> In g (date_entries df) -> x0 f == x0 g) ->
      booking_x0 lay == valuta_x0 lay).
Proof.
  intros El. unfold locate_columns in El.
  apply bind_inr in El. destruct El as (o1 & c & o2 & _ & El & _).
  apply bind_inr in El. destruct El as (o3 & d & o4 & _ & El & _).
  apply bind_inr in El. destruct El as (o5 & b & o6 & Eb & El & _).
  apply bind_inr in El. destruct El as (o7 & v & o8 & Ev & El & _).
  injection El as _ <-. cbn [booking_x0 valuta_x0].
  apply lift_inr in Eb, Ev. destruct Eb as [_ Eb], Ev as [_ Ev].
  fold (date_entries df) in Eb, Ev.
  assert (Hb := two_most_frequent_In _ _ (py_min_In _ _ Eb)).
  assert (Hv := two_most_frequent_In _ _ (py_max_In _ _ Ev)).
  repeat split; try assumption.
  - apply Qle_trans with b; [apply Qle_refl|].
    exact (py_max_ge _ _ _ Ev (py_min_In _ _ Eb)).
  - intros H. apply in_map_iff in Hb, Hv.
    destruct Hb as (f & <- & Hf), Hv as (g & <- & Hg). now apply H.
Qed.

Lemma date_columns_witness :
  exists lay,
    locate_columns one_date_column = ([], inr lay)
    /\ booking_x0 lay <= valuta_x0 lay
    /\ In (booking_x0 lay) (map x0 (date_entries one_date_column)).
Proof.
  eexists. split; [vm_compute; reflexivity|].
  destruct (date_columns_ordered one_date_column _ eq_refl) as (Hb & _ & Hle & _).
  split; [exact Hle | exact Hb].
Defined.

(** *** [FileHandler] *)

Lemma path_in_spec p l : path_in p l = true <-> In p l.
Proof.
  unfold path_in. rewrite existsb_exists. split.
  - intros (q & Hq & E). apply String.eqb_eq in E. now subst.
  - intros H. exists p. split; [exact H | apply String.eqb_refl].
Qed.

Lemma check_loop_spec paths : forall stored output,
  exists added,
    check_loop paths stored output = (stored ++ added, output ++ added)
    /\ NoDup added
    /\ forall p, In p added <-> In p paths /\ ~ In p stored.
Proof.
  induction paths as [|fp paths IH]; intros stored output; simpl.
  - exists []. rewrite !app_nil_r. split; [reflexivity|]. split; [constructor|].
    intros p. simpl. tauto.
  - destruct (path_in fp stored) eqn:E.
    + apply path_in_spec in E.
      destruct (IH stored output) as (added & -> & N & I).
      exists added. split; [reflexivity|]. split; [exact N|].
      intros p. rewrite I. split; [tauto|].
      intros [[<-|H] Hn]; [contradiction | tauto].
    + assert (Hn : ~ In fp stored).
      { intros H. apply path_in_spec in H. congruence. }
      destruct (IH (stored ++ [fp]) (output ++ [fp])) as (added & -> & N & I).
      exists (fp :: added). rewrite <- !app_assoc. simpl.
      split; [reflexivity|]. split.
      * constructor; [|exact N]. intros H. apply I in H.
        destruct H as [_ H]. apply H. apply in_or_app. right. now left.
      * intros p. simpl. rewrite I, in_app_iff. simpl.
        destruct (string_dec fp p) as [<-|Np]; tauto.
Qed.

Lemma check_loop_known paths : forall stored output,
  (forall p, In p paths -> In p stored) ->
  check_loop paths stored output = (stored, output).
Proof.
  induction paths as [|fp paths IH]; intros stored output H; simpl; [reflexivity|].
  assert (E : path_in fp stored = true) by (apply path_in_spec, H; now left).
  rewrite E. apply IH. intros p Hp. apply H. now right.
Qed.

Lemma check_filepaths_spec h paths :
  exists new,
    check_filepaths h paths
    = (mkFileHandler (all_transactions h) (filepaths h ++ new) new, new)
    /\ NoDup new
    /\ forall p, In p new <-> In p paths /\ ~ In p (filepaths h).
Proof.
  unfold check_filepaths.
  destruct (check_loop_spec paths (filepaths h) []) as (added & -> & N & I).
  now exists added.
Qed.

(** Property X18. [check_filepaths] returns the paths it did not know, each once, and
    stores them behind the ones it knew; the frame is left alone. *)
Theorem check_filepaths_new h paths :
  let h' := fst (check_filepaths h paths) in
  let new := snd (check_filepaths h paths) in
  filepaths h' = filepaths h ++ new
  /\ output_paths h' = new
  /\ all_transactions h' = all_transactions h
  /\ NoDup new
  /\ (forall p, In p new <-> In p paths /\ ~ In p (filepaths h))
  /\ (forall p, In p paths -> In p (get_all_filepaths h')).
Proof.
  destruct (check_filepaths_spec h paths) as (new & -> & N & I).
  cbn. split; [reflexivity|]. split; [reflexivity|]. split; [reflexivity|].
  split; [exact N|]. split; [exact I|].
  intros p Hp. unfold get_all_filepaths. cbn. rewrite in_app_iff.
  destruct (in_dec string_dec p (filepaths h)) as [K|K]; [now left|].
  right. apply I. tauto.
Qed.

(** Property X19. A second call with the same paths returns nothing and stores
    nothing. *)
Theorem check_filepaths_again h paths :
  let h' := fst (check_filepaths h paths) in
  snd (check_filepaths h' paths) = []
  /\ filepaths (fst (check_filepaths h' paths)) = filepaths h'.
Proof.
  cbn zeta. destruct (check_filepaths_spec h paths) as (new & -> & _ & I).
  cbn [fst].
  assert (K : forall p, In p paths -> In p (filepaths h ++ new)).
  { intros p Hp. rewrite in_app_iff.
    destruct (in_dec string_dec p (filepaths h)) as [K|K]; [now left|].
    right. apply I. tauto. }
  unfold check_filepaths. cbn [filepaths all_transactions].
  rewrite (check_loop_known paths (filepaths h ++ new) [] K). cbn. auto.
Qed.

(** Property X20. The stored paths stay free of duplicates. *)
Theorem check_filepaths_NoDup h paths :
  NoDup (filepaths h) -> NoDup (filepaths (fst (check_filepaths h paths))).
Proof.
  intros N. destruct (check_filepaths_spec h paths) as (new & -> & Nn & I).
  cbn. apply NoDup_app; auto. intros p Hp Hq. apply I in Hq. tauto.
Qed.

Lemma check_filepaths_NoDup_witness :
  NoDup (filepaths handler_paths)
  /\ NoDup (filepaths (fst (check_filepaths handler_paths ["b.pdf"; "c.pdf"; "c.pdf"]))).
Proof.
  assert (N : NoDup (filepaths handler_paths)).
  { cbn. repeat constructor; cbn; intuition discriminate. }
  split; [exact N|].
  apply (check_filepaths_NoDup handler_paths ["b.pdf"; "c.pdf"; "c.pdf"] N).
Defined.

(** *** [main] *)

Lemma concatenate_rows h new :
  all_transactions (concatenate_transactions h new) = all_transactions h ++ new.
Proof.
  unfold concatenate_transactions.
  destruct (all_transactions h); reflexivity.
Qed.

Lemma process_files_pdf {lowercase : Lower} sort cats files : forall h,
  all_transactions (snd (process_files "pdf" sort cats files h))
  = all_transactions h ++ flat_map (frame_of sort cats) files.
Proof.
  induction files as [|[path content] files IH]; intros h; cbn [process_files].
  - cbn. now rewrite app_nil_r.
  - cbn [String.eqb Ascii.eqb Bool.eqb]. 
    assert (Step : forall o (h1 : FileHandler),
      all_transactions h1 = all_transactions h ++ frame_of sort cats (path, content) ->
      all_transactions (snd (let '(out', h2) := process_files "pdf" sort cats files h1 in
                             (o ++ out', h2)))
      = all_transactions h ++ flat_map (frame_of sort cats) ((path, content) :: files)).
    { intros o h1 E1. specialize (IH h1).
      destruct (process_files "pdf" sort cats files h1) as [o' h2]. cbn in *.
      now rewrite IH, E1, <- app_assoc. }
    unfold process_pdf.
    destruct content as [|pages].
    + apply Step. cbn. now rewrite app_nil_r.
    + assert (F : frame_of sort cats (path, Document pages)
                  = match outcome (extract_document sort cats pages) with
                    | inr transactions => transactions
                    | inl _ => []
                    end) by reflexivity.
      unfold outcome in F.
      destruct (extract_document sort cats pages) as [o [e|txs]]; cbn [snd] in F.
      * apply Step. rewrite F. now rewrite app_nil_r.
      * destruct txs as [|t txs]; cbn [frame_empty].
        -- apply Step. rewrite F. now rewrite app_nil_r.
        -- apply Step. rewrite F. apply concatenate_rows.
Qed.

(** Property X21. With the file type [pdf], in any case of letters, [main] collects the
    frames of the files whose extraction returns, in the order of the
    files; a missing file or a failing extraction costs its own rows
    only. The collection is saved unless it is empty. *)
Theorem main_collects {lowercase : Lower} config_filetype output_path sort cats files :
  str_lower config_filetype = "pdf"%string ->
  let collected := flat_map (frame_of sort cats) files in
  snd (main config_filetype output_path sort cats files)
  = if frame_empty collected then None else Some (output_path, collected).
Proof.
  intros E. unfold main. rewrite E.
  assert (H := process_files_pdf sort cats files (new_FileHandler None)).
  destruct (process_files "pdf" sort cats files (new_FileHandler None)) as [o h].
  cbn in H. rewrite H. cbn zeta.
  destruct (flat_map (frame_of sort cats) files); reflexivity.
Qed.

Lemma main_collects_witness :
  str_lower "PDF" = "pdf"%string
  /\ snd (main "PDF" "out.csv" stable_sort shopping
            [("a.pdf"%string, Document [page_of statement]);
             ("b.pdf"%string, Missing);
             ("c.pdf"%string, Document [page_of no_dates]);
             ("d.pdf"%string, Document [page_of no_balances])])
     = Some ("out.csv"%string,
             frame_of stable_sort shopping ("a.pdf"%string, Document [page_of statement])
             ++ frame_of stable_sort shopping ("d.pdf"%string, Document [page_of no_balances])).
Proof.
  split; [reflexivity|].
  rewrite (main_collects "PDF" "out.csv" stable_sort shopping _ eq_refl).
  vm_compute. reflexivity.
Defined.

Lemma process_files_other {lowercase : Lower} ft sort cats files : forall h,
  String.eqb ft "pdf" = false ->
  snd (process_files ft sort cats files h) = h.
Proof.
  induction files as [|[path content] files IH]; intros h E; cbn [process_files];
    [reflexivity|].
  rewrite E.
  assert (Step : forall f : list Output -> list Output,
    snd (let '(out', h2) := process_files ft sort cats files h in (f out', h2)) = h).
  { intros f. specialize (IH h E).
    destruct (process_files ft sort cats files h) as [o' h2]. exact IH. }
  destruct (String.eqb ft "csv"); [|apply (Step (fun o => _ ++ o))].
  destruct content; cbn [process_csv handler]; apply (Step (fun o => _ ++ o)).
Qed.

(** Property X22. With any other file type, [csv] included, [main] collects nothing,
    says so and saves nothing, whatever the files hold. *)
Theorem main_other_filetype {lowercase : Lower} config_filetype output_path sort cats files :
  str_lower config_filetype <> "pdf"%string ->
  snd (main config_filetype output_path sort cats files) = None
  /\ In NoTransactionsFound (fst (main config_filetype output_path sort cats files)).
Proof.
  intros N. unfold main.
  assert (E : String.eqb (str_lower config_filetype) "pdf" = false)
    by now apply String.eqb_neq.
  assert (H := process_files_other (str_lower config_filetype) sort cats files
                 (new_FileHandler None) E).
  destruct (process_files _ sort cats files (new_FileHandler None)) as [o h].
  cbn in H. subst h. cbn. split; [reflexivity|].
  apply in_or_app. right. now left.
Qed.

Lemma main_other_witness :
  str_lower "CSV" <> "pdf"%string
  /\ snd (main "CSV" "out.csv" stable_sort shopping
            [("a.csv"%string, Document [page_of statement])]) = None.
Proof.
  assert (N : str_lower "CSV" <> "pdf"%string) by discriminate.
  split; [exact N|].
  exact (proj1 (main_other_filetype "CSV" "out.csv" stable_sort shopping
                  [("a.csv"%string, Document [page_of statement])] N)).
Defined.

(* ================================================================= *)
(** ** The parser on the example statements *)

Example date_pattern_2024 : str_contains DATE_PATTERN "01.01.2024" = true.
Proof. reflexivity. Qed.

Example date_pattern_line_break :
  str_contains DATE_PATTERN ("01.01." ++ String "010" "2024") = true.
Proof. reflexivity. Qed.

Example amount_pattern_captures :
  option_map (fun m => (group 1 m, group 2 m))
             (search AMOUNT_PATTERN "  - 1.234,56 EUR")
  = Some ("-", "1.234,56")%string.
Proof. reflexivity. Qed.

Example amount_needs_separators : str_contains AMOUNT_PATTERN "+ 1234,56" = false.
Proof. reflexivity. Qed.

Example amount_value : float_of_string (point_decimal "1.234,56") = Some 1234.56.
Proof. reflexivity. Qed.

Example round_half_even : round2 (400125 # 1000) = 400.12 /\ round2 (400135 # 1000) = 400.14.
Proof. split; reflexivity. Qed.

Example statement_run :
  extract_data stable_sort shopping statement = ([], inr statement_transactions).
Proof. vm_compute. reflexivity. Qed.

Example no_balances_run :
  extract_data stable_sort shopping no_balances
  = ([NoStartBalance], inr no_balances_transactions).
Proof. vm_compute. reflexivity. Qed.

Example difference_of_5_00 :
  extract_data stable_sort shopping (statement_ending "+ 2.871,55")
  = ([], inr statement_transactions).
Proof. vm_compute. reflexivity. Qed.

Example difference_of_5_01 :
  extract_data stable_sort shopping (statement_ending "+ 2.871,54")
  = ([BalanceMismatch 2876.55 2871.54], inr statement_transactions).
Proof. vm_compute. reflexivity. Qed.

Example no_dates_run :
  extract_data stable_sort shopping no_dates = ([NoStartBalance], inl empty_sequence).
Proof. vm_compute. reflexivity. Qed.

Example cover_page_run :
  extract_data stable_sort shopping cover_page = ([NoStartBalance], inl empty_sequence).
Proof. vm_compute. reflexivity. Qed.

Example empty_frame_run :
  extract_data stable_sort shopping [] = ([], inl (KeyError "text")).
Proof. reflexivity. Qed.

Example same_day_in_order :
  option_map (map t_purpose)
    (match outcome (extract_data sort_values_quicksort shopping same_day) with
     | inr txs => Some txs
     | inl _ => None
     end)
  = Some [Some "Shopping"; Some "Personal"]%string.
Proof. vm_compute. reflexivity. Qed.
